(** * ipfs-fiber-upload: the upload relay and the interactive uploader

    A shallow embedding of [main.go].  Go strings are byte sequences and are
    modelled as [string] (a list of 8-bit [ascii]); Go's [(T, error)] returns
    are modelled by [result]; the outside world (environment variables, the
    file system, the network) is a record of oracles, and every outbound
    HTTP call and every line printed is appended to an explicit log.

    The library functions [main.go] calls are modelled next to the code that
    uses them: [unicode/utf8], [encoding/json] (Marshal of a string map,
    the syntax scanner, Unmarshal into [PinataResponse]), [strings.TrimSpace],
    [bufio.Reader.ReadString], [path/filepath.Base] (Unix), [mime/multipart]. *)

From Stdlib Require Import String Ascii List ZArith Zbitwise Lia Bool.
Import ListNotations.
Open Scope string_scope.
Open Scope Z_scope.

#[local] Set Warnings "-register-all".

(* ================================================================== *)
(** ** Bytes and Go strings *)

Module Bytes.

(** The numeric value of a byte. *)
Definition code (c : ascii) : Z := Z.of_N (N_of_ascii c).

(** The byte of a value (taken modulo 256, as a Go [byte(x)] conversion). *)
Definition chr (z : Z) : ascii := ascii_of_N (Z.to_N (z mod 256)).

Definition str1 (c : ascii) : string := String c EmptyString.

(** The double quote character, byte 34. *)
Definition dq : ascii := chr 34.
Definition DQ : string := str1 dq.

(** A text between double quotes. *)
Definition quoted (s : string) : string := DQ ++ s ++ DQ.

Definition LF : ascii := chr 10.
Definition backslash : ascii := chr 92.

Definition lowerhex (n : Z) : ascii :=
  match String.get (Z.to_nat n) "0123456789abcdef" with
  | Some c => c
  | None => "0"%char
  end.

Fixpoint rev_append (s acc : string) : string :=
  match s with
  | EmptyString => acc
  | String c r => rev_append r (String c acc)
  end.

Definition rev (s : string) : string := rev_append s EmptyString.

(** [strings.Contains]-style search: [sub] occurs in [s]. *)
Fixpoint contains (sub s : string) : bool :=
  String.prefix sub s ||
  match s with
  | EmptyString => false
  | String _ r => contains sub r
  end.

Fixpoint mem (c : ascii) (s : string) : bool :=
  match s with
  | EmptyString => false
  | String d r => Ascii.eqb c d || mem c r
  end.

(** [strings.ContainsAny s chars] for byte-valued [chars]. *)
Fixpoint ContainsAny (s chars : string) : bool :=
  match s with
  | EmptyString => false
  | String c r => mem c chars || ContainsAny r chars
  end.

End Bytes.
Import Bytes.

(* ================================================================== *)
(** ** unicode/utf8 *)

Module utf8.

Definition RuneError : Z := 0xFFFD.
Definition RuneSelf : Z := 0x80.
Definition MaxRune : Z := 0x10FFFF.

(** The table [first]: information about the first byte of an encoding. *)
Definition first (b : Z) : Z :=
  if b <? 0x80 then 0xF0        (* as: ASCII *)
  else if b <? 0xC2 then 0xF1   (* xx: invalid *)
  else if b <? 0xE0 then 0x02   (* s1 *)
  else if b =? 0xE0 then 0x13   (* s2 *)
  else if b <? 0xED then 0x03   (* s3 *)
  else if b =? 0xED then 0x23   (* s4 *)
  else if b <? 0xF0 then 0x03   (* s3 *)
  else if b =? 0xF0 then 0x34   (* s5 *)
  else if b <? 0xF4 then 0x04   (* s6 *)
  else if b =? 0xF4 then 0x44   (* s7 *)
  else 0xF1.                    (* xx *)

(** [acceptRanges]: the range of valid values of the second byte. *)
Definition acceptRanges (i : Z) : Z * Z :=
  if i =? 0 then (0x80, 0xBF)
  else if i =? 1 then (0xA0, 0xBF)
  else if i =? 2 then (0x80, 0x9F)
  else if i =? 3 then (0x90, 0xBF)
  else if i =? 4 then (0x80, 0x8F)
  else (0, 0).

Definition locb : Z := 0x80.
Definition hicb : Z := 0xBF.

Definition outside (lo hi b : Z) : bool := (b <? lo) || (hi <? b).

(** [utf8.DecodeRuneInString]: the first rune of [s] and its width. *)
Definition DecodeRuneInString (s : string) : Z * nat :=
  match s with
  | EmptyString => (RuneError, 0%nat)
  | String c0 r0 =>
    let s0 := code c0 in
    let x := first s0 in
    if 0xF0 <=? x then
      (if x =? 0xF0 then s0 else RuneError, 1%nat)
    else
      let sz := Z.land x 7 in
      let '(lo, hi) := acceptRanges (Z.shiftr x 4) in
      if Z.of_nat (String.length s) <? sz then (RuneError, 1%nat) else
      match r0 with
      | EmptyString => (RuneError, 1%nat)
      | String c1 r1 =>
        let s1 := code c1 in
        if outside lo hi s1 then (RuneError, 1%nat) else
        if sz <=? 2 then
          (Z.lor (Z.shiftl (Z.land s0 0x1F) 6) (Z.land s1 0x3F), 2%nat)
        else
        match r1 with
        | EmptyString => (RuneError, 1%nat)
        | String c2 r2 =>
          let s2 := code c2 in
          if outside locb hicb s2 then (RuneError, 1%nat) else
          if sz <=? 3 then
            (Z.lor (Z.lor (Z.shiftl (Z.land s0 0x0F) 12)
                          (Z.shiftl (Z.land s1 0x3F) 6))
                   (Z.land s2 0x3F), 3%nat)
          else
          match r2 with
          | EmptyString => (RuneError, 1%nat)
          | String c3 _ =>
            let s3 := code c3 in
            if outside locb hicb s3 then (RuneError, 1%nat) else
            (Z.lor (Z.lor (Z.lor (Z.shiftl (Z.land s0 0x07) 18)
                                 (Z.shiftl (Z.land s1 0x3F) 12))
                          (Z.shiftl (Z.land s2 0x3F) 6))
                   (Z.land s3 0x3F), 4%nat)
          end
        end
      end
  end.

(** [utf8.AppendRune] on an empty buffer: the encoding of a rune. *)
Definition EncodeRune (r : Z) : string :=
  let enc3 (r : Z) :=
    String (chr (Z.lor 0xE0 (Z.shiftr r 12)))
      (String (chr (Z.lor 0x80 (Z.land (Z.shiftr r 6) 0x3F)))
         (str1 (chr (Z.lor 0x80 (Z.land r 0x3F))))) in
  if (0 <=? r) && (r <=? 0x7F) then str1 (chr r)
  else if (0 <=? r) && (r <=? 0x7FF) then
    String (chr (Z.lor 0xC0 (Z.shiftr r 6)))
      (str1 (chr (Z.lor 0x80 (Z.land r 0x3F))))
  else if (r <? 0) || (MaxRune <? r) || ((0xD800 <=? r) && (r <=? 0xDFFF))
  then enc3 RuneError
  else if r <=? 0xFFFF then enc3 r
  else
    String (chr (Z.lor 0xF0 (Z.shiftr r 18)))
      (String (chr (Z.lor 0x80 (Z.land (Z.shiftr r 12) 0x3F)))
         (String (chr (Z.lor 0x80 (Z.land (Z.shiftr r 6) 0x3F)))
            (str1 (chr (Z.lor 0x80 (Z.land r 0x3F)))))).

End utf8.


(* ================================================================== *)
(** ** Go's [(T, error)] results *)

(** A Go [error] is represented by the text its [Error()] method returns. *)
Definition error := string.

Inductive result (A : Type) : Type :=
| Ok (a : A)
| Err (e : error).
Arguments Ok {A} a.
Arguments Err {A} e.

(* ================================================================== *)
(** ** encoding/json: Marshal of a string-valued map *)

Module json.

(** [htmlSafeSet]: the ASCII bytes [Marshal] copies unescaped. *)
Definition htmlSafeSet (b : Z) : bool :=
  (0x20 <=? b) && (b <? 0x80) &&
  negb ((b =? 34) || (b =? 38) || (b =? 60) || (b =? 62) || (b =? 92)).

(** The escape [appendString] writes for an ASCII byte outside
    [htmlSafeSet] (with the short forms of backspace and form feed, as
    since Go 1.22). *)
Definition escapeASCII (c : ascii) : string :=
  let b := code c in
  if (b =? 92) || (b =? 34) then String backslash (str1 c)
  else if b =? 8 then "\b"
  else if b =? 12 then "\f"
  else if b =? 10 then "\n"
  else if b =? 13 then "\r"
  else if b =? 9 then "\t"
  else "\u00" ++ String (lowerhex (Z.shiftr b 4)) (str1 (lowerhex (Z.land b 0xF))).

(** Where the byte loop of [appendString] stands inside a multi-byte rune:
    [Copy n] copies the next [n] bytes unchanged, [Drop n] has already
    written an escape for them. *)
Inductive pending := Copy (n : nat) | Drop (n : nat).

Fixpoint escapeFrom (p : pending) (src : string) : string :=
  match src with
  | EmptyString => EmptyString
  | String c rest =>
    match p with
    | Copy (S k) => String c (escapeFrom (Copy k) rest)
    | Drop (S k) => escapeFrom (Drop k) rest
    | _ =>
      let b := code c in
      if b <? utf8.RuneSelf then
        if htmlSafeSet b then String c (escapeFrom (Copy 0) rest)
        else escapeASCII c ++ escapeFrom (Copy 0) rest
      else
        let '(r, size) := utf8.DecodeRuneInString src in
        if (r =? utf8.RuneError) && Nat.eqb size 1 then
          "\ufffd" ++ escapeFrom (Copy 0) rest
        else if (r =? 0x2028) || (r =? 0x2029) then
          "\u202" ++ str1 (lowerhex (Z.land r 0xF))
            ++ escapeFrom (Drop (Nat.pred size)) rest
        else String c (escapeFrom (Copy (Nat.pred size)) rest)
    end
  end.

(** [appendString(nil, src, escapeHTML = true)]: a quoted JSON string. *)
Definition appendString (src : string) : string :=
  DQ ++ escapeFrom (Copy 0) src ++ DQ.

(** [fiber.Map] is [map[string]interface{}]; the handler only stores
    strings in it.  A map literal has distinct keys. *)
Definition Map := list (string * string).

(** [Marshal] writes the entries of a map sorted by key (byte order). *)
Fixpoint insertByKey (e : string * string) (m : Map) : Map :=
  match m with
  | [] => [e]
  | e' :: m' =>
    if String.leb (fst e) (fst e') then e :: m else e' :: insertByKey e m'
  end.

Definition sortByKey (m : Map) : Map := fold_right insertByKey [] m.

Definition encodeEntry (e : string * string) : string :=
  appendString (fst e) ++ ":" ++ appendString (snd e).

(** [json.Marshal] of a map with string values; it cannot fail on them. *)
Definition Marshal (m : Map) : string :=
  "{" ++ String.concat "," (map encodeEntry (sortByKey m)) ++ "}".

(* ---------------------------------------------------------------- *)
(** *** The syntax scanner ([scanner.go]) *)

(** The step functions of the scanner, as the states of a machine. *)
Inductive state :=
| StBeginValueOrEmpty | StBeginValue | StBeginStringOrEmpty | StBeginString
| StEndValue | StEndTop
| StInString | StInStringEsc
| StInStringEscU | StInStringEscU1 | StInStringEscU12 | StInStringEscU123
| StNeg | St1 | St0 | StDot | StDot0 | StE | StESign | StE0
| StT | StTr | StTru | StF | StFa | StFal | StFals | StN | StNu | StNul
| StError.

Inductive parseKind := parseObjectKey | parseObjectValue | parseArrayValue.

(** What a step reports to the decoder. *)
Inductive opcode :=
| scanContinue | scanBeginLiteral | scanBeginObject | scanObjectKey
| scanObjectValue | scanEndObject | scanBeginArray | scanArrayValue
| scanEndArray | scanSkipSpace | scanEnd | scanError.

(** The scanner.  [parseState] is the stack of open containers, innermost
    first.  [err] is the message of the [SyntaxError] (its byte offset is
    not part of [Error()] and is not kept). *)
Record scanner := mkScanner {
  step : state;
  endTop : bool;
  parseState : list parseKind;
  err : option error
}.

Definition maxNestingDepth : Z := 10000.

Definition isSpace (c : ascii) : bool :=
  let b := code c in
  (b <=? 32) && ((b =? 32) || (b =? 9) || (b =? 13) || (b =? 10)).

(** [strconv.Quote(string(c))] without its quotes, for a single byte [c]
    converted to the rune of the same value. *)
Definition quoteRune (c : ascii) : string :=
  let b := code c in
  if (b =? 34) || (b =? 92) then String backslash (str1 c)
  else if ((0x20 <=? b) && (b <=? 0x7E)) then str1 c
  else if ((0xA1 <=? b) && negb (b =? 0xAD)) then utf8.EncodeRune b
  else if b =? 7 then "\a"
  else if b =? 8 then "\b"
  else if b =? 12 then "\f"
  else if b =? 10 then "\n"
  else if b =? 13 then "\r"
  else if b =? 9 then "\t"
  else if b =? 11 then "\v"
  else if (b <? 32) || (b =? 0x7F) then
    "\x" ++ String (lowerhex (Z.shiftr b 4)) (str1 (lowerhex (Z.land b 0xF)))
  else
    "\u00" ++ String (lowerhex (Z.shiftr b 4)) (str1 (lowerhex (Z.land b 0xF))).

(** [quoteChar]: a byte formatted as a quoted character literal. *)
Definition quoteChar (c : ascii) : string :=
  if code c =? 39 then "'\''"
  else if code c =? 34 then "'" ++ DQ ++ "'"
  else "'" ++ quoteRune c ++ "'".

Definition setStep (s : scanner) (st : state) : scanner :=
  mkScanner st s.(endTop) s.(parseState) s.(err).

(** [s.error(c, context)] *)
Definition scan_error (s : scanner) (c : ascii) (context : string)
  : scanner * opcode :=
  (mkScanner StError s.(endTop) s.(parseState)
     (Some ("invalid character " ++ quoteChar c ++ " " ++ context)),
   scanError).

Definition pushParseState (s : scanner) (c : ascii) (newParseState : parseKind)
    (successState : opcode) : scanner * opcode :=
  let s' := mkScanner s.(step) s.(endTop) (newParseState :: s.(parseState))
              s.(err) in
  if Z.of_nat (List.length s'.(parseState)) <=? maxNestingDepth
  then (s', successState)
  else scan_error s' c "exceeded max depth".

(** [popParseState]: leaving the outermost container ends the top-level
    value. *)
Definition popParseState (s : scanner) : scanner :=
  match tl s.(parseState) with
  | [] => mkScanner StEndTop true [] s.(err)
  | ps => mkScanner StEndValue s.(endTop) ps s.(err)
  end.

Definition replaceTop (s : scanner) (k : parseKind) : scanner :=
  mkScanner s.(step) s.(endTop) (k :: tl s.(parseState)) s.(err).

Definition stateEndTop (s : scanner) (c : ascii) : scanner * opcode :=
  if negb (isSpace c)
  then (fst (scan_error s c "after top-level value"), scanEnd)
  else (s, scanEnd).

Definition stateEndValue (s : scanner) (c : ascii) : scanner * opcode :=
  match s.(parseState) with
  | [] =>
    stateEndTop (mkScanner StEndTop true s.(parseState) s.(err)) c
  | ps :: _ =>
    if isSpace c then (setStep s StEndValue, scanSkipSpace) else
    match ps with
    | parseObjectKey =>
      if code c =? 58 (* : *) then
        (setStep (replaceTop s parseObjectValue) StBeginValue, scanObjectKey)
      else scan_error s c "after object key"
    | parseObjectValue =>
      if code c =? 44 (* , *) then
        (setStep (replaceTop s parseObjectKey) StBeginString, scanObjectValue)
      else if code c =? 125 (* } *) then (popParseState s, scanEndObject)
      else scan_error s c "after object key:value pair"
    | parseArrayValue =>
      if code c =? 44 then (setStep s StBeginValue, scanArrayValue)
      else if code c =? 93 (* ] *) then (popParseState s, scanEndArray)
      else scan_error s c "after array element"
    end
  end.

Definition isDigit19 (c : ascii) : bool := (49 <=? code c) && (code c <=? 57).
Definition isDigit (c : ascii) : bool := (48 <=? code c) && (code c <=? 57).
Definition isHex (c : ascii) : bool :=
  let b := code c in
  ((48 <=? b) && (b <=? 57)) || ((97 <=? b) && (b <=? 102))
  || ((65 <=? b) && (b <=? 70)).

Definition stateBeginValue (s : scanner) (c : ascii) : scanner * opcode :=
  if isSpace c then (s, scanSkipSpace) else
  let b := code c in
  if b =? 123 (* { *) then
    pushParseState (setStep s StBeginStringOrEmpty) c parseObjectKey
      scanBeginObject
  else if b =? 91 (* [ *) then
    pushParseState (setStep s StBeginValueOrEmpty) c parseArrayValue
      scanBeginArray
  else if b =? 34 then (setStep s StInString, scanBeginLiteral)
  else if b =? 45 (* - *) then (setStep s StNeg, scanBeginLiteral)
  else if b =? 48 (* 0 *) then (setStep s St0, scanBeginLiteral)
  else if b =? 116 (* t *) then (setStep s StT, scanBeginLiteral)
  else if b =? 102 (* f *) then (setStep s StF, scanBeginLiteral)
  else if b =? 110 (* n *) then (setStep s StN, scanBeginLiteral)
  else if isDigit19 c then (setStep s St1, scanBeginLiteral)
  else scan_error s c "looking for beginning of value".

Definition stateBeginValueOrEmpty (s : scanner) (c : ascii)
  : scanner * opcode :=
  if isSpace c then (s, scanSkipSpace)
  else if code c =? 93 then stateEndValue s c
  else stateBeginValue s c.

Definition stateBeginString (s : scanner) (c : ascii) : scanner * opcode :=
  if isSpace c then (s, scanSkipSpace)
  else if code c =? 34 then (setStep s StInString, scanBeginLiteral)
  else scan_error s c "looking for beginning of object key string".

Definition stateBeginStringOrEmpty (s : scanner) (c : ascii)
  : scanner * opcode :=
  if isSpace c then (s, scanSkipSpace)
  else if code c =? 125 then stateEndValue (replaceTop s parseObjectValue) c
  else stateBeginString s c.

Definition stateInString (s : scanner) (c : ascii) : scanner * opcode :=
  if code c =? 34 then (setStep s StEndValue, scanContinue)
  else if code c =? 92 then (setStep s StInStringEsc, scanContinue)
  else if code c <? 0x20 then scan_error s c "in string literal"
  else (s, scanContinue).

Definition stateInStringEsc (s : scanner) (c : ascii) : scanner * opcode :=
  if mem c ("bfnrt\/" ++ DQ) then (setStep s StInString, scanContinue)
  else if code c =? 117 (* u *) then (setStep s StInStringEscU, scanContinue)
  else scan_error s c "in string escape code".

Definition stateHex (next : state) (s : scanner) (c : ascii)
  : scanner * opcode :=
  if isHex c then (setStep s next, scanContinue)
  else scan_error s c "in \u hexadecimal character escape".

Definition state0 (s : scanner) (c : ascii) : scanner * opcode :=
  if code c =? 46 (* . *) then (setStep s StDot, scanContinue)
  else if (code c =? 101) || (code c =? 69) then (setStep s StE, scanContinue)
  else stateEndValue s c.

Definition state1 (s : scanner) (c : ascii) : scanner * opcode :=
  if isDigit c then (setStep s St1, scanContinue) else state0 s c.

Definition stateNeg (s : scanner) (c : ascii) : scanner * opcode :=
  if code c =? 48 then (setStep s St0, scanContinue)
  else if isDigit19 c then (setStep s St1, scanContinue)
  else scan_error s c "in numeric literal".

Definition stateDot (s : scanner) (c : ascii) : scanner * opcode :=
  if isDigit c then (setStep s StDot0, scanContinue)
  else scan_error s c "after decimal point in numeric literal".

Definition stateDot0 (s : scanner) (c : ascii) : scanner * opcode :=
  if isDigit c then (s, scanContinue)
  else if (code c =? 101) || (code c =? 69) then (setStep s StE, scanContinue)
  else stateEndValue s c.

Definition stateESign (s : scanner) (c : ascii) : scanner * opcode :=
  if isDigit c then (setStep s StE0, scanContinue)
  else scan_error s c "in exponent of numeric literal".

Definition stateE (s : scanner) (c : ascii) : scanner * opcode :=
  if (code c =? 43) || (code c =? 45) then (setStep s StESign, scanContinue)
  else stateESign s c.

Definition stateE0 (s : scanner) (c : ascii) : scanner * opcode :=
  if isDigit c then (s, scanContinue) else stateEndValue s c.

(** The states spelling out [true], [false] and [null]: the expected byte
    leads to [next], anything else is an error. *)
Definition stateLit (expect : ascii) (next : state) (context : string)
    (s : scanner) (c : ascii) : scanner * opcode :=
  if Ascii.eqb c expect then (setStep s next, scanContinue)
  else scan_error s c context.

(** [s.step(s, c)] *)
Definition scan_step (s : scanner) (c : ascii) : scanner * opcode :=
  match s.(step) with
  | StBeginValueOrEmpty => stateBeginValueOrEmpty s c
  | StBeginValue => stateBeginValue s c
  | StBeginStringOrEmpty => stateBeginStringOrEmpty s c
  | StBeginString => stateBeginString s c
  | StEndValue => stateEndValue s c
  | StEndTop => stateEndTop s c
  | StInString => stateInString s c
  | StInStringEsc => stateInStringEsc s c
  | StInStringEscU => stateHex StInStringEscU1 s c
  | StInStringEscU1 => stateHex StInStringEscU12 s c
  | StInStringEscU12 => stateHex StInStringEscU123 s c
  | StInStringEscU123 => stateHex StInString s c
  | StNeg => stateNeg s c
  | St1 => state1 s c
  | St0 => state0 s c
  | StDot => stateDot s c
  | StDot0 => stateDot0 s c
  | StE => stateE s c
  | StESign => stateESign s c
  | StE0 => stateE0 s c
  | StT => stateLit "r" StTr "in literal true (expecting 'r')" s c
  | StTr => stateLit "u" StTru "in literal true (expecting 'u')" s c
  | StTru => stateLit "e" StEndValue "in literal true (expecting 'e')" s c
  | StF => stateLit "a" StFa "in literal false (expecting 'a')" s c
  | StFa => stateLit "l" StFal "in literal false (expecting 'l')" s c
  | StFal => stateLit "s" StFals "in literal false (expecting 's')" s c
  | StFals => stateLit "e" StEndValue "in literal false (expecting 'e')" s c
  | StN => stateLit "u" StNu "in literal null (expecting 'u')" s c
  | StNu => stateLit "l" StNul "in literal null (expecting 'l')" s c
  | StNul => stateLit "l" StEndValue "in literal null (expecting 'l')" s c
  | StError => (s, scanError)
  end.

(** [scan.reset()] *)
Definition reset : scanner := mkScanner StBeginValue false [] None.

(** [s.eof()]: the scanner is told that the input has ended. *)
Definition eof (s : scanner) : scanner * opcode :=
  match s.(err) with
  | Some _ => (s, scanError)
  | None =>
    if s.(endTop) then (s, scanEnd) else
    let s1 := fst (scan_step s " "%char) in
    if s1.(endTop) then (s1, scanEnd) else
    match s1.(err) with
    | Some _ => (s1, scanError)
    | None =>
      (mkScanner s1.(step) s1.(endTop) s1.(parseState)
         (Some "unexpected end of JSON input"), scanError)
    end
  end.

(** The loop of [checkValid] over the bytes of the input. *)
Fixpoint checkValid_from (s : scanner) (data : string) : option error :=
  match data with
  | EmptyString =>
    let '(s', op) := eof s in
    match op with scanError => s'.(err) | _ => None end
  | String c rest =>
    let '(s', op) := scan_step s c in
    match op with
    | scanError => s'.(err)
    | _ => checkValid_from s' rest
    end
  end.

(** [checkValid(data, scan)]: [None] when [data] is one JSON value. *)
Definition checkValid (data : string) : option error :=
  checkValid_from reset data.

(* ---------------------------------------------------------------- *)
(** *** Decoding ([decode.go]) *)

(** A decoded JSON value; a number keeps its literal text. *)
Inductive value :=
| JNull
| JBool (b : bool)
| JNumber (lit : string)
| JString (s : string)
| JArray (items : list value)
| JObject (members : list (string * value)).

(** [getu4]: the rune of a [\uXXXX] escape at the head of [s], or -1. *)
Definition hexval (c : ascii) : Z :=
  let b := code c in
  if (48 <=? b) && (b <=? 57) then b - 48
  else if (97 <=? b) && (b <=? 102) then b - 97 + 10
  else if (65 <=? b) && (b <=? 70) then b - 65 + 10
  else -1.

Definition getu4 (s : string) : Z :=
  match s with
  | String c0 (String c1 (String h1 (String h2 (String h3 (String h4 _))))) =>
    if negb (code c0 =? 92) || negb (code c1 =? 117) then -1
    else if (hexval h1 <? 0) || (hexval h2 <? 0) || (hexval h3 <? 0)
            || (hexval h4 <? 0) then -1
    else ((hexval h1 * 16 + hexval h2) * 16 + hexval h3) * 16 + hexval h4
  | _ => -1
  end.

(** [utf16.IsSurrogate] and [utf16.DecodeRune] *)
Definition IsSurrogate (r : Z) : bool := (0xD800 <=? r) && (r <? 0xE000).

Definition utf16_DecodeRune (r1 r2 : Z) : Z :=
  if (0xD800 <=? r1) && (r1 <? 0xDC00) && (0xDC00 <=? r2) && (r2 <? 0xE000)
  then Z.lor (Z.shiftl (r1 - 0xD800) 10) (r2 - 0xDC00) + 0x10000
  else utf8.RuneError.

Fixpoint drop (n : nat) (s : string) : string :=
  match n, s with
  | S k, String _ r => drop k r
  | _, _ => s
  end.

Definition emit (out : string) (k : option string) : option string :=
  option_map (fun t => out ++ t) k.

(** The loop of [unquoteBytes] over the text between the quotes; [skip]
    counts the bytes of an escape or of a rune that the current iteration
    has consumed beyond its first one. *)
Fixpoint unquoteFrom (skip : nat) (s : string) : option string :=
  match s with
  | EmptyString => Some EmptyString
  | String c rest =>
    match skip with
    | S k => unquoteFrom k rest
    | O =>
      let b := code c in
      if b =? 92 then
        match rest with
        | EmptyString => None
        | String e _ =>
          let x := code e in
          if (x =? 34) || (x =? 92) || (x =? 47) || (x =? 39) then
            emit (str1 e) (unquoteFrom 1 rest)
          else if x =? 98 then emit (str1 (chr 8)) (unquoteFrom 1 rest)
          else if x =? 102 then emit (str1 (chr 12)) (unquoteFrom 1 rest)
          else if x =? 110 then emit (str1 (chr 10)) (unquoteFrom 1 rest)
          else if x =? 114 then emit (str1 (chr 13)) (unquoteFrom 1 rest)
          else if x =? 116 then emit (str1 (chr 9)) (unquoteFrom 1 rest)
          else if x =? 117 then
            let rr := getu4 s in
            if rr <? 0 then None
            else if IsSurrogate rr then
              let dec := utf16_DecodeRune rr (getu4 (drop 6 s)) in
              if negb (dec =? utf8.RuneError) then
                emit (utf8.EncodeRune dec) (unquoteFrom 11 rest)
              else emit (utf8.EncodeRune utf8.RuneError) (unquoteFrom 5 rest)
            else emit (utf8.EncodeRune rr) (unquoteFrom 5 rest)
          else None
        end
      else if (b =? 34) || (b <? 32) then None
      else if b <? utf8.RuneSelf then emit (str1 c) (unquoteFrom 0 rest)
      else
        let '(rr, size) := utf8.DecodeRuneInString s in
        emit (utf8.EncodeRune rr) (unquoteFrom (Nat.pred size) rest)
    end
  end.

(** [unquote]: the string a quoted literal denotes, [None] when the
    literal is malformed. *)
Definition unquote (lit : string) : option string :=
  match lit with
  | String c0 body =>
    match rev body with
    | String c1 inner_rev =>
      if (code c0 =? 34) && (code c1 =? 34)
      then unquoteFrom 0 (rev inner_rev) else None
    | EmptyString => None
    end
  | EmptyString => None
  end.

(** The value of a literal the scanner has delimited. *)
Definition literalValue (lit : string) : option value :=
  match lit with
  | EmptyString => None
  | String c _ =>
    let b := code c in
    if b =? 34 then option_map JString (unquote lit)
    else if b =? 116 then Some (JBool true)
    else if b =? 102 then Some (JBool false)
    else if b =? 110 then Some JNull
    else Some (JNumber lit)
  end.

(** The containers under construction, innermost first; their elements
    are kept in reverse. *)
Inductive frame :=
| FArr (items : list value)
| FObj (members : list (string * value)) (key : option string).

(** The decoder reads the input through the scanner: [lit] is the literal
    being read (reversed), [cur] the value completed last and not yet
    stored in its container.  [sync] turns false where the decoder would
    panic with [phasePanicMsg]. *)
Record decodeState := mkDecode {
  stack : list frame;
  lit : option string;
  cur : option value;
  sync : bool
}.

Definition phasePanicMsg : string :=
  "JSON decoder out of sync - data changing underfoot?".

Definition outOfSync (d : decodeState) : decodeState :=
  mkDecode d.(stack) d.(lit) d.(cur) false.

Definition endLiteral (d : decodeState) : decodeState :=
  match d.(lit) with
  | None => d
  | Some l =>
    match literalValue (rev l) with
    | Some v => mkDecode d.(stack) None (Some v) d.(sync)
    | None => outOfSync d
    end
  end.

(** Store the completed value in the innermost container. *)
Definition store (d : decodeState) : decodeState :=
  match d.(cur), d.(stack) with
  | Some v, FArr items :: st =>
    mkDecode (FArr (v :: items) :: st) d.(lit) None d.(sync)
  | Some v, FObj ms (Some k) :: st =>
    mkDecode (FObj ((k, v) :: ms) None :: st) d.(lit) None d.(sync)
  | _, _ => outOfSync d
  end.

Definition storeIfAny (d : decodeState) : decodeState :=
  match d.(cur) with Some _ => store d | None => d end.

Definition decode_op (op : opcode) (c : ascii) (d : decodeState)
  : decodeState :=
  match op with
  | scanContinue =>
    match d.(lit) with
    | Some l => mkDecode d.(stack) (Some (String c l)) d.(cur) d.(sync)
    | None => outOfSync d
    end
  | scanBeginLiteral =>
    mkDecode d.(stack) (Some (str1 c)) d.(cur) d.(sync)
  | scanBeginObject =>
    mkDecode (FObj [] None :: d.(stack)) None None d.(sync)
  | scanBeginArray =>
    mkDecode (FArr [] :: d.(stack)) None None d.(sync)
  | scanObjectKey =>
    let d := endLiteral d in
    match d.(cur), d.(stack) with
    | Some (JString k), FObj ms None :: st =>
      mkDecode (FObj ms (Some k) :: st) None None d.(sync)
    | _, _ => outOfSync d
    end
  | scanObjectValue | scanArrayValue => store (endLiteral d)
  | scanEndObject =>
    let d := storeIfAny (endLiteral d) in
    match d.(stack) with
    | FObj ms None :: st =>
      mkDecode st None (Some (JObject (List.rev ms))) d.(sync)
    | _ => outOfSync d
    end
  | scanEndArray =>
    let d := storeIfAny (endLiteral d) in
    match d.(stack) with
    | FArr items :: st =>
      mkDecode st None (Some (JArray (List.rev items))) d.(sync)
    | _ => outOfSync d
    end
  | scanSkipSpace | scanEnd | scanError => endLiteral d
  end.

Fixpoint decode_from (s : scanner) (d : decodeState) (data : string)
  : decodeState :=
  match data with
  | EmptyString => endLiteral d
  | String c rest =>
    let '(s', op) := scan_step s c in
    decode_from s' (decode_op op c d) rest
  end.

(** The value a valid input denotes. *)
Definition parse (data : string) : option value :=
  let d := decode_from reset (mkDecode [] None None true) data in
  match d.(sync), d.(stack), d.(cur) with
  | true, [], Some v => Some v
  | _, _, _ => None
  end.

(* ---------------------------------------------------------------- *)
(** *** Unmarshal into [PinataResponse] *)

(** [foldRune] restricted to what matters for a field with an ASCII name:
    outside ASCII only U+017F and U+212A fold to an ASCII letter; every
    other rune folds to a rune outside ASCII and is left as it is here. *)
Definition foldRune (r : Z) : Z :=
  if r =? 0x17F then 0x53 else if r =? 0x212A then 0x4B else r.

Fixpoint foldFrom (skip : nat) (s : string) : string :=
  match s with
  | EmptyString => EmptyString
  | String c rest =>
    match skip with
    | S k => foldFrom k rest
    | O =>
      let b := code c in
      if b <? utf8.RuneSelf then
        String (if (97 <=? b) && (b <=? 122) then chr (b - 32) else c)
               (foldFrom 0 rest)
      else
        let '(r, n) := utf8.DecodeRuneInString s in
        utf8.EncodeRune (foldRune r) ++ foldFrom (Nat.pred n) rest
    end
  end.

(** [foldName]: the name under which keys are compared without case. *)
Definition foldName (s : string) : string := foldFrom 0 s.

End json.

(** The struct [main.go] decodes the provider's answer into. *)
Record PinataResponse := mkPinataResponse { IpfsHash : string }.

Module unmarshal.
Import json.

(** The JSON name of the only field, from its tag. *)
Definition fieldName : string := "IpfsHash".

(** A key selects the field by an exact match or else by a match of the
    folded names. *)
Definition isField (key : string) : bool :=
  String.eqb key fieldName || String.eqb (foldName key) (foldName fieldName).

(** The [Value] of an [UnmarshalTypeError]. *)
Definition kindName (v : value) : string :=
  match v with
  | JNull => "null"
  | JBool _ => "bool"
  | JNumber _ => "number"
  | JString _ => "string"
  | JArray _ => "array"
  | JObject _ => "object"
  end.

Definition typeErrorValue (v : value) : error :=
  "json: cannot unmarshal " ++ kindName v
    ++ " into Go value of type main.PinataResponse".

Definition typeErrorField (v : value) : error :=
  "json: cannot unmarshal " ++ kindName v
    ++ " into Go struct field PinataResponse.IpfsHash of type string".

(** [d.saveError]: the first error is the one reported. *)
Definition saveError (saved : option error) (e : error) : option error :=
  match saved with Some _ => saved | None => Some e end.

(** [d.object] on the struct: the members are taken in order; a string
    sets the field, [null] leaves it, any other value is a type error and
    decoding goes on; members of other names are skipped. *)
Fixpoint object (ms : list (string * value)) (v : PinataResponse)
    (saved : option error) : PinataResponse * option error :=
  match ms with
  | [] => (v, saved)
  | (k, x) :: ms' =>
    if isField k then
      match x with
      | JString s => object ms' (mkPinataResponse s) saved
      | JNull => object ms' v saved
      | _ => object ms' v (saveError saved (typeErrorField x))
      end
    else object ms' v saved
  end.

(** [d.value] on the struct. *)
Definition store (x : value) (v : PinataResponse)
  : PinataResponse * option error :=
  match x with
  | JObject ms => object ms v None
  | JNull => (v, None)
  | _ => (v, Some (typeErrorValue x))
  end.

(** [json.Unmarshal(data, &v)]: the struct after the call and the error
    returned.  The input is checked as a whole first; nothing is stored
    when it is not valid JSON.  On an input that has passed the check the
    decoder does not get out of step with the scanner (where Go would
    panic): that case is kept here as an error and is shown below not to
    arise ([checkValid_parse]). *)
Definition Unmarshal (data : string) (v : PinataResponse)
  : PinataResponse * option error :=
  match checkValid data with
  | Some e => (v, Some e)
  | None =>
    match parse data with
    | Some x => store x v
    | None => (v, Some phasePanicMsg)
    end
  end.

End unmarshal.

(* ================================================================== *)
(** ** strings, bufio, path/filepath *)

Module strings.

(** [unicode.IsSpace] *)
Definition IsSpace (r : Z) : bool :=
  ((9 <=? r) && (r <=? 13)) || (r =? 0x20) || (r =? 0x85) || (r =? 0xA0)
  || (r =? 0x1680) || ((0x2000 <=? r) && (r <=? 0x200A))
  || (r =? 0x2028) || (r =? 0x2029) || (r =? 0x202F) || (r =? 0x205F)
  || (r =? 0x3000).

(** [utf8.RuneStart] *)
Definition RuneStart (c : ascii) : bool :=
  negb (Z.land (code c) 0xC0 =? 0x80).

(** [utf8.DecodeLastRuneInString] on the reversed text [rs]: the last
    rune and its width.  The encoding is looked for among the last four
    bytes and has to end exactly at the end of the text. *)
Definition DecodeLastRuneRev (rs : string) : Z * nat :=
  let try (enc : string) (n : nat) :=
    let '(r, size) := utf8.DecodeRuneInString enc in
    if Nat.eqb size n then (r, size) else (utf8.RuneError, 1%nat) in
  match rs with
  | EmptyString => (utf8.RuneError, 0%nat)
  | String b0 r0 =>
    if code b0 <? utf8.RuneSelf then (code b0, 1%nat) else
    match r0 with
    | String b1 r1 =>
      if RuneStart b1 then try (String b1 (str1 b0)) 2%nat else
      match r1 with
      | String b2 r2 =>
        if RuneStart b2 then try (String b2 (String b1 (str1 b0))) 3%nat else
        match r2 with
        | String b3 _ =>
          if RuneStart b3
          then try (String b3 (String b2 (String b1 (str1 b0)))) 4%nat
          else (utf8.RuneError, 1%nat)
        | EmptyString => (utf8.RuneError, 1%nat)
        end
      | EmptyString => (utf8.RuneError, 1%nat)
      end
    | EmptyString => (utf8.RuneError, 1%nat)
    end
  end.

(** [TrimLeftFunc(s, unicode.IsSpace)]; [skip] counts the remaining bytes
    of a space that is being removed. *)
Fixpoint trimLeftFrom (skip : nat) (s : string) : string :=
  match s with
  | EmptyString => EmptyString
  | String _ rest =>
    match skip with
    | S k => trimLeftFrom k rest
    | O =>
      let '(r, size) := utf8.DecodeRuneInString s in
      if IsSpace r then trimLeftFrom (Nat.pred size) rest else s
    end
  end.

Fixpoint trimRightRevFrom (skip : nat) (rs : string) : string :=
  match rs with
  | EmptyString => EmptyString
  | String _ rest =>
    match skip with
    | S k => trimRightRevFrom k rest
    | O =>
      let '(r, size) := DecodeLastRuneRev rs in
      if IsSpace r then trimRightRevFrom (Nat.pred size) rest else rs
    end
  end.

Definition TrimLeftSpace (s : string) : string := trimLeftFrom 0 s.
Definition TrimRightSpace (s : string) : string :=
  rev (trimRightRevFrom 0 (rev s)).

(** [strings.TrimSpace]: all leading and trailing white space, as defined
    by Unicode, removed.  (Go runs over ASCII bytes first and falls back
    to the rune loops at the first byte outside ASCII.) *)
Definition TrimSpace (s : string) : string :=
  TrimRightSpace (TrimLeftSpace s).

End strings.

Module bufio.

(** [reader.ReadString(delim)] on an input that ends after [input]: the
    text up to and including the first [delim], or everything that is
    left when there is none (Go then also returns [io.EOF], which
    [cliUpload] ignores); and the input that remains. *)
Fixpoint ReadString (delim : ascii) (input : string) : string * string :=
  match input with
  | EmptyString => (EmptyString, EmptyString)
  | String c rest =>
    if Ascii.eqb c delim then (str1 c, rest)
    else let '(l, r) := ReadString delim rest in (String c l, r)
  end.

End bufio.

Module filepath.

Definition IsPathSeparator (c : ascii) : bool := code c =? 47.

Fixpoint dropSeparators (rs : string) : string :=
  match rs with
  | String c r => if IsPathSeparator c then dropSeparators r else rs
  | EmptyString => EmptyString
  end.

(** The bytes of [rs] before its first separator. *)
Fixpoint untilSeparator (rs : string) : string :=
  match rs with
  | String c r => if IsPathSeparator c then EmptyString
                  else String c (untilSeparator r)
  | EmptyString => EmptyString
  end.

(** [filepath.Base] on Unix: the last element of the path, with trailing
    slashes removed first; [.] for the empty path and [/] for a path of
    slashes only. *)
Definition Base (path : string) : string :=
  match path with
  | EmptyString => "."
  | _ =>
    let last := rev (untilSeparator (dropSeparators (rev path))) in
    match last with
    | EmptyString => "/"
    | _ => last
    end
  end.

End filepath.

(* ================================================================== *)
(** ** The outside world *)

(** An open file: the bytes a reader gets out of it and the error, if
    any, that ends the reading. *)
Record File := mkFile {
  data : string;
  readErr : option error
}.

(** [multipart.FileHeader]: the file name of a received file field, and its
    content, held in memory or in a temporary file. *)
Record FileHeader := mkFileHeader {
  Filename : string;
  content : option string;
  tmpfile : string
}.

Module multipart.

(** A part made by [CreateFormFile] and what was copied into it. *)
Record Part := mkPart {
  FieldName : string;
  FileName : string;
  partBody : string
}.

(** [multipart.Writer] over a [bytes.Buffer].  The body is kept as the
    parts written, not as their encoding. *)
Record Writer := mkWriter {
  boundary : string;
  parts : list Part;
  closed : bool
}.

Definition NewWriter (randomBoundary : string) : Writer :=
  mkWriter randomBoundary [] false.

(** [w.CreateFormFile(fieldname, filename)]: a new, empty part.  Writing
    its header to the buffer does not fail. *)
Definition CreateFormFile (w : Writer) (fieldname filename : string)
  : result Writer :=
  Ok (mkWriter w.(boundary) (w.(parts) ++ [mkPart fieldname filename EmptyString])
        w.(closed)).

Fixpoint writeLast (ps : list Part) (bytes : string) : list Part :=
  match ps with
  | [] => []
  | [p] => [mkPart p.(FieldName) p.(FileName) (p.(partBody) ++ bytes)]
  | p :: ps' => p :: writeLast ps' bytes
  end.

(** [io.Copy(part, file)] into the part created last: what could be read
    is written, and a read error is returned. *)
Definition Copy (w : Writer) (file : File) : Writer * option error :=
  (mkWriter w.(boundary) (writeLast w.(parts) file.(data)) w.(closed),
   file.(readErr)).

Definition Close (w : Writer) : Writer :=
  mkWriter w.(boundary) w.(parts) true.

Definition FormDataContentType (w : Writer) : string :=
  let b := w.(boundary) in
  let b := if ContainsAny b ("()<>@,;:\" ++ DQ ++ "/[]?= ")
           then DQ ++ b ++ DQ else b in
  "multipart/form-data; boundary=" ++ b.

End multipart.

Module http.

Definition Header := list (string * string).

(** [h.Set(key, value)] *)
Fixpoint Set_ (h : Header) (key value : string) : Header :=
  match h with
  | [] => [(key, value)]
  | (k, v) :: h' =>
    if String.eqb k key then (key, value) :: h' else (k, v) :: Set_ h' key value
  end.

(** An outbound request with a multipart body. *)
Record Request := mkRequest {
  Method : string;
  URL : string;
  Headers : Header;
  Body : multipart.Writer
}.

(** [http.NewRequest]; the method and the URL are constants of the
    program and are well formed. *)
Definition NewRequest (method url : string) (body : multipart.Writer)
  : result Request :=
  Ok (mkRequest method url [] body).

Definition SetHeader (r : Request) (key value : string) : Request :=
  mkRequest r.(Method) r.(URL) (Set_ r.(Headers) key value) r.(Body).

(** A response as it is received: the status, and what [io.ReadAll] gets
    out of the body (the bytes read, and the error that stopped it). *)
Record Response := mkResponse {
  StatusCode : Z;
  respBody : string;
  respBodyErr : option error
}.

End http.

(** What the program does that can be observed from outside. *)
Inductive event :=
| Sent (req : http.Request)     (* an HTTP request handed to [client.Do] *)
| Printed (text : string).      (* text written to standard output *)

(** The answers of the outside world; each may depend on what has
    happened so far. *)
Record World := mkWorld {
  Getenv : list event -> string -> string;
  os_Open : list event -> string -> result File;
  randomBoundary : list event -> string;
  client_Do : list event -> http.Request -> result http.Response
}.

(** Computations that ask the world and extend the log of events. *)
Definition IO (A : Type) : Type := World -> list event -> A * list event.

Definition ret {A} (a : A) : IO A := fun _ log => (a, log).

Definition bind {A B} (m : IO A) (k : A -> IO B) : IO B :=
  fun w log => let '(a, log') := m w log in k a w log'.

Notation "x <- m ;; k" := (bind m (fun x => k))
  (at level 61, m at next level, right associativity).
Notation "m ;;; k" := (bind m (fun _ => k))
  (at level 61, right associativity).

Definition getenv (key : string) : IO string :=
  fun w log => (w.(Getenv) log key, log).

Definition osOpen (name : string) : IO (result File) :=
  fun w log => (w.(os_Open) log name, log).

Definition newWriter : IO multipart.Writer :=
  fun w log => (multipart.NewWriter (w.(randomBoundary) log), log).

(** [client.Do(req)]: the request is sent, the world answers. *)
Definition clientDo (req : http.Request) : IO (result http.Response) :=
  fun w log => (w.(client_Do) log req, (log ++ [Sent req])%list).

Definition print (text : string) : IO unit :=
  fun _ log => (tt, (log ++ [Printed text])%list).

(** [fmt.Println(a, b)] for a text and an error. *)
Definition Println2 (a : string) (e : error) : IO unit :=
  print (a ++ " " ++ e ++ str1 LF).

(** [fh.Open()] *)
Definition FileHeader_Open (fh : FileHeader) : IO (result File) :=
  match fh.(content) with
  | Some b => ret (Ok (mkFile b None))
  | None => osOpen fh.(tmpfile)
  end.

(* ================================================================== *)
(** ** The relay: [uploadToIPFS] and the handler of [POST /upload] *)

Definition sprintf1 (before : string) (arg : string) : string := before ++ arg.

(** [uploadToIPFS(file, fileHeader)] *)
Definition uploadToIPFS (file : File) (fileHeader : FileHeader)
  : IO (result string) :=
  pinataAPIKey <- getenv "PINATA_API_KEY" ;;
  pinataSecret <- getenv "PINATA_SECRET_API_KEY" ;;
  writer <- newWriter ;;
  match multipart.CreateFormFile writer "file" fileHeader.(Filename) with
  | Err err => ret (Err err)
  | Ok writer =>
    match multipart.Copy writer file with
    | (_, Some err) => ret (Err err)
    | (writer, None) =>
      let writer := multipart.Close writer in
      match http.NewRequest "POST"
              "https://api.pinata.cloud/pinning/pinFileToIPFS" writer with
      | Err err => ret (Err err)
      | Ok req =>
        let req := http.SetHeader req "Content-Type"
                     (multipart.FormDataContentType writer) in
        let req := http.SetHeader req "pinata_api_key" pinataAPIKey in
        let req := http.SetHeader req "pinata_secret_api_key" pinataSecret in
        r <- clientDo req ;;
        match r with
        | Err err => ret (Err err)
        | Ok resp =>
          let body := resp.(http.respBody) in
          if negb (resp.(http.StatusCode) =? 200) then
            ret (Err (sprintf1 "pinata error: " body))
          else
            match unmarshal.Unmarshal body (mkPinataResponse EmptyString) with
            | (_, Some err) => ret (Err err)
            | (pinataRes, None) =>
              ret (Ok (sprintf1 "https://ipfs.io/ipfs/" pinataRes.(IpfsHash)))
            end
        end
      end
    end
  end.

Module fiber.

Definition StatusOK : Z := 200.
Definition StatusBadRequest : Z := 400.
Definition StatusInternalServerError : Z := 500.

(** [fasthttp.ErrMissingFile] *)
Definition ErrMissingFile : error :=
  "there is no uploaded file associated with the given key".

(** A parsed [multipart/form-data] body: its file fields by name. *)
Definition Form := list (string * list FileHeader).

Fixpoint lookup (key : string) (f : Form) : option (list FileHeader) :=
  match f with
  | [] => None
  | (k, fhs) :: f' => if String.eqb k key then Some fhs else lookup key f'
  end.

(** The request side of [fiber.Ctx]: the multipart form of the body, or
    the error that reading it as one gives. *)
Record Ctx := mkCtx { MultipartForm : result Form }.

(** [c.FormFile(key)]: the first file of the field. *)
Definition FormFile (c : Ctx) (key : string) : result FileHeader :=
  match c.(MultipartForm) with
  | Err e => Err e
  | Ok mf =>
    match lookup key mf with
    | Some (fh :: _) => Ok fh
    | _ => Err ErrMissingFile
    end
  end.

(** The response side: what the handler has set when it returns. *)
Record Response := mkResponse {
  Status : Z;
  ContentType : string;
  Body : string
}.

(** [c.Status(status).JSON(data)] *)
Definition JSON (status : Z) (m : json.Map) : Response :=
  mkResponse status "application/json" (json.Marshal m).

End fiber.

(** The handler registered with [app.Post("/upload", ...)]. *)
Definition upload_handler (c : fiber.Ctx) : IO fiber.Response :=
  match fiber.FormFile c "file" with
  | Err _ =>
    ret (fiber.JSON fiber.StatusBadRequest [("error", "File missing")])
  | Ok fileHeader =>
    f <- FileHeader_Open fileHeader ;;
    match f with
    | Err _ =>
      ret (fiber.JSON fiber.StatusInternalServerError
             [("error", "File open failed")])
    | Ok file =>
      r <- uploadToIPFS file fileHeader ;;
      match r with
      | Err err =>
        ret (fiber.JSON fiber.StatusInternalServerError [("error", err)])
      | Ok ipfsURL =>
        ret (fiber.JSON fiber.StatusOK [("ipfs_url", ipfsURL)])
      end
    end
  end.

(* ================================================================== *)
(** ** The interactive uploader: [cliUpload] *)

(** How an iteration of the loop ends. *)
Inductive control := Break | Continue.

(** One iteration of the [for] loop, on the input that is left on standard
    input; it gives how the iteration ended and the input that remains. *)
Definition cliUpload_iteration (stdin : string) : IO (control * string) :=
  print "Enter the path of the image file (or 'exit' to quit): " ;;;
  let '(input, stdin) := bufio.ReadString LF stdin in
  let input := strings.TrimSpace input in
  if String.eqb input "exit" then
    print ("Exiting CLI uploader." ++ str1 LF) ;;;
    ret (Break, stdin)
  else
    f <- osOpen input ;;
    match f with
    | Err err => Println2 "Error opening file:" err ;;; ret (Continue, stdin)
    | Ok file =>
      writer <- newWriter ;;
      match multipart.CreateFormFile writer "file" (filepath.Base input) with
      | Err err =>
        Println2 "Error creating form file:" err ;;; ret (Continue, stdin)
      | Ok writer =>
        match multipart.Copy writer file with
        | (_, Some err) =>
          Println2 "Error copying file:" err ;;; ret (Continue, stdin)
        | (writer, None) =>
          let writer := multipart.Close writer in
          match http.NewRequest "POST" "http://localhost:3000/upload" writer
          with
          | Err err =>
            Println2 "Error creating request:" err ;;; ret (Continue, stdin)
          | Ok req =>
            let req := http.SetHeader req "Content-Type"
                         (multipart.FormDataContentType writer) in
            r <- clientDo req ;;
            match r with
            | Err err =>
              Println2 "Upload failed:" err ;;; ret (Continue, stdin)
            | Ok resp =>
              match resp.(http.respBodyErr) with
              | Some err =>
                Println2 "Error reading response:" err ;;;
                ret (Continue, stdin)
              | None =>
                Println2 "Response from server:" resp.(http.respBody) ;;;
                ret (Continue, stdin)
              end
            end
          end
        end
      end
    end.

(** The loop, run for at most [n] iterations: [Break] when it has ended
    within them, [Continue] when it is still prompting after them. *)
Fixpoint cliUpload (n : nat) (stdin : string) : IO (control * string) :=
  match n with
  | O => ret (Continue, stdin)
  | S n' =>
    r <- cliUpload_iteration stdin ;;
    match r with
    | (Break, stdin') => ret (Break, stdin')
    | (Continue, stdin') => cliUpload n' stdin'
    end
  end.

(* ================================================================== *)
(** ** Fixtures: a stubbed world and sample requests *)

Module Stub.

(** The files of a disk: one image, and nothing else. *)
Definition disk (name : string) : result File :=
  if String.eqb name "/home/me/cat.png" then Ok (mkFile "PNG" None)
  else Err ("open " ++ name ++ ": no such file or directory").

(** A world with that disk, where both credentials read [key] and every
    request is given the answer [r]. *)
Definition world (r : result http.Response) : World :=
  mkWorld (fun _ _ => "key") (fun _ name => disk name) (fun _ => "7d1f0c")
          (fun _ _ => r).

(** A file field received in memory, one that was spooled to a temporary
    file, and requests carrying them. *)
Definition header : FileHeader := mkFileHeader "cat.png" (Some "PNG") "".
Definition spooled : FileHeader := mkFileHeader "cat.png" None "/tmp/mp-1".
Definition request : fiber.Ctx := fiber.mkCtx (Ok [("file", [header])]).
Definition request_spooled : fiber.Ctx :=
  fiber.mkCtx (Ok [("file", [spooled])]).
Definition request_no_file : fiber.Ctx :=
  fiber.mkCtx (Ok [("other", [header])]).

(** Provider bodies. *)
Definition body_Qm123 : string :=
  "{" ++ quoted "IpfsHash" ++ ":" ++ quoted "Qm123" ++ "}".
Definition body_no_hash : string :=
  "{" ++ quoted "PinSize" ++ ":12}".
Definition body_empty_hash : string :=
  "{" ++ quoted "IpfsHash" ++ ":" ++ quoted EmptyString ++ "}".

Definition answer (status : Z) (body : string) : result http.Response :=
  Ok (http.mkResponse status body None).

(** The request the uploader sends for [/home/me/cat.png], and the one
    the relay sends for [header], in a [world]. *)
Definition cli_request : http.Request :=
  http.mkRequest "POST" "http://localhost:3000/upload"
    [("Content-Type", "multipart/form-data; boundary=7d1f0c")]
    (multipart.mkWriter "7d1f0c" [multipart.mkPart "file" "cat.png" "PNG"]
       true).

Definition relay_request : http.Request :=
  http.mkRequest "POST" "https://api.pinata.cloud/pinning/pinFileToIPFS"
    [("Content-Type", "multipart/form-data; boundary=7d1f0c");
     ("pinata_api_key", "key"); ("pinata_secret_api_key", "key")]
    (multipart.mkWriter "7d1f0c" [multipart.mkPart "file" "cat.png" "PNG"]
       true).

End Stub.

(* ================================================================== *)
(** ** Vocabulary of the statements *)

(** The request carries a file field named [file] that opens and reads
    without error. *)
Definition valid_file_field (c : fiber.Ctx) (w : World) (log : list event)
    (fh : FileHeader) (file : File) : Prop :=
  fiber.FormFile c "file" = Ok fh /\
  fst (FileHeader_Open fh w log) = Ok file /\
  file.(readErr) = None.

(** The provider answers the request it is sent at this point with [resp]. *)
Definition provider_responds (w : World) (log : list event)
    (resp : http.Response) : Prop :=
  forall req, w.(client_Do) log req = Ok resp.

(** What [uploadToIPFS] makes of the outcome of [client.Do]. *)
Definition interpret (r : result http.Response) : result string :=
  match r with
  | Err err => Err err
  | Ok resp =>
    if negb (resp.(http.StatusCode) =? 200)
    then Err ("pinata error: " ++ resp.(http.respBody))
    else
      match unmarshal.Unmarshal resp.(http.respBody)
              (mkPinataResponse EmptyString) with
      | (_, Some err) => Err err
      | (p, None) => Ok ("https://ipfs.io/ipfs/" ++ p.(IpfsHash))
      end
  end.

(** What the handler answers to the result of [uploadToIPFS]. *)
Definition respond (r : result string) : fiber.Response :=
  match r with
  | Err err => fiber.JSON fiber.StatusInternalServerError [("error", err)]
  | Ok u => fiber.JSON fiber.StatusOK [("ipfs_url", u)]
  end.

(** The response with the given status whose body is the JSON object with
    the single member [key] holding the text [val], written literally. *)
Definition json_response (status : Z) (key val : string) : fiber.Response :=
  fiber.mkResponse status "application/json"
    ("{" ++ quoted key ++ ":" ++ quoted val ++ "}").

(** The events a computation adds to the log. *)
Definition emitted {A} (m : IO A) (w : World) (log : list event)
  : list event :=
  skipn (List.length log) (snd (m w log)).

(** The requests sent, in order. *)
Fixpoint sent (log : list event) : list http.Request :=
  match log with
  | [] => []
  | Sent req :: l => req :: sent l
  | Printed _ :: l => sent l
  end.

(** The file names of the parts of a request body. *)
Definition filenames (req : http.Request) : list string :=
  map multipart.FileName req.(http.Body).(multipart.parts).

(** The messages of a [SyntaxError]: the end of the input, or a byte that
    cannot stand where it is, quoted, with one of the contexts the scanner
    knows. *)
Definition syntax_contexts : list string :=
  [ "looking for beginning of value";
    "looking for beginning of object key string";
    "after object key";
    "after object key:value pair";
    "after array element";
    "after top-level value";
    "in string literal";
    "in string escape code";
    "in \u hexadecimal character escape";
    "in numeric literal";
    "after decimal point in numeric literal";
    "in exponent of numeric literal";
    "in literal true (expecting 'r')";
    "in literal true (expecting 'u')";
    "in literal true (expecting 'e')";
    "in literal false (expecting 'a')";
    "in literal false (expecting 'l')";
    "in literal false (expecting 's')";
    "in literal false (expecting 'e')";
    "in literal null (expecting 'u')";
    "in literal null (expecting 'l')";
    "exceeded max depth" ].

Inductive syntax_error : error -> Prop :=
| syntax_eof : syntax_error "unexpected end of JSON input"
| syntax_char c context :
    In context syntax_contexts ->
    syntax_error ("invalid character " ++ json.quoteChar c ++ " " ++ context).

(** A decoded object gives no content identifier: every member whose key
    selects the field [IpfsHash] (exactly, or without regard to case) holds
    the empty string. *)
Definition no_identifier (ms : list (string * json.value)) : Prop :=
  forall k v, In (k, v) ms -> unmarshal.isField k = true ->
              v = json.JString EmptyString.

(** The text is ASCII: every byte is below 0x80. *)
Fixpoint isASCII (s : string) : bool :=
  match s with
  | EmptyString => true
  | String c r => (code c <? utf8.RuneSelf) && isASCII r
  end.

(** Valid UTF-8: decoding rune after rune meets no encoding error (the
    test [appendString] makes before it replaces a byte). *)
Fixpoint validFrom (skip : nat) (s : string) : bool :=
  match s with
  | EmptyString => true
  | String _ rest =>
    match skip with
    | S k => validFrom k rest
    | O =>
      let '(r, size) := utf8.DecodeRuneInString s in
      negb ((r =? utf8.RuneError) && Nat.eqb size 1)
      && validFrom (Nat.pred size) rest
    end
  end.

Definition validUTF8 (s : string) : bool := validFrom 0 s.

(** The line the [k]-th iteration (from 0) of the uploader reads. *)
Fixpoint nth_line (k : nat) (stdin : string) : string :=
  match k with
  | O => fst (bufio.ReadString LF stdin)
  | S k' => nth_line k' (snd (bufio.ReadString LF stdin))
  end.

Definition prompt : string :=
  "Enter the path of the image file (or 'exit' to quit): ".

(** Every byte of a text passes a test. *)
Fixpoint every (P : ascii -> bool) (s : string) : bool :=
  match s with
  | EmptyString => true
  | String c r => P c && every P r
  end.

Definition notSlash (c : ascii) : bool := negb (code c =? 47).

(** What the spec calls the base name of a path, written out on its own
    (not through [filepath.Base]): the last element of the path, the
    slashes that end the path set aside; [.] for the empty path, and [/]
    for a path of slashes only. *)
Inductive base_name_of : string -> string -> Prop :=
| base_of_empty : base_name_of EmptyString "."
| base_of_root slashes :
    slashes <> EmptyString ->
    every filepath.IsPathSeparator slashes = true ->
    base_name_of slashes "/"
| base_of_element dir name slashes :
    name <> EmptyString ->
    every notSlash name = true ->
    every filepath.IsPathSeparator slashes = true ->
    dir = EmptyString \/ (exists d, dir = d ++ "/") ->
    base_name_of (dir ++ name ++ slashes) name.

(* ================================================================== *)
(** ** The decoder in step with the scanner: what is kept true *)

Module InStep.
Import json.

(** The scanner inside a string literal, run over the text that follows the
    opening quote. *)
Definition strStep (st : json.state) (c : ascii) : option json.state :=
  match st with
  | json.StInString =>
    if code c =? 34 then None
    else if code c =? 92 then Some json.StInStringEsc
    else if code c <? 0x20 then None
    else Some json.StInString
  | json.StInStringEsc =>
    if mem c ("bfnrt\/" ++ DQ) then Some json.StInString
    else if code c =? 117 then Some json.StInStringEscU
    else None
  | json.StInStringEscU => if json.isHex c then Some json.StInStringEscU1 else None
  | json.StInStringEscU1 => if json.isHex c then Some json.StInStringEscU12 else None
  | json.StInStringEscU12 => if json.isHex c then Some json.StInStringEscU123 else None
  | json.StInStringEscU123 => if json.isHex c then Some json.StInString else None
  | _ => None
  end.

Fixpoint strRun (st : json.state) (body : string) : option json.state :=
  match body with
  | EmptyString => Some st
  | String c rest =>
    match strStep st c with
    | Some st' => strRun st' rest
    | None => None
    end
  end.

Fixpoint contBytes (k : nat) (s : string) : Prop :=
  match k with
  | O => True
  | S k' =>
    match s with
    | String c r => 0x80 <= code c /\ contBytes k' r
    | EmptyString => False
    end
  end.

Definition pendingValue (d : decodeState) : option value :=
  match lit d with
  | Some l => literalValue (rev l)
  | None => cur d
  end.

Definition isKeyTop (ps : list parseKind) : bool :=
  match ps with parseObjectKey :: _ => true | _ => false end.

Definition frameOK (k : parseKind) (f : frame) : Prop :=
  match k, f with
  | parseArrayValue, FArr _ => True
  | parseObjectKey, FObj _ None => True
  | parseObjectValue, FObj _ (Some _) => True
  | _, _ => False
  end.

(** A value is complete: as a literal still to be converted, or as the
    value completed last; in the place of a key it is a string. *)
Definition valueReady (ps : list parseKind) (d : decodeState) : Prop :=
  (lit d <> None -> cur d = None) /\
  exists v, pendingValue d = Some v /\
            (isKeyTop ps = true -> exists k, v = JString k).

Definition stringText (st : state) (t : string) : Prop :=
  exists body, t = String dq body /\ strRun StInString body = Some st.

Definition plainText (t : string) : Prop :=
  exists c r, t = String c r /\ code c <> 34.

Definition inLiteral (d : decodeState) (P : string -> Prop) : Prop :=
  cur d = None /\ exists l, lit d = Some l /\ P (rev l).

Definition idle (d : decodeState) : Prop := lit d = None /\ cur d = None.

Definition phase (s : scanner) (d : decodeState) : Prop :=
  let ps := parseState s in
  match step s with
  | StBeginValue | StBeginValueOrEmpty => idle d /\ isKeyTop ps = false
  | StBeginString => idle d
  | StBeginStringOrEmpty => idle d /\ isKeyTop ps = true
  | StEndValue => valueReady ps d
  | StEndTop => valueReady ps d /\ ps = []
  | StInString | StInStringEsc | StInStringEscU | StInStringEscU1
  | StInStringEscU12 | StInStringEscU123 => inLiteral d (stringText (step s))
  | StError => False
  | _ => isKeyTop ps = false /\ inLiteral d plainText
  end.

Definition notKey (k : parseKind) : Prop := k <> parseObjectKey.

Record Inv (s : scanner) (d : decodeState) : Prop := mkInv {
  inv_sync : sync d = true;
  inv_err : err s = None;
  inv_frames : Forall2 frameOK (parseState s) (stack d);
  inv_inner : Forall notKey (tl (parseState s));
  inv_endTop : endTop s = true -> step s = StEndTop;
  inv_phase : phase s d
}.

Definition pendingOK (p : pending) (src : string) : Prop :=
  match p with
  | Copy k => contBytes k src
  | Drop _ => True
  end.

End InStep.

(* ================================================================== *)
(** ** Vocabulary of the further properties *)

(** The request the relay is expected to send for a file: the file under
    its name in one part of a closed multipart body, the content type of
    that body, and the two credentials of the environment.  The headers
    are those the program sets, under the names it gives to [Header.Set]
    (HTTP takes them without regard to case). *)
Definition provider_request (w : World) (log : list event)
    (fh : FileHeader) (file : File) : http.Request :=
  let body :=
    multipart.mkWriter (w.(randomBoundary) log)
      [multipart.mkPart "file" fh.(Filename) file.(data)] true in
  http.mkRequest "POST" "https://api.pinata.cloud/pinning/pinFileToIPFS"
    [("Content-Type", multipart.FormDataContentType body);
     ("pinata_api_key", w.(Getenv) log "PINATA_API_KEY");
     ("pinata_secret_api_key", w.(Getenv) log "PINATA_SECRET_API_KEY")]
    body.

(** The request the uploader is expected to send for a path. *)
Definition uploader_request (w : World) (log : list event)
    (path : string) (file : File) : http.Request :=
  let body :=
    multipart.mkWriter (w.(randomBoundary) log)
      [multipart.mkPart "file" (filepath.Base path) file.(data)] true in
  http.mkRequest "POST" "http://localhost:3000/upload"
    [("Content-Type", multipart.FormDataContentType body)]
    body.

(** The world [w] with every request answered by [r]. *)
Definition with_answer (w : World) (r : result http.Response) : World :=
  mkWorld w.(Getenv) w.(os_Open) w.(randomBoundary) (fun _ _ => r).

(** A value the decoder can store in the field [IpfsHash] without an
    error: a string, or [null]. *)
Definition storable (x : json.value) : bool :=
  match x with
  | json.JString _ | json.JNull => true
  | _ => false
  end.

(** No member that selects the field holds a value of another kind. *)
Definition well_typed (ms : list (string * json.value)) : Prop :=
  forall k x, In (k, x) ms -> unmarshal.isField k = true -> storable x = true.

(** The text the first [n] iterations of the uploader read. *)
Fixpoint lines_read (n : nat) (stdin : string) : string :=
  match n with
  | O => EmptyString
  | S n' =>
    fst (bufio.ReadString LF stdin)
      ++ lines_read n' (snd (bufio.ReadString LF stdin))
  end.

(** Blank: a space, a tab, a vertical tab, a form feed or a carriage
    return.  Visible: a printing ASCII character other than the space. *)
Definition blank (c : ascii) : bool :=
  let b := code c in
  (b =? 32) || (b =? 9) || (b =? 11) || (b =? 12) || (b =? 13).

Definition visible (c : ascii) : bool :=
  (0x21 <=? code c) && (code c <=? 0x7E).

Definition notLF (c : ascii) : bool := negb (code c =? 10).

(** A text on one line that begins and ends with a visible character. *)
Definition framed (p : string) : bool :=
  every notLF p &&
  match p, rev p with
  | String a _, String z _ => visible a && visible z
  | _, _ => false
  end.

(** Further fixtures: a world whose files open but cannot be read to the
    end. *)
Module Faulty.

Definition read_error : error := "read /tmp/mp-1: input/output error".

Definition unreadable (r : result http.Response) : World :=
  mkWorld (fun _ _ => "key")
          (fun _ _ => Ok (mkFile "PN" (Some read_error)))
          (fun _ => "7d1f0c")
          (fun _ _ => r).

End Faulty.


(** The iterations the uploader runs when it is given [n] at most: up to
    and including the one that reads the sentinel. *)
Fixpoint rounds (n : nat) (stdin : string) : nat :=
  match n with
  | O => O
  | S n' =>
    let '(line, rest) := bufio.ReadString LF stdin in
    if String.eqb (strings.TrimSpace line) "exit" then 1%nat
    else S (rounds n' rest)
  end.

(** A request as the uploader addresses the relay: a [POST] to the local
    endpoint, with the content type as its only header and a closed body
    of one part named [file]. *)
Definition to_relay (req : http.Request) : Prop :=
  req.(http.Method) = "POST" /\
  req.(http.URL) = "http://localhost:3000/upload" /\
  map fst req.(http.Headers) = ["Content-Type"] /\
  req.(http.Body).(multipart.closed) = true /\
  map multipart.FieldName req.(http.Body).(multipart.parts) = ["file"].

(** A file name as [filepath.Base] gives it: not empty, and without a
    slash unless it is the root. *)
Definition base_name (f : string) : Prop :=
  f <> EmptyString /\ (f = "/" \/ every notSlash f = true).

(* ================================================================== *)
(** * Properties *)

(** ** Texts *)

Lemma append_assoc (a b c : string) : (a ++ b) ++ c = a ++ (b ++ c).
Proof. induction a as [|x a IH]; cbn; [reflexivity | now rewrite IH]. Qed.

Lemma prefix_refl s : String.prefix s s = true.
Proof.
  induction s as [|c s IH]; cbn; [reflexivity|].
  destruct (ascii_dec c c); [exact IH | congruence].
Qed.

Lemma contains_self s : contains s s = true.
Proof. destruct s; cbn [contains]; rewrite prefix_refl; reflexivity. Qed.

Lemma contains_app a b : contains b (a ++ b) = true.
Proof.
  induction a as [|c a IH]; cbn [append].
  - apply contains_self.
  - cbn [contains]. rewrite IH. apply orb_true_r.
Qed.

(** The encoding of a map with one entry. *)
Lemma Marshal_single k v :
  json.Marshal [(k, v)]
  = "{" ++ json.appendString k ++ ":" ++ json.appendString v ++ "}".
Proof.
  change (json.Marshal [(k, v)])
    with ("{" ++ (json.appendString k ++ ":" ++ json.appendString v) ++ "}").
  now rewrite !append_assoc.
Qed.

(** ** The scanner reports syntax errors only *)

Ltac known_context :=
  unfold syntax_contexts; cbn [In];
  repeat (first [left; reflexivity | right]).

Ltac syntax_message :=
  let H := fresh in
  intro H; inversion H; constructor; known_context.

Section ScannerErrors.

Variable s : json.scanner.
Hypothesis Hs : forall e, json.err s = Some e -> syntax_error e.

Lemma scan_error_msg c ctx e :
  In ctx syntax_contexts ->
  json.err (fst (json.scan_error s c ctx)) = Some e -> syntax_error e.
Proof. cbn. intros Hc H. inversion H. constructor. exact Hc. Qed.

Lemma stateEndTop_err c e :
  json.err (fst (json.stateEndTop s c)) = Some e -> syntax_error e.
Proof.
  unfold json.stateEndTop.
  destruct (negb (json.isSpace c)); cbn; [syntax_message | auto].
Qed.

End ScannerErrors.

Lemma stateEndValue_err s c e :
  (forall e, json.err s = Some e -> syntax_error e) ->
  json.err (fst (json.stateEndValue s c)) = Some e -> syntax_error e.
Proof.
  intros Hs. unfold json.stateEndValue.
  destruct (json.parseState s) as [|ps st] eqn:Eps.
  - apply stateEndTop_err. exact Hs.
  - unfold json.popParseState, json.setStep, json.replaceTop.
    rewrite Eps. cbn [tl].
    destruct (json.isSpace c); [cbn; auto|].
    destruct ps; repeat match goal with
      | |- context [if ?b then _ else _] => destruct b
      end; cbn; auto; try syntax_message;
      destruct st; cbn; auto.
Qed.

Lemma scan_step_err s c e :
  (forall e, json.err s = Some e -> syntax_error e) ->
  json.err (fst (json.scan_step s c)) = Some e -> syntax_error e.
Proof.
  intros Hs. unfold json.scan_step.
  destruct (json.step s);
    unfold json.stateBeginValueOrEmpty, json.stateBeginStringOrEmpty,
      json.stateBeginString, json.stateBeginValue, json.stateInString,
      json.stateInStringEsc, json.stateHex, json.stateNeg, json.state1,
      json.state0, json.stateDot, json.stateDot0, json.stateE, json.stateESign,
      json.stateE0, json.stateLit, json.pushParseState;
    repeat match goal with
      | |- context [if ?b then _ else _] => destruct b
      end;
    try (apply stateEndValue_err; cbn; auto);
    try (apply stateEndTop_err; auto);
    try (apply scan_error_msg; known_context);
    cbn; auto.
Qed.

Lemma eof_err s e :
  (forall e, json.err s = Some e -> syntax_error e) ->
  json.err (fst (json.eof s)) = Some e -> syntax_error e.
Proof.
  intros Hs. unfold json.eof.
  destruct (json.err s) eqn:E; [cbn; rewrite E; auto|].
  destruct (json.endTop s); [cbn; rewrite E; discriminate|].
  pose proof (scan_step_err s " "%char) as Hstep.
  destruct (fst (json.scan_step s " ")) as [st et ps er].
  cbn [json.endTop json.err json.step json.parseState] in Hstep |- *.
  assert (Hnone : forall e0, json.err s = Some e0 -> syntax_error e0)
    by (intros e0 Q; rewrite E in Q; discriminate).
  destruct et; [cbn; intro H; exact (Hstep e Hnone H)|].
  destruct er; cbn; intro H.
  - exact (Hstep e Hnone H).
  - inversion H. constructor.
Qed.

Lemma checkValid_from_err data : forall s e,
  (forall e, json.err s = Some e -> syntax_error e) ->
  json.checkValid_from s data = Some e -> syntax_error e.
Proof.
  induction data as [|c rest IH]; intros s e Hs; cbn [json.checkValid_from].
  - pose proof (eof_err s e Hs) as H.
    destruct (json.eof s) as [s' op]. cbn in H.
    destruct op; try discriminate. exact H.
  - pose proof (fun e => scan_step_err s c e Hs) as H.
    destruct (json.scan_step s c) as [s' op]. cbn in H.
    destruct op; try (apply IH; exact H). apply H.
Qed.

Lemma checkValid_syntax_error data e :
  json.checkValid data = Some e -> syntax_error e.
Proof. apply checkValid_from_err. cbn. discriminate. Qed.

Lemma syntax_error_not_upstream e B :
  syntax_error e -> e <> "pinata error: " ++ B.
Proof. intros [|c ctx _]; cbn; discriminate. Qed.

(** ** The decoder stays in step with the scanner *)

Section DecoderInStep.
Import json InStep.

(** *** Reversal of texts *)

Lemma append_nil_r s : s ++ EmptyString = s.
Proof. induction s as [|c s IH]; cbn; [reflexivity | now rewrite IH]. Qed.

Lemma rev_append_spec s : forall acc, rev_append s acc = rev s ++ acc.
Proof.
  unfold rev. induction s as [|c s IH]; intro acc; cbn [rev_append].
  - reflexivity.
  - rewrite (IH (String c acc)), (IH (String c EmptyString)), append_assoc.
    reflexivity.
Qed.

Lemma rev_cons c s : rev (String c s) = rev s ++ str1 c.
Proof. unfold rev at 1. cbn [rev_append]. apply rev_append_spec. Qed.

Lemma rev_app a b : rev (a ++ b) = rev b ++ rev a.
Proof.
  induction a as [|c a IH]; cbn [append].
  - now rewrite append_nil_r.
  - now rewrite !rev_cons, IH, append_assoc.
Qed.

Lemma rev_involutive s : rev (rev s) = s.
Proof.
  induction s as [|c s IH]; [reflexivity|].
  rewrite rev_cons, rev_app, IH. reflexivity.
Qed.

(** *** The text of a string literal *)

Lemma strRun_app st a c :
  strRun st (a ++ str1 c)
  = match strRun st a with Some st' => strStep st' c | None => None end.
Proof.
  revert st. induction a as [|x a IH]; intro st; cbn.
  - destruct (strStep st c); reflexivity.
  - destruct (strStep st x); [apply IH | reflexivity].
Qed.

Lemma unquoteFrom_drop s : forall k,
  json.unquoteFrom k s = json.unquoteFrom 0 (json.drop k s).
Proof.
  induction s as [|c s IH]; intros [|k]; try reflexivity.
  cbn [json.drop]. rewrite <- IH. reflexivity.
Qed.

Lemma isHex_hexval c : json.isHex c = true -> 0 <= json.hexval c.
Proof.
  unfold json.isHex, json.hexval.
  destruct ((48 <=? code c) && (code c <=? 57)) eqn:E1; [lia|].
  destruct ((97 <=? code c) && (code c <=? 102)) eqn:E2; [lia|].
  destruct ((65 <=? code c) && (code c <=? 70)) eqn:E3; [lia|].
  cbn. discriminate.
Qed.

Lemma hexval_isHex c : 0 <= json.hexval c -> json.isHex c = true.
Proof.
  unfold json.isHex, json.hexval.
  destruct ((48 <=? code c) && (code c <=? 57)) eqn:E1; [reflexivity|].
  destruct ((97 <=? code c) && (code c <=? 102)) eqn:E2; [reflexivity|].
  destruct ((65 <=? code c) && (code c <=? 70)) eqn:E3; [reflexivity|].
  lia.
Qed.

(** *** Continuation bytes *)

Lemma outside_false lo hi b : utf8.outside lo hi b = false -> lo <= b <= hi.
Proof. unfold utf8.outside. intro H. apply orb_false_elim in H. lia. Qed.

Lemma first_values b :
  In (utf8.first b) [0xF0; 0xF1; 0x02; 0x13; 0x03; 0x23; 0x34; 0x04; 0x44].
Proof.
  unfold utf8.first.
  repeat match goal with
  | |- context [if ?x then _ else _] => destruct x
  end; cbn; tauto.
Qed.

Lemma decode_cont c rest r size :
  utf8.DecodeRuneInString (String c rest) = (r, size) ->
  contBytes (Nat.pred size) rest.
Proof.
  unfold utf8.DecodeRuneInString. cbv zeta.
  pose proof (first_values (code c)) as Hx.
  set (x := utf8.first (code c)) in *. clearbody x.
  cbn [In] in Hx.
  destruct Hx as [<-|[<-|[<-|[<-|[<-|[<-|[<-|[<-|[<-|[]]]]]]]]]];
    cbn [Z.leb Z.compare Pos.compare Pos.compare_cont Z.eqb Pos.eqb
         Z.land Pos.land Z.shiftr Z.shiftl utf8.acceptRanges Z.opp
         Z.pos_sub Pos.pred_double Z.succ_double Z.pred_double Z.double
         Z.of_N Pos.Nsucc_double Pos.Ndouble Z.div2 Pos.div2 Pos.iter];
    try (intro H; inversion H; exact I).
  all: destruct (_ <? _); try (intro H; inversion H; exact I).
  all: destruct rest as [|c1 r1]; try (intro H; inversion H; exact I).
  all: destruct (utf8.outside _ _ (code c1)) eqn:E1;
       try (intro H; inversion H; exact I);
       apply outside_false in E1.
  all: cbn [Z.leb Z.compare Pos.compare Pos.compare_cont];
       try (intro H; inversion H; cbn; lia).
  all: destruct r1 as [|c2 r2]; try (intro H; inversion H; exact I).
  all: destruct (utf8.outside _ _ (code c2)) eqn:E2;
       try (intro H; inversion H; exact I);
       apply outside_false in E2; unfold utf8.locb in E2.
  all: try (intro H; inversion H; cbn; lia).
  all: destruct r2 as [|c3 r3]; try (intro H; inversion H; exact I).
  all: destruct (utf8.outside _ _ (code c3)) eqn:E3;
       try (intro H; inversion H; exact I);
       apply outside_false in E3; unfold utf8.locb in E3.
  all: try (intro H; inversion H; cbn; lia).
Qed.

Lemma strStep_cont c :
  0x80 <= code c -> strStep json.StInString c = Some json.StInString.
Proof.
  intro H. unfold strStep.
  destruct (code c =? 34) eqn:E1; [lia|].
  destruct (code c =? 92) eqn:E2; [lia|].
  destruct (code c <? 32) eqn:E3; [lia|]. reflexivity.
Qed.

Lemma strRun_cont k : forall s,
  contBytes k s ->
  strRun json.StInString s = strRun json.StInString (json.drop k s).
Proof.
  induction k as [|k IH]; intros s H.
  - destruct s; reflexivity.
  - destruct s as [|c s]; [destruct H|]. destruct H as [Hc Hs].
    cbn [strRun json.drop]. rewrite (strStep_cont c Hc). apply IH. exact Hs.
Qed.

Lemma drop_length k : forall s,
  (String.length (json.drop k s) <= String.length s)%nat.
Proof.
  induction k as [|k IH]; intros [|c s]; cbn; try lia.
  specialize (IH s). lia.
Qed.

Lemma emit_some out k :
  (exists t, k = Some t) -> exists t, json.emit out k = Some t.
Proof. intros [t ->]. cbn. eauto. Qed.

Lemma code_eq c n :
  code c = n -> c = chr n.
Proof.
  intros <-. unfold chr, code.
  rewrite Z.mod_small.
  - rewrite N2Z.id, ascii_N_embedding. reflexivity.
  - pose proof (N_ascii_bounded c). lia.
Qed.

Lemma mem_escape e :
  mem e ("bfnrt\/" ++ DQ) = true ->
  In (code e) [98; 102; 110; 114; 116; 92; 47; 34].
Proof.
  cbn [mem append DQ str1].
  repeat match goal with
  | |- context [Ascii.eqb e ?x] =>
      destruct (Ascii.eqb_spec e x) as [->|_]; [intros _; cbn; tauto|]
  end.
  cbn. discriminate.
Qed.

Lemma unquoteFrom_ok : forall n body,
  (String.length body <= n)%nat ->
  strRun json.StInString body = Some json.StInString ->
  exists t, json.unquoteFrom 0 body = Some t.
Proof.
  induction n as [|n IH]; intros body Hlen Hrun.
  { destruct body; [cbn; eauto | cbn in Hlen; lia]. }
  destruct body as [|c rest]; [cbn; eauto|].
  cbn [String.length] in Hlen.
  cbn [strRun] in Hrun. unfold strStep in Hrun.
  destruct (code c =? 34) eqn:E34; [discriminate|].
  cbn [json.unquoteFrom]. cbv zeta.
  destruct (code c =? 92) eqn:E92.
  - (* an escape *)
    destruct rest as [|e rest']; [discriminate|].
    cbn [strRun] in Hrun. unfold strStep in Hrun.
    destruct (mem e ("bfnrt\/" ++ DQ)) eqn:Em.
    + apply mem_escape in Em. cbn [In] in Em.
      assert (Hk : exists t, json.unquoteFrom 1 (String e rest') = Some t).
      { cbn [json.unquoteFrom]. apply IH; [cbn in Hlen; lia | exact Hrun]. }
      destruct Em as [<-|[<-|[<-|[<-|[<-|[<-|[<-|[<-|[]]]]]]]]];
        cbn [Z.eqb Pos.eqb orb]; apply emit_some; exact Hk.
    + destruct (code e =? 117) eqn:Eu; [|discriminate].
      apply Z.eqb_eq in Eu.
      destruct rest' as [|h1 [|h2 [|h3 [|h4 rest'']]]]; cbn [strRun] in Hrun;
        unfold strStep in Hrun;
        repeat match type of Hrun with
        | context [json.isHex ?h] =>
            let E := fresh "Eh" in
            destruct (json.isHex h) eqn:E; [|discriminate]
        end; try discriminate.
      assert (Hg : 0 <= json.getu4 (String c (String e (String h1 (String h2
                           (String h3 (String h4 rest''))))))).
      { unfold json.getu4. rewrite E92, Eu. cbn [Z.eqb Pos.eqb negb orb].
        pose proof (isHex_hexval _ Eh) as P1.
        pose proof (isHex_hexval _ Eh0) as P2.
        pose proof (isHex_hexval _ Eh1) as P3.
        pose proof (isHex_hexval _ Eh2) as P4.
        destruct (json.hexval h1 <? 0) eqn:Q1; [lia|].
        destruct (json.hexval h2 <? 0) eqn:Q2; [lia|].
        destruct (json.hexval h3 <? 0) eqn:Q3; [lia|].
        destruct (json.hexval h4 <? 0) eqn:Q4; [lia|].
        cbn [orb]. lia. }
      rewrite Eu. cbn [Z.eqb Pos.eqb orb].
      destruct (json.getu4 _ <? 0) eqn:Eg; [lia|].
      assert (H5 : exists t,
                 json.unquoteFrom 5 (String e (String h1 (String h2
                   (String h3 (String h4 rest''))))) = Some t).
      { cbn [json.unquoteFrom]. apply IH; [cbn in Hlen; lia | exact Hrun]. }
      destruct (json.IsSurrogate _); [|apply emit_some; exact H5].
      cbn [json.drop].
      destruct (negb (_ =? utf8.RuneError)) eqn:Edec;
        [|apply emit_some; exact H5].
      apply emit_some.
      (* the second escape of a surrogate pair *)
      unfold json.utf16_DecodeRune in Edec.
      destruct (_ && _) eqn:Epair in Edec;
        [|rewrite Z.eqb_refl in Edec; discriminate].
      apply andb_prop in Epair. destruct Epair as [Epair Ehi].
      apply andb_prop in Epair. destruct Epair as [_ Elo].
      assert (Hg2 : 0 <= json.getu4 rest'') by lia.
      unfold json.getu4 in Hg2.
      destruct rest'' as [|g0 [|g1 [|g2 [|g3 [|g4 [|g5 rest3]]]]]];
        try lia.
      destruct (negb (code g0 =? 92) || negb (code g1 =? 117)) eqn:Eg01;
        [lia|].
      apply orb_false_elim in Eg01. destruct Eg01 as [Eg0 Eg1].
      apply negb_false_iff in Eg0. apply negb_false_iff in Eg1.
      destruct (_ || _) eqn:Ehex in Hg2; [lia|].
      repeat (apply orb_false_elim in Ehex; destruct Ehex as [Ehex ?]).
      cbn [json.unquoteFrom]. apply IH; [cbn in Hlen; lia|].
      revert Hrun. cbn [strRun]. unfold strStep at 1.
      apply Z.eqb_eq in Eg0. rewrite Eg0. cbn [Z.eqb Pos.eqb Z.ltb Z.compare].
      unfold strStep at 1.
      replace (mem g1 ("bfnrt\/" ++ DQ)) with false.
      2: { apply Z.eqb_eq in Eg1. apply code_eq in Eg1. subst g1. reflexivity. }
      rewrite Eg1. unfold strStep.
      rewrite !hexval_isHex by lia. auto.
  - destruct (code c <? 0x20) eqn:E20; [discriminate|].
    rewrite E34. cbn [orb].
    destruct (code c <? utf8.RuneSelf) eqn:Eself.
    + apply emit_some. apply IH; [lia | exact Hrun].
    + pose proof (decode_cont c rest) as Hcont.
      destruct (utf8.DecodeRuneInString (String c rest)) as [rr size].
      specialize (Hcont rr size eq_refl).
      apply emit_some. rewrite unquoteFrom_drop.
      apply IH.
      * pose proof (drop_length (Nat.pred size) rest). lia.
      * rewrite <- (strRun_cont _ _ Hcont). exact Hrun.
Qed.

(** *** Each step keeps the decoder in step *)

Lemma plain_value t : plainText t -> exists v, literalValue t = Some v.
Proof.
  intros (c & r & -> & Hc). unfold literalValue.
  apply Z.eqb_neq in Hc. rewrite Hc.
  repeat match goal with
  | |- context [if ?b then _ else _] => destruct b
  end; eauto.
Qed.

(** A string literal is converted by [unquote] of the text between its
    quotes. *)
Lemma literal_unquote body :
  literalValue (String dq (body ++ str1 dq))
  = option_map JString (unquoteFrom 0 body).
Proof.
  unfold literalValue.
  change (code dq =? 34) with true. cbv iota.
  unfold unquote. rewrite rev_app. cbn [rev rev_append str1 append].
  change (code dq =? 34) with true. cbn [andb].
  change (rev_append (rev body) EmptyString) with (rev (rev body)).
  now rewrite rev_involutive.
Qed.

Lemma string_value body :
  strRun StInString body = Some StInString ->
  exists t, literalValue (String dq (body ++ str1 dq)) = Some (JString t).
Proof.
  intro H. rewrite literal_unquote.
  destruct (unquoteFrom_ok _ body (Nat.le_refl _) H) as [t ->].
  cbn. eauto.
Qed.

Lemma endLiteral_ready ps d :
  sync d = true -> valueReady ps d ->
  exists v, endLiteral d = mkDecode (stack d) None (Some v) true /\
            (isKeyTop ps = true -> exists k, v = JString k).
Proof.
  destruct d as [stk l cu sy]. unfold valueReady, pendingValue, endLiteral.
  cbn. intros -> (Hc & v & Hv & Hk). exists v. split; [|exact Hk].
  destruct l as [l|].
  - rewrite Hv. reflexivity.
  - rewrite Hv. reflexivity.
Qed.

Lemma endLiteral_idle d : lit d = None -> endLiteral d = d.
Proof. unfold endLiteral. intros ->. reflexivity. Qed.

Lemma valueReady_done ps stk v :
  (isKeyTop ps = true -> exists k, v = JString k) ->
  valueReady ps (mkDecode stk None (Some v) true).
Proof.
  intro H. split; [intro Q; contradiction Q; reflexivity|].
  exists v. split; [reflexivity | exact H].
Qed.

Lemma isSpace_not c n :
  code c = n -> isSpace (chr n) = false -> isSpace c = false.
Proof. intros H E. apply code_eq in H. subst c. exact E. Qed.

Lemma notKey_top k ps : Forall notKey (k :: ps) -> isKeyTop (k :: ps) = false.
Proof. intro H. inversion H as [|? ? Hk _]. destruct k; auto. now elim Hk. Qed.

Lemma isKeyTop_inner ps : Forall notKey ps -> isKeyTop ps = false.
Proof. destruct ps as [|k ps]; [reflexivity | apply notKey_top]. Qed.

Lemma inner_tl ps : Forall notKey ps -> Forall notKey (tl ps).
Proof. destruct ps; cbn; [auto|]. intro H. now inversion H. Qed.

Ltac inv_intro :=
  constructor; cbn [sync err parseState stack tl endTop step];
  [ auto | auto | try (constructor; cbn [frameOK]; auto); auto | auto
  | try discriminate; auto | unfold phase; cbn [step parseState] ].

(** The state after [popParseState], with the completed container as the
    value in hand. *)
Lemma pop_inv st et k ps er stk v :
  er = None -> et = false ->
  Forall2 frameOK ps stk ->
  Forall notKey ps ->
  Inv (popParseState (mkScanner st et (k :: ps) er))
      (mkDecode stk None (Some v) true).
Proof.
  intros -> -> Hf Hin. unfold popParseState. cbn [parseState tl err endTop].
  pose proof (isKeyTop_inner ps Hin) as Hk.
  destruct ps as [|k' ps'].
  - inv_intro.
    split; [|reflexivity]. apply valueReady_done. discriminate.
  - inv_intro.
    + now inversion Hin.
    + apply valueReady_done. rewrite Hk. discriminate.
Qed.

Lemma endValue_inv st et ps er d c :
  sync d = true -> er = None -> et = false ->
  Forall2 frameOK ps (stack d) ->
  Forall notKey (tl ps) ->
  valueReady ps d ->
  let s' := fst (stateEndValue (mkScanner st et ps er) c) in
  let op := snd (stateEndValue (mkScanner st et ps er) c) in
  err s' = None -> Inv s' (decode_op op c d).
Proof.
  intros Hsync -> -> Hf Hin Hready.
  destruct (endLiteral_ready ps d Hsync Hready) as (v & Hend & Hkey).
  unfold stateEndValue. cbn [parseState err].
  destruct ps as [|k ps].
  - (* the top-level value has ended *)
    unfold stateEndTop.
    destruct (negb (isSpace c)); cbn [fst snd]; [cbn; discriminate|].
    intros _. cbn [decode_op]. rewrite Hend. inversion Hf; subst.
    inv_intro. split; [|reflexivity].
    apply valueReady_done. discriminate.
  - destruct (stack d) as [|f stk] eqn:Hstk; [inversion Hf|].
    apply Forall2_cons_iff in Hf. destruct Hf as [Hk Hfs]. cbn [tl] in Hin.
    destruct (isSpace c).
    { cbn [fst snd setStep decode_op]. intros _. rewrite Hend.
      inv_intro. apply valueReady_done. exact Hkey. }
    destruct k.
    + (* after an object key *)
      destruct (code c =? 58); [|cbn; discriminate].
      cbn [fst snd setStep replaceTop parseState tl step endTop err].
      intros _. cbn [decode_op]. rewrite Hend. cbn [cur stack].
      destruct (Hkey eq_refl) as [key ->].
      destruct f as [|ms [key0|]]; try contradiction.
      inv_intro. repeat split; reflexivity.
    + (* after an object value *)
      destruct (code c =? 44).
      * cbn [fst snd setStep replaceTop parseState tl step endTop err].
        intros _. cbn [decode_op]. rewrite Hend. unfold store.
        cbn [cur stack].
        destruct f as [|ms [key0|]]; try contradiction.
        inv_intro. split; reflexivity.
      * destruct (code c =? 125); [|cbn; discriminate].
        cbn [fst snd]. intros _. cbn [decode_op]. rewrite Hend.
        unfold storeIfAny, store. cbn [cur stack].
        destruct f as [|ms [key0|]]; try contradiction.
        cbn [stack sync]. apply pop_inv; auto.
    + (* after an array element *)
      destruct (code c =? 44).
      * cbn [fst snd setStep parseState tl step endTop err].
        intros _. cbn [decode_op]. rewrite Hend. unfold store.
        cbn [cur stack].
        destruct f as [items|]; try contradiction.
        inv_intro. repeat split; reflexivity.
      * destruct (code c =? 93); [|cbn; discriminate].
        cbn [fst snd]. intros _. cbn [decode_op]. rewrite Hend.
        unfold storeIfAny, store. cbn [cur stack].
        destruct f as [items|]; try contradiction.
        cbn [stack sync]. apply pop_inv; auto.
Qed.

Lemma notKey_all ps :
  isKeyTop ps = false -> Forall notKey (tl ps) -> Forall notKey ps.
Proof.
  destruct ps as [|k ps]; cbn; intros Hk Hin; constructor; auto.
  destruct k; [discriminate | discriminate | discriminate].
Qed.

Lemma plain_first c : code c <> 34 -> plainText (rev (str1 c)).
Proof. intro H. exists c, EmptyString. split; [reflexivity | exact H]. Qed.

Lemma plain_more c l : plainText (rev l) -> plainText (rev (String c l)).
Proof.
  intros (c0 & r & E & H). rewrite rev_cons, E. cbn.
  exists c0, (r ++ str1 c). auto.
Qed.

Ltac begin_plain E34 :=
  cbn [fst snd setStep err decode_op]; intros _; inv_intro;
  split; [assumption|]; split; [assumption|];
  eexists; split; [reflexivity|]; apply plain_first;
  apply Z.eqb_neq; exact E34.

Lemma beginValue_inv st et ps er d c :
  sync d = true -> er = None -> et = false ->
  Forall2 frameOK ps (stack d) ->
  Forall notKey (tl ps) ->
  idle d -> isKeyTop ps = false ->
  st = StBeginValue \/ st = StBeginValueOrEmpty ->
  let s' := fst (stateBeginValue (mkScanner st et ps er) c) in
  let op := snd (stateBeginValue (mkScanner st et ps er) c) in
  err s' = None -> Inv s' (decode_op op c d).
Proof.
  intros Hsync -> -> Hf Hin [Hl Hc] Hk Hst.
  pose proof (notKey_all ps Hk Hin) as Hall.
  unfold stateBeginValue. cbv zeta.
  destruct (isSpace c).
  { cbn [fst snd decode_op]. intros _. rewrite (endLiteral_idle d Hl).
    inv_intro. destruct Hst as [-> | ->]; cbn; repeat split; auto. }
  destruct (code c =? 123).
  { unfold pushParseState. cbn [setStep parseState step endTop err].
    destruct (_ <=? _); [|cbn; discriminate].
    cbn [fst snd decode_op]. intros _.
    inv_intro. repeat split; reflexivity. }
  destruct (code c =? 91).
  { unfold pushParseState. cbn [setStep parseState step endTop err].
    destruct (_ <=? _); [|cbn; discriminate].
    cbn [fst snd decode_op]. intros _.
    inv_intro. repeat split; reflexivity. }
  destruct (code c =? 34) eqn:E34.
  { cbn [fst snd setStep err decode_op]. intros _. inv_intro.
    split; [assumption|]. eexists. split; [reflexivity|].
    apply Z.eqb_eq, code_eq in E34. subst c.
    exists EmptyString. split; reflexivity. }
  repeat match goal with
  | |- context [if ?b then _ else _] => destruct b; [begin_plain E34|]
  end.
  cbn. discriminate.
Qed.

Lemma beginString_inv st et ps er d c :
  sync d = true -> er = None -> et = false ->
  Forall2 frameOK ps (stack d) ->
  Forall notKey (tl ps) ->
  idle d ->
  st = StBeginString \/ (st = StBeginStringOrEmpty /\ isKeyTop ps = true) ->
  let s' := fst (stateBeginString (mkScanner st et ps er) c) in
  let op := snd (stateBeginString (mkScanner st et ps er) c) in
  err s' = None -> Inv s' (decode_op op c d).
Proof.
  intros Hsync -> -> Hf Hin [Hl Hc] Hst.
  unfold stateBeginString.
  destruct (isSpace c).
  { cbn [fst snd decode_op]. intros _. rewrite (endLiteral_idle d Hl).
    inv_intro. destruct Hst as [-> | [-> Hk]]; cbn; repeat split; auto. }
  destruct (code c =? 34) eqn:E34; [|cbn; discriminate].
  cbn [fst snd setStep err decode_op]. intros _. inv_intro.
  split; [assumption|]. eexists. split; [reflexivity|].
  apply Z.eqb_eq, code_eq in E34. subst c.
  exists EmptyString. split; reflexivity.
Qed.

Lemma string_more st st' c d :
  inLiteral d (stringText st) -> strStep st c = Some st' ->
  inLiteral (decode_op scanContinue c d) (stringText st').
Proof.
  intros (Hc & l & Hl & body & Hrev & Hrun) Hstep.
  unfold decode_op. rewrite Hl. split; [exact Hc|].
  eexists. split; [reflexivity|].
  exists (body ++ str1 c). split.
  - rewrite rev_cons, Hrev. reflexivity.
  - rewrite strRun_app, Hrun. exact Hstep.
Qed.

Lemma string_closed ps c d :
  inLiteral d (stringText StInString) -> code c = 34 ->
  valueReady ps (decode_op scanContinue c d).
Proof.
  intros (Hc & l & Hl & body & Hrev & Hrun) Hq.
  unfold decode_op. rewrite Hl. split; [intros _; exact Hc|].
  unfold pendingValue. cbn [json.lit].
  apply code_eq in Hq. subst c.
  rewrite rev_cons, Hrev. cbn [append].
  destruct (string_value body Hrun) as [t Ht].
  exists (JString t). split; [exact Ht|]. eauto.
Qed.

Lemma plain_more_lit c d :
  inLiteral d plainText -> inLiteral (decode_op scanContinue c d) plainText.
Proof.
  intros (Hc & l & Hl & Hp). unfold decode_op. rewrite Hl.
  split; [exact Hc|]. eexists. split; [reflexivity|].
  apply plain_more. exact Hp.
Qed.

Lemma plain_ready ps d :
  inLiteral d plainText -> isKeyTop ps = false -> valueReady ps d.
Proof.
  intros (Hc & l & Hl & Hp) Hk. split; [intros _; exact Hc|].
  unfold pendingValue. rewrite Hl.
  destruct (plain_value _ Hp) as [v Hv]. exists v. split; [exact Hv|].
  rewrite Hk. discriminate.
Qed.

Lemma decode_continue_sync c d :
  lit d <> None -> sync d = true -> sync (decode_op scanContinue c d) = true.
Proof. unfold decode_op. destruct (lit d); [auto | contradiction]. Qed.

Lemma decode_continue_stack c d :
  lit d <> None -> stack (decode_op scanContinue c d) = stack d.
Proof. unfold decode_op. destruct (lit d); [auto | contradiction]. Qed.

Lemma inLiteral_lit d P : inLiteral d P -> lit d <> None.
Proof. intros (_ & l & -> & _). discriminate. Qed.

(** A step that continues a literal. *)
Lemma continue_inv et ps er d c st' :
  sync d = true -> er = None -> et = false ->
  Forall2 frameOK ps (stack d) ->
  Forall notKey (tl ps) ->
  lit d <> None ->
  phase (mkScanner st' et ps er) (decode_op scanContinue c d) ->
  Inv (mkScanner st' et ps er) (decode_op scanContinue c d).
Proof.
  intros Hsync -> -> Hf Hin Hl Hph.
  constructor; cbn [sync err parseState stack tl endTop step]; auto.
  - apply decode_continue_sync; auto.
  - rewrite decode_continue_stack; auto.
  - discriminate.
Qed.

Ltac bool_rewrite :=
  repeat match goal with
  | H : ?b = true |- context [?b] => rewrite H
  | H : ?b = false |- context [?b] => rewrite H
  end.

Ltac string_case Hph :=
  cbn [fst snd setStep];
  first
    [ cbn; discriminate
    | intros _; apply continue_inv; auto;
      [ eapply inLiteral_lit; exact Hph
      | unfold phase; cbn [step parseState]; eapply string_more;
        [ exact Hph | unfold strStep; bool_rewrite; reflexivity ] ] ].

Ltac plain_case Hph :=
  cbn [fst snd setStep];
  first
    [ cbn; discriminate
    | intros _; apply continue_inv; auto;
      [ eapply inLiteral_lit; apply Hph
      | unfold phase; cbn [step parseState];
        first [ split; [apply Hph | apply plain_more_lit; apply Hph]
              | apply plain_ready; [apply plain_more_lit; apply Hph | apply Hph] ] ]
    | apply endValue_inv; auto; apply plain_ready; apply Hph ].

Ltac split_ifs :=
  repeat match goal with
  | |- context [if ?b then _ else _] =>
      let E := fresh "E" in destruct b eqn:E
  end.

Lemma step_inv s d c :
  Inv s d ->
  err (fst (scan_step s c)) = None ->
  Inv (fst (scan_step s c)) (decode_op (snd (scan_step s c)) c d).
Proof.
  destruct s as [st et ps er].
  intros [Hsync Herr Hf Hin Het Hph].
  cbn [sync err parseState stack tl endTop step] in *. subst er.
  unfold phase in Hph. cbn [step parseState] in Hph.
  destruct st; unfold scan_step; cbn [step];
    try (assert (Hfalse : et = false)
           by (destruct et; [discriminate (Het eq_refl) | reflexivity]);
         subst et).
  - (* StBeginValueOrEmpty *)
    destruct Hph as [Hidle Hk]. unfold stateBeginValueOrEmpty.
    destruct (isSpace c) eqn:Esp.
    { cbn [fst snd decode_op]. intros _.
      rewrite (endLiteral_idle d (proj1 Hidle)).
      inv_intro. split; assumption. }
    destruct (code c =? 93) eqn:E93; [|apply beginValue_inv; auto].
    unfold stateEndValue. cbn [parseState].
    destruct ps as [|k ps].
    { unfold stateEndTop. rewrite Esp. cbn. discriminate. }
    rewrite Esp.
    apply Z.eqb_eq, code_eq in E93. subst c.
    destruct k; try (cbn; discriminate).
    cbn [fst snd]. change (code (chr 93) =? 44) with false.
    change (code (chr 93) =? 93) with true. cbv iota. cbn [fst snd].
    intros _. cbn [decode_op].
    rewrite (endLiteral_idle d (proj1 Hidle)).
    unfold storeIfAny. rewrite (proj2 Hidle).
    destruct (stack d) as [|f stk] eqn:Hstk; [inversion Hf|].
    apply Forall2_cons_iff in Hf. destruct Hf as [Hfk Hfs].
    destruct f as [items|]; try contradiction.
    cbn [stack sync]. rewrite Hsync. apply pop_inv; auto.
  - (* StBeginValue *)
    destruct Hph as [Hidle Hk]. apply beginValue_inv; auto.
  - (* StBeginStringOrEmpty *)
    destruct Hph as [Hidle Hk]. unfold stateBeginStringOrEmpty.
    destruct (isSpace c) eqn:Esp.
    { cbn [fst snd decode_op]. intros _.
      rewrite (endLiteral_idle d (proj1 Hidle)).
      inv_intro. split; assumption. }
    destruct (code c =? 125) eqn:E125; [|apply beginString_inv; auto].
    destruct ps as [|k ps]; [discriminate|].
    destruct k; try discriminate.
    unfold stateEndValue, replaceTop. cbn [parseState tl].
    rewrite Esp.
    apply Z.eqb_eq, code_eq in E125. subst c.
    change (code (chr 125) =? 44) with false.
    change (code (chr 125) =? 125) with true. cbv iota. cbn [fst snd].
    intros _. cbn [decode_op].
    rewrite (endLiteral_idle d (proj1 Hidle)).
    unfold storeIfAny. rewrite (proj2 Hidle).
    destruct (stack d) as [|f stk] eqn:Hstk; [inversion Hf|].
    apply Forall2_cons_iff in Hf. destruct Hf as [Hfk Hfs].
    destruct f as [|ms [key|]]; try contradiction.
    cbn [stack sync]. rewrite Hsync.
    exact (pop_inv StBeginStringOrEmpty false parseObjectValue ps None
             stk (JObject (List.rev ms)) eq_refl eq_refl Hfs Hin).
  - (* StBeginString *)
    apply beginString_inv; auto.
  - (* StEndValue *)
    apply endValue_inv; auto.
  - (* StEndTop *)
    destruct Hph as [Hready ->]. unfold stateEndTop.
    destruct (negb (isSpace c)); cbn [fst snd]; [cbn; discriminate|].
    intros _. cbn [decode_op].
    destruct (endLiteral_ready [] d Hsync Hready) as (v & Hend & _).
    rewrite Hend. inversion Hf; subst.
    inv_intro. split; [|reflexivity]. apply valueReady_done. discriminate.
  - (* StInString *)
    unfold stateInString.
    destruct (code c =? 34) eqn:E34.
    { cbn [fst snd setStep]. intros _. apply continue_inv; auto.
      - eapply inLiteral_lit; exact Hph.
      - unfold phase; cbn [step parseState]. apply string_closed; auto.
        apply Z.eqb_eq. exact E34. }
    split_ifs; string_case Hph.
  - unfold stateInStringEsc. split_ifs; string_case Hph.
  - unfold stateHex. split_ifs; string_case Hph.
  - unfold stateHex. split_ifs; string_case Hph.
  - unfold stateHex. split_ifs; string_case Hph.
  - unfold stateHex. split_ifs; string_case Hph.
  - unfold stateNeg. split_ifs; plain_case Hph.
  - unfold state1, state0. split_ifs; plain_case Hph.
  - unfold state0. split_ifs; plain_case Hph.
  - unfold stateDot. split_ifs; plain_case Hph.
  - unfold stateDot0. split_ifs; plain_case Hph.
  - unfold stateE, stateESign. split_ifs; plain_case Hph.
  - unfold stateESign. split_ifs; plain_case Hph.
  - unfold stateE0. split_ifs; plain_case Hph.
  - unfold stateLit. split_ifs; plain_case Hph.
  - unfold stateLit. split_ifs; plain_case Hph.
  - unfold stateLit. split_ifs; plain_case Hph.
  - unfold stateLit. split_ifs; plain_case Hph.
  - unfold stateLit. split_ifs; plain_case Hph.
  - unfold stateLit. split_ifs; plain_case Hph.
  - unfold stateLit. split_ifs; plain_case Hph.
  - unfold stateLit. split_ifs; plain_case Hph.
  - unfold stateLit. split_ifs; plain_case Hph.
  - unfold stateLit. split_ifs; plain_case Hph.
  - contradiction.
Qed.

(** *** Every input the scanner accepts has a value *)

Ltac unfold_states :=
  unfold scan_step, stateBeginValueOrEmpty, stateBeginStringOrEmpty,
    stateBeginString, stateBeginValue, stateInString, stateInStringEsc,
    stateHex, stateNeg, state1, state0, stateDot, stateDot0, stateE,
    stateESign, stateE0, stateLit, stateEndValue, stateEndTop,
    pushParseState, popParseState, replaceTop, setStep, scan_error.

(** A step either goes on without error, or records an error and enters
    the error state. *)
Lemma step_outcome s c :
  step s <> StError ->
  (err (fst (scan_step s c)) = err s /\ snd (scan_step s c) <> scanError) \/
  (exists e, err (fst (scan_step s c)) = Some e /\
             step (fst (scan_step s c)) = StError).
Proof.
  destruct s as [st et ps er]. cbn [step]. intro Hst.
  destruct st; try contradiction; unfold_states; cbn [step parseState];
    repeat match goal with
    | |- context [match ?x with _ => _ end] => destruct x
    end;
    cbn [fst snd err step parseState tl];
    first [ left; split; [reflexivity | discriminate] | right; eauto ].
Qed.

Lemma error_sticks e : forall data s,
  err s = Some e -> step s = StError -> checkValid_from s data = Some e.
Proof.
  intros [|c rest] s He Hs; cbn [checkValid_from].
  - unfold eof. rewrite He. exact He.
  - unfold scan_step. rewrite Hs. exact He.
Qed.

(** A space that ends the top-level value is reported as such. *)
Lemma space_outcome s :
  endTop s = false ->
  endTop (fst (scan_step s " ")) = true ->
  err (fst (scan_step s " ")) = err s /\
  (snd (scan_step s " ") = scanEnd \/ snd (scan_step s " ") = scanSkipSpace).
Proof.
  destruct s as [st et ps er]. cbn [endTop]. intros ->.
  destruct st; unfold_states; cbn [step parseState];
    change (isSpace " ") with true; cbv iota; cbn [negb];
    repeat match goal with
    | |- context [match ?x with _ => _ end] => destruct x
    end;
    cbn [fst snd err step parseState tl endTop];
    try discriminate; auto.
Qed.

Lemma endLiteral_idem d : endLiteral (endLiteral d) = endLiteral d.
Proof.
  unfold endLiteral. destruct (lit d) as [l|] eqn:E.
  - destruct (literalValue (rev l)) eqn:V; cbn; [reflexivity|].
    rewrite E, V. reflexivity.
  - rewrite E. reflexivity.
Qed.

Lemma decode_from_value data : forall s d,
  Inv s d -> checkValid_from s data = None ->
  exists v,
    decode_from s d data = mkDecode [] None (Some v) true.
Proof.
  induction data as [|c rest IH]; intros s d HI Hvalid.
  - cbn [decode_from]. cbn [checkValid_from] in Hvalid.
    assert (Hend : exists s1 d1,
               Inv s1 d1 /\ step s1 = StEndTop /\ endLiteral d = endLiteral d1).
    { unfold eof in Hvalid. rewrite (inv_err _ _ HI) in Hvalid.
      destruct (endTop s) eqn:Et.
      - exists s, d. split; [exact HI|]. split; [|reflexivity].
        apply (inv_endTop _ _ HI). exact Et.
      - destruct (endTop (fst (scan_step s " "))) eqn:Et1.
        + destruct (space_outcome s Et Et1) as [He Hop].
          rewrite (inv_err _ _ HI) in He.
          pose proof (step_inv s d " "%char HI He) as HI1.
          exists (fst (scan_step s " ")), (decode_op (snd (scan_step s " ")) " " d).
          split; [exact HI1|]. split; [apply (inv_endTop _ _ HI1); exact Et1|].
          destruct Hop as [-> | ->]; cbn [decode_op];
            now rewrite endLiteral_idem.
        + destruct (err (fst (scan_step s " "))) eqn:E1;
            cbn in Hvalid; congruence. }
    destruct Hend as (s1 & d1 & HI1 & Hs1 & ->).
    pose proof (inv_phase _ _ HI1) as Hph. unfold phase in Hph.
    rewrite Hs1 in Hph. destruct Hph as [Hready Hps].
    destruct (endLiteral_ready _ d1 (inv_sync _ _ HI1) Hready) as (v & Hv & _).
    exists v. rewrite Hv.
    pose proof (inv_frames _ _ HI1) as Hf. rewrite Hps in Hf.
    inversion Hf. reflexivity.
  - cbn [decode_from]. cbn [checkValid_from] in Hvalid.
    assert (Hst : step s <> StError).
    { intro E. pose proof (inv_phase _ _ HI) as Hph. unfold phase in Hph.
      rewrite E in Hph. exact Hph. }
    pose proof (step_inv s d c HI) as Hstep.
    destruct (step_outcome s c Hst) as [[He Hop] | (e & He & Hse)].
    + rewrite (inv_err _ _ HI) in He. specialize (Hstep He).
      destruct (scan_step s c) as [s' op]. cbn [fst snd] in *.
      apply IH; [exact Hstep|].
      destruct op; try exact Hvalid. contradiction.
    + destruct (scan_step s c) as [s' op]. cbn [fst snd] in *.
      rewrite (error_sticks e rest s' He Hse) in Hvalid.
      destruct op; congruence.
Qed.

Lemma Inv_reset : Inv reset (mkDecode [] None None true).
Proof.
  constructor; cbn; auto; try discriminate. repeat split; reflexivity.
Qed.

(** Every input the scanner accepts has a value: the decoder, reading
    it, stays in step with the scanner. *)
Theorem checkValid_parse data :
  checkValid data = None -> exists v, parse data = Some v.
Proof.
  intro H.
  destruct (decode_from_value data reset _ Inv_reset H) as [v Hv].
  exists v. unfold parse. rewrite Hv. reflexivity.
Qed.

(** So [Unmarshal] either reports the syntax error of the scanner, or
    stores the value of the input. *)
Corollary Unmarshal_outcome data v :
  (exists e, checkValid data = Some e /\
             unmarshal.Unmarshal data v = (v, Some e)) \/
  (exists x, checkValid data = None /\ parse data = Some x /\
             unmarshal.Unmarshal data v = unmarshal.store x v).
Proof.
  unfold unmarshal.Unmarshal.
  destruct (checkValid data) as [e|] eqn:E.
  - left. eauto.
  - right. destruct (checkValid_parse data E) as [x Hx].
    exists x. rewrite Hx. auto.
Qed.

(** *** What [Marshal] writes is read back as an object *)

Lemma strRun_append st a b :
  strRun st (a ++ b)
  = match strRun st a with Some st' => strRun st' b | None => None end.
Proof.
  revert st. induction a as [|x a IH]; intro st; cbn; [reflexivity|].
  destruct (strStep st x); [apply IH | reflexivity].
Qed.

Lemma lowerhex_isHex n : 0 <= n < 16 -> isHex (lowerhex n) = true.
Proof.
  intro H.
  assert (E : In n [0;1;2;3;4;5;6;7;8;9;10;11;12;13;14;15]) by (cbn; lia).
  cbn [In] in E.
  repeat (destruct E as [<-|E]; [reflexivity|]). destruct E.
Qed.

Lemma safe_run c :
  htmlSafeSet (code c) = true -> strStep StInString c = Some StInString.
Proof.
  unfold htmlSafeSet, strStep. intro H.
  apply andb_prop in H. destruct H as [H Hn].
  apply andb_prop in H. destruct H as [Hlo Hhi].
  apply negb_true_iff in Hn.
  repeat (apply orb_false_elim in Hn; destruct Hn as [Hn ?]).
  destruct (code c =? 34); [discriminate|].
  destruct (code c =? 92); [discriminate|].
  destruct (code c <? 32) eqn:E; [lia|]. reflexivity.
Qed.

Lemma escapeASCII_run c :
  code c < 0x80 ->
  strRun StInString (escapeASCII c) = Some StInString.
Proof.
  intro Hc. unfold escapeASCII. cbv zeta.
  destruct ((code c =? 92) || (code c =? 34)) eqn:E.
  { apply orb_prop in E.
    destruct E as [E|E]; apply Z.eqb_eq, code_eq in E; subst c; reflexivity. }
  repeat match goal with
  | |- context [if ?b then _ else _] => destruct b; [reflexivity|]
  end.
  pose proof (N_ascii_bounded c) as Hb.
  assert (H0 : 0 <= code c) by (unfold code; lia).
  rewrite strRun_append.
  change (strRun StInString "\u00") with (Some StInStringEscU12).
  cbv iota. cbn [strRun str1]. unfold strStep.
  rewrite !lowerhex_isHex; [reflexivity | |].
  - change 15 with (Z.ones 4). rewrite Z.land_ones by lia.
    pose proof (Z.mod_pos_bound (code c) (2 ^ 4)). lia.
  - rewrite Z.shiftr_div_pow2 by lia.
    change (2 ^ 4) with 16. split.
    + apply Z.div_pos; lia.
    + apply Z.div_lt_upper_bound; lia.
Qed.

Lemma escape_run : forall src p,
  pendingOK p src -> strRun StInString (escapeFrom p src) = Some StInString.
Proof.
  induction src as [|c rest IH]; intros p Hp; [reflexivity|].
  assert (Hfresh :
    strRun StInString (escapeFrom (Copy 0) (String c rest)) = Some StInString).
  { cbn [escapeFrom]. cbv zeta.
    destruct (code c <? utf8.RuneSelf) eqn:Eself.
    - destruct (htmlSafeSet (code c)) eqn:Esafe.
      + cbn [strRun]. rewrite (safe_run c Esafe). apply IH. exact I.
      + rewrite strRun_append, escapeASCII_run.
        * apply IH. exact I.
        * unfold utf8.RuneSelf in Eself. lia.
    - pose proof (decode_cont c rest) as Hcont.
      destruct (utf8.DecodeRuneInString (String c rest)) as [r size].
      specialize (Hcont r size eq_refl).
      destruct ((r =? utf8.RuneError) && Nat.eqb size 1).
      { rewrite !strRun_append. cbn. apply IH. exact I. }
      destruct ((r =? 8232) || (r =? 8233)) eqn:Esep.
      { rewrite !strRun_append.
        change (strRun StInString "\u202") with (Some StInStringEscU123).
        cbv iota. cbn [strRun str1 append]. unfold strStep at 1.
        assert (Hhex : isHex (lowerhex (Z.land r 15)) = true).
        { apply orb_prop in Esep.
          destruct Esep as [E|E]; apply Z.eqb_eq in E; subst r; reflexivity. }
        rewrite Hhex. apply IH. exact I. }
      cbn [strRun]. rewrite strStep_cont.
      + apply IH. exact Hcont.
      + unfold utf8.RuneSelf in Eself. lia. }
  destruct p as [[|k]|[|k]]; try exact Hfresh.
  - cbn [escapeFrom]. destruct Hp as [Hc Hrest].
    cbn [strRun]. rewrite (strStep_cont c Hc). apply IH. exact Hrest.
  - cbn [escapeFrom]. apply IH. exact I.
Qed.

(** Inside a string literal the scanner goes as [strStep] says. *)
Lemma string_scan_step s c st' :
  strStep (step s) c = Some st' ->
  scan_step s c = (setStep s st', scanContinue).
Proof.
  destruct s as [st et ps er]. cbn [step].
  destruct st; cbn [strStep]; try discriminate;
    unfold scan_step, stateInString, stateInStringEsc, stateHex;
    cbn [step];
    repeat match goal with
    | |- context [if ?b then _ else _] => destruct b
    end; intro H; inversion H; reflexivity.
Qed.

Lemma scan_string_body body : forall s d l rest st',
  strRun (step s) body = Some st' ->
  lit d = Some l ->
  checkValid_from s (body ++ rest) = checkValid_from (setStep s st') rest /\
  decode_from s d (body ++ rest)
  = decode_from (setStep s st')
      (mkDecode (stack d) (Some (rev body ++ l)) (cur d) (sync d)) rest.
Proof.
  induction body as [|c body IH]; intros s d l rest st' Hrun Hl.
  - cbn in Hrun. inversion Hrun. subst st'.
    destruct s, d. cbn in *. subst. auto.
  - cbn [strRun] in Hrun.
    destruct (strStep (step s) c) as [st1|] eqn:E1; [|discriminate].
    cbn [append checkValid_from decode_from].
    rewrite (string_scan_step s c st1 E1).
    specialize (IH (setStep s st1)
                  (decode_op scanContinue c d) (String c l) rest st' Hrun).
    unfold decode_op in IH |- *. rewrite Hl in IH |- *.
    specialize (IH eq_refl). cbn [stack cur sync] in IH.
    rewrite rev_cons, append_assoc. exact IH.
Qed.

Lemma Marshal_shape k v :
  Marshal [(k, v)]
  = "{" ++ DQ ++ escapeFrom (Copy 0) k ++ DQ ++ ":" ++ DQ
      ++ escapeFrom (Copy 0) v ++ DQ ++ "}".
Proof.
  rewrite Marshal_single. unfold appendString.
  rewrite !append_assoc. reflexivity.
Qed.

(** The end of a one-member object whose value is a string literal. *)
Lemma close_object k l v :
  literalValue (rev (String dq l)) = Some v ->
  decode_from (mkScanner StInString false [parseObjectValue] None)
    (mkDecode [FObj [] (Some k)] (Some l) None true) (DQ ++ "}")
  = mkDecode [] None (Some (JObject [(k, v)])) true.
Proof.
  intro H. cbv -[literalValue rev] in H |- *. rewrite H. reflexivity.
Qed.

Lemma marshal_reads_from k v s0 d0 :
  s0 = mkScanner StInString false [parseObjectValue] None ->
  d0 = mkDecode [FObj [] (Some k)] (Some DQ) None true ->
  (forall tail,
     checkValid_from reset
       ("{" ++ DQ ++ escapeFrom (Copy 0) k ++ DQ ++ ":" ++ DQ ++ tail)
     = checkValid_from s0 tail) ->
  (forall tail,
     decode_from reset (mkDecode [] None None true)
       ("{" ++ DQ ++ escapeFrom (Copy 0) k ++ DQ ++ ":" ++ DQ ++ tail)
     = decode_from s0 d0 tail) ->
  checkValid (Marshal [(k, v)]) = None /\
  exists t,
    unquoteFrom 0 (escapeFrom (Copy 0) v) = Some t /\
    parse (Marshal [(k, v)]) = Some (JObject [(k, JString t)]).
Proof.
  intros Hs0 Hd0 Hpc Hpd.
  pose proof (escape_run v (Copy 0) I) as Hrun.
  set (esc := escapeFrom (Copy 0) v) in *.
  destruct (unquoteFrom_ok _ esc (Nat.le_refl _) Hrun) as [t Hu].
  assert (Ht : literalValue (rev (String dq (rev esc ++ DQ)))
               = Some (JString t)).
  { assert (Hrev : rev (String dq (rev esc ++ DQ))
                   = String dq (esc ++ str1 dq))
      by (rewrite rev_cons, rev_app, rev_involutive; reflexivity).
    rewrite Hrev, literal_unquote, Hu. reflexivity. }
  assert (Hlit : lit d0 = Some DQ) by (subst d0; reflexivity).
  assert (Hrun0 : strRun (step s0) esc = Some StInString)
    by (subst s0; exact Hrun).
  destruct (scan_string_body esc s0 d0 DQ (DQ ++ "}") StInString Hrun0 Hlit)
    as [Hc Hd].
  rewrite Marshal_shape. fold esc. split.
  - unfold checkValid. rewrite Hpc, Hc. subst s0. reflexivity.
  - exists t. split; [exact Hu|]. unfold parse. rewrite Hpd, Hd. subst s0 d0.
    unfold setStep. cbn [stack cur sync step endTop parseState err].
    rewrite (close_object k _ _ Ht). reflexivity.
Qed.

(** The body [Marshal] writes for a map with the one key [error] or
    [ipfs_url] is valid JSON, and is read back as an object with that
    member alone, holding the string that [unquote] makes of the escaped
    value. *)
Lemma marshal_reads k v :
  k = "error" \/ k = "ipfs_url" ->
  checkValid (Marshal [(k, v)]) = None /\
  exists t,
    unquoteFrom 0 (escapeFrom (Copy 0) v) = Some t /\
    parse (Marshal [(k, v)]) = Some (JObject [(k, JString t)]).
Proof.
  intros [-> | ->]; eapply marshal_reads_from; reflexivity.
Qed.

(** *** An ASCII text is read back as it was written *)

Lemma isASCII_app a b : isASCII (a ++ b) = isASCII a && isASCII b.
Proof.
  induction a as [|c a IH]; cbn [append isASCII]; [reflexivity|].
  rewrite IH. apply andb_assoc.
Qed.

Lemma hexval_lowerhex n : 0 <= n < 16 -> hexval (lowerhex n) = n.
Proof.
  intro H.
  assert (E : In n [0;1;2;3;4;5;6;7;8;9;10;11;12;13;14;15]) by (cbn; lia).
  cbn [In] in E.
  repeat (destruct E as [<-|E]; [reflexivity|]). destruct E.
Qed.

Lemma chr_code c : chr (code c) = c.
Proof. symmetry. apply code_eq. reflexivity. Qed.

Lemma nibbles b :
  0 <= b < 128 ->
  0 <= Z.shiftr b 4 < 16 /\ 0 <= Z.land b 15 < 16 /\
  Z.shiftr b 4 * 16 + Z.land b 15 = b.
Proof.
  intro H. rewrite Z.shiftr_div_pow2 by lia.
  change 15 with (Z.ones 4). rewrite Z.land_ones by lia.
  change (2 ^ 4) with 16.
  pose proof (Z.div_mod b 16). pose proof (Z.mod_pos_bound b 16).
  assert (0 <= b / 16) by (apply Z.div_pos; lia).
  assert (b / 16 < 16) by (apply Z.div_lt_upper_bound; lia).
  lia.
Qed.

Lemma code_range c : 0 <= code c < 256.
Proof. pose proof (N_ascii_bounded c). unfold code. lia. Qed.

(** What [unquote] makes of the escape [Marshal] writes for an ASCII byte. *)
Lemma unquote_escapeASCII c tail :
  code c < 0x80 -> htmlSafeSet (code c) = false ->
  unquoteFrom 0 (escapeASCII c ++ tail)
  = emit (str1 c) (unquoteFrom 0 tail).
Proof.
  intros Hc Hsafe. unfold escapeASCII. cbv zeta.
  destruct ((code c =? 92) || (code c =? 34)) eqn:E.
  { apply orb_prop in E.
    destruct E as [E|E]; apply Z.eqb_eq, code_eq in E; subst c; reflexivity. }
  repeat match goal with
  | |- context [if code c =? ?n then _ else _] =>
      let E := fresh "E" in
      destruct (code c =? n) eqn:E;
      [apply Z.eqb_eq, code_eq in E; subst c; reflexivity|]
  end.
  pose proof (code_range c) as Hr.
  destruct (nibbles (code c) ltac:(lia)) as (Hhi & Hlo & Hsum).
  set (hi := Z.shiftr (code c) 4) in *. set (lo := Z.land (code c) 15) in *.
  cbn [append unquoteFrom str1]. cbv zeta.
  change (code "\" =? 92) with true. cbv iota.
  change (code "u") with 117. cbn [Z.eqb Pos.eqb orb].
  assert (Hg : getu4 (String "\" (String "u" (String "0" (String "0"
                 (String (lowerhex hi) (String (lowerhex lo) tail))))))
               = code c).
  { unfold getu4. change (code "\" =? 92) with true.
    change (code "u" =? 117) with true. cbn [negb orb].
    change (hexval "0") with 0. rewrite !hexval_lowerhex by lia.
    cbn [Z.ltb Z.compare orb].
    destruct (hi <? 0) eqn:Q1; [lia|]. destruct (lo <? 0) eqn:Q2; [lia|].
    cbn [orb]. lia. }
  rewrite Hg.
  destruct (code c <? 0) eqn:Q; [lia|].
  assert (Hs : IsSurrogate (code c) = false).
  { unfold IsSurrogate. destruct (55296 <=? code c) eqn:Q3; [lia|]. reflexivity. }
  rewrite Hs.
  assert (He : utf8.EncodeRune (code c) = str1 c).
  { unfold utf8.EncodeRune. destruct (0 <=? code c) eqn:Q4; [|lia].
    destruct (code c <=? 127) eqn:Q5; [|lia]. cbn [andb].
    now rewrite chr_code. }
  rewrite He. reflexivity.
Qed.

Lemma unquote_escape_ascii v :
  isASCII v = true ->
  unquoteFrom 0 (escapeFrom (Copy 0) v) = Some v.
Proof.
  induction v as [|c rest IH]; [reflexivity|].
  cbn [isASCII]. intro H. apply andb_prop in H. destruct H as [Hc Hrest].
  specialize (IH Hrest).
  cbn [escapeFrom]. cbv zeta. rewrite Hc.
  unfold utf8.RuneSelf in Hc.
  destruct (htmlSafeSet (code c)) eqn:Esafe.
  - pose proof (safe_run c Esafe) as Hrun. unfold strStep in Hrun.
    cbn [unquoteFrom]. cbv zeta.
    destruct (code c =? 34); [discriminate|].
    destruct (code c =? 92); [discriminate|].
    destruct (code c <? 32); [discriminate|].
    cbn [orb]. unfold utf8.RuneSelf. rewrite Hc. rewrite IH. reflexivity.
  - rewrite unquote_escapeASCII; [|lia|exact Esafe].
    rewrite IH. reflexivity.
Qed.

(** For an ASCII value the member read back holds the value itself. *)
Lemma marshal_reads_ascii k v :
  k = "error" \/ k = "ipfs_url" ->
  isASCII v = true ->
  parse (Marshal [(k, v)]) = Some (JObject [(k, JString v)]).
Proof.
  intros Hk Hv.
  destruct (marshal_reads k v Hk) as (_ & t & Hu & Hp).
  rewrite (unquote_escape_ascii v Hv) in Hu. inversion Hu. subst t.
  exact Hp.
Qed.

End DecoderInStep.

(* ================================================================== *)
(** ** Valid UTF-8 is read back as it was written *)

(** The bit operations of the codec, as arithmetic. *)
Lemma land_low x lo n :
  0 <= n -> 0 <= lo < 2 ^ n -> x mod 2 ^ n = 0 -> Z.land x lo = 0.
Proof.
  intros Hn Hlo Hx. apply Z.bits_inj'. intros i Hi.
  rewrite Z.land_spec, Z.bits_0.
  destruct (Z.lt_ge_cases i n) as [Hlt|Hge].
  - rewrite <- (Z.mod_pow2_bits_low x n i) by lia. rewrite Hx, Z.bits_0.
    reflexivity.
  - assert (Z.testbit lo i = false); [|now rewrite H, andb_false_r].
    destruct (Z.eq_dec lo 0) as [->|Hne]; [apply Z.bits_0|].
    apply Z.bits_above_log2; [lia|].
    apply Z.log2_lt_pow2; [lia|].
    assert (2 ^ n <= 2 ^ i) by (apply Z.pow_le_mono_r; lia). lia.
Qed.

Lemma lor_low x lo n :
  0 <= n -> 0 <= lo < 2 ^ n -> x mod 2 ^ n = 0 -> Z.lor x lo = x + lo.
Proof.
  intros Hn Hlo Hx. pose proof (Z.add_lor_land x lo) as H.
  rewrite (land_low x lo n Hn Hlo Hx) in H. lia.
Qed.

Ltac arith := Z.div_mod_to_equations; lia.

Lemma enc2 s0 s1 :
  0xC2 <= s0 <= 0xDF -> 0x80 <= s1 <= 0xBF ->
  let r := Z.lor (Z.shiftl (Z.land s0 0x1F) 6) (Z.land s1 0x3F) in
  0x80 <= r <= 0x7FF /\
  Z.lor 0xC0 (Z.shiftr r 6) = s0 /\ Z.lor 0x80 (Z.land r 0x3F) = s1.
Proof.
  intros H0 H1. cbv zeta.
  change 0x1F with (Z.ones 5). change 0x3F with (Z.ones 6).
  rewrite !Z.land_ones, Z.shiftl_mul_pow2, !Z.shiftr_div_pow2 by lia.
  change (2 ^ 5) with 32. change (2 ^ 6) with 64.
  rewrite (lor_low (s0 mod 32 * 64) (s1 mod 64) 6) by (change (2^6) with 64; arith).
  rewrite (lor_low 0xC0 _ 5) by (change (2^5) with 32; arith).
  rewrite (lor_low 0x80 _ 6) by (change (2^6) with 64; arith).
  arith.
Qed.

Lemma enc3 s0 s1 s2 :
  0xE0 <= s0 <= 0xEF ->
  (if s0 =? 0xE0 then 0xA0 else 0x80) <= s1 <= (if s0 =? 0xED then 0x9F else 0xBF) ->
  0x80 <= s2 <= 0xBF ->
  let r := Z.lor (Z.lor (Z.shiftl (Z.land s0 0x0F) 12)
                        (Z.shiftl (Z.land s1 0x3F) 6))
                 (Z.land s2 0x3F) in
  0x800 <= r <= 0xFFFF /\ ~ (0xD800 <= r <= 0xDFFF) /\
  Z.lor 0xE0 (Z.shiftr r 12) = s0 /\
  Z.lor 0x80 (Z.land (Z.shiftr r 6) 0x3F) = s1 /\
  Z.lor 0x80 (Z.land r 0x3F) = s2.
Proof.
  intros H0 H1 H2. cbv zeta.
  change 0x0F with (Z.ones 4). change 0x3F with (Z.ones 6).
  rewrite !Z.land_ones, !Z.shiftl_mul_pow2, !Z.shiftr_div_pow2 by lia.
  change (2 ^ 4) with 16. change (2 ^ 6) with 64. change (2 ^ 12) with 4096.
  rewrite (lor_low (s0 mod 16 * 4096) (s1 mod 64 * 64) 12)
    by (change (2^12) with 4096; arith).
  rewrite (lor_low (s0 mod 16 * 4096 + s1 mod 64 * 64) (s2 mod 64) 6)
    by (change (2^6) with 64; arith).
  rewrite (lor_low 0xE0 _ 4) by (change (2^4) with 16; arith).
  rewrite !(lor_low 0x80 _ 6) by (change (2^6) with 64; arith).
  destruct (Z.eqb_spec s0 0xE0), (Z.eqb_spec s0 0xED); arith.
Qed.

Lemma enc4 s0 s1 s2 s3 :
  0xF0 <= s0 <= 0xF4 ->
  (if s0 =? 0xF0 then 0x90 else 0x80) <= s1 <= (if s0 =? 0xF4 then 0x8F else 0xBF) ->
  0x80 <= s2 <= 0xBF -> 0x80 <= s3 <= 0xBF ->
  let r := Z.lor (Z.lor (Z.lor (Z.shiftl (Z.land s0 0x07) 18)
                               (Z.shiftl (Z.land s1 0x3F) 12))
                        (Z.shiftl (Z.land s2 0x3F) 6))
                 (Z.land s3 0x3F) in
  0x10000 <= r <= 0x10FFFF /\
  Z.lor 0xF0 (Z.shiftr r 18) = s0 /\
  Z.lor 0x80 (Z.land (Z.shiftr r 12) 0x3F) = s1 /\
  Z.lor 0x80 (Z.land (Z.shiftr r 6) 0x3F) = s2 /\
  Z.lor 0x80 (Z.land r 0x3F) = s3.
Proof.
  intros H0 H1 H2 H3. cbv zeta.
  change 0x07 with (Z.ones 3). change 0x3F with (Z.ones 6).
  rewrite !Z.land_ones, !Z.shiftl_mul_pow2, !Z.shiftr_div_pow2 by lia.
  change (2 ^ 3) with 8. change (2 ^ 6) with 64. change (2 ^ 12) with 4096.
  change (2 ^ 18) with 262144.
  rewrite (lor_low (s0 mod 8 * 262144) (s1 mod 64 * 4096) 18)
    by (change (2^18) with 262144; arith).
  rewrite (lor_low (s0 mod 8 * 262144 + s1 mod 64 * 4096) (s2 mod 64 * 64) 12)
    by (change (2^12) with 4096; arith).
  rewrite (lor_low (s0 mod 8 * 262144 + s1 mod 64 * 4096 + s2 mod 64 * 64)
            (s3 mod 64) 6)
    by (change (2^6) with 64; arith).
  rewrite (lor_low 0xF0 _ 3) by (change (2^3) with 8; arith).
  rewrite !(lor_low 0x80 _ 6) by (change (2^6) with 64; arith).
  destruct (Z.eqb_spec s0 0xF0), (Z.eqb_spec s0 0xF4); arith.
Qed.

Lemma first_cases b :
  0x80 <= b ->
  utf8.first b = 0xF1 \/
  (0xC2 <= b <= 0xDF /\ utf8.first b = 0x02) \/
  (b = 0xE0 /\ utf8.first b = 0x13) \/
  (0xE0 < b <= 0xEF /\ b <> 0xED /\ utf8.first b = 0x03) \/
  (b = 0xED /\ utf8.first b = 0x23) \/
  (b = 0xF0 /\ utf8.first b = 0x34) \/
  (0xF0 < b < 0xF4 /\ utf8.first b = 0x04) \/
  (b = 0xF4 /\ utf8.first b = 0x44).
Proof.
  intro H. unfold utf8.first.
  repeat match goal with
  | |- context [if ?x <? ?n then _ else _] =>
      destruct (Z.ltb_spec x n)
  | |- context [if ?x =? ?n then _ else _] =>
      destruct (Z.eqb_spec x n)
  end; try lia; tauto || (repeat (try (left; repeat split; (reflexivity || lia)); right); repeat split; (reflexivity || lia)).
Qed.

(** The closed arithmetic of the decoder's tables. *)
Ltac tables H :=
  repeat match type of H with
  | context [utf8.acceptRanges ?a] =>
      let v := eval vm_compute in (utf8.acceptRanges a) in
      change (utf8.acceptRanges a) with v in H
  | context [Z.land ?a 7] =>
      let v := eval vm_compute in (Z.land a 7) in
      change (Z.land a 7) with v in H
  | context [240 <=? ?a] =>
      let v := eval vm_compute in (240 <=? a) in
      change (240 <=? a) with v in H
  | context [?a <=? 2] =>
      let v := eval vm_compute in (a <=? 2) in
      change (a <=? 2) with v in H
  | context [?a <=? 3] =>
      let v := eval vm_compute in (a <=? 3) in
      change (a <=? 3) with v in H
  end; cbv iota beta in H.

Ltac tables_goal :=
  repeat match goal with
  | |- context [utf8.acceptRanges ?a] =>
      let v := eval vm_compute in (utf8.acceptRanges a) in
      change (utf8.acceptRanges a) with v
  | |- context [Z.land ?a 7] =>
      let v := eval vm_compute in (Z.land a 7) in
      change (Z.land a 7) with v
  | |- context [240 <=? ?a] =>
      let v := eval vm_compute in (240 <=? a) in
      change (240 <=? a) with v
  | |- context [?a <=? 2] =>
      let v := eval vm_compute in (a <=? 2) in
      change (a <=? 2) with v
  | |- context [?a <=? 3] =>
      let v := eval vm_compute in (a <=? 3) in
      change (a <=? 3) with v
  end; cbv iota beta.

(** A branch of the decoder that reports an encoding error. *)
Ltac no_error H Hv :=
  try (inversion H; subst; discriminate Hv).

Ltac long_enough :=
  match goal with
  | |- context [Z.of_nat (String.length ?s) <? ?n] =>
      destruct (Z.ltb_spec (Z.of_nat (String.length s)) n) as [Hlen|_];
      [cbn [String.length] in Hlen; lia|]
  end.

Ltac next_byte H Hv c1 rest Ho Hb :=
  destruct rest as [|c1 rest]; [no_error H Hv|];
  unfold utf8.locb, utf8.hicb in H;
  match type of H with
  | context [utf8.outside ?lo ?hi (code c1)] =>
      destruct (utf8.outside lo hi (code c1)) eqn:Ho; [no_error H Hv|];
      pose proof (outside_false _ _ _ Ho) as Hb
  end.

Ltac take_rune H r size :=
  let Hrr := fresh in let Hss := fresh in
  pose proof (f_equal fst H) as Hrr; pose proof (f_equal snd H) as Hss;
  cbn [fst snd] in Hrr, Hss; subst r size; clear H.

Ltac accepted c :=
  destruct (Z.eqb_spec (code c) 224), (Z.eqb_spec (code c) 237),
           (Z.eqb_spec (code c) 240), (Z.eqb_spec (code c) 244); lia.

Ltac decode_again E :=
  cbn [append str1]; unfold utf8.DecodeRuneInString; cbv zeta;
  rewrite E; tables_goal; long_enough;
  unfold utf8.locb, utf8.hicb;
  repeat match goal with
  | Ho : utf8.outside _ _ _ = false |- _ => rewrite Ho; clear Ho
  end;
  reflexivity.

Ltac encode_branch :=
  unfold utf8.MaxRune, utf8.RuneError;
  repeat match goal with
  | |- context [?a <=? ?b] => destruct (Z.leb_spec a b); try lia
  | |- context [?a <? ?b] => destruct (Z.ltb_spec a b); try lia
  end; cbn [andb orb].

Ltac two_bytes H Hv Hr E c rest r size :=
  let c1 := fresh "c1" in
  let Ho1 := fresh in let Hb1 := fresh in
  next_byte H Hv c1 rest Ho1 Hb1;
  take_rune H r size;
  let X := fresh in
  pose proof (enc2 (code c) (code c1) ltac:(lia) Hb1) as X; cbv zeta in X;
  set (r := Z.lor _ _) in *;
  let Hrange := fresh in let E0 := fresh in let E1 := fresh in
  destruct X as (Hrange & E0 & E1);
  exists (String c (str1 c1)), rest;
  split; [reflexivity|]; split; [reflexivity|]; split; [cbn; lia|];
  split; [|split; [lia|]];
  [ unfold utf8.EncodeRune; cbv zeta; encode_branch;
    rewrite E0, E1, !chr_code; reflexivity
  | intro; decode_again E ].

Ltac three_bytes H Hv Hr E c rest r size :=
  let c1 := fresh "c1" in let c2 := fresh "c2" in
  let Ho1 := fresh in let Hb1 := fresh in
  let Ho2 := fresh in let Hb2 := fresh in
  next_byte H Hv c1 rest Ho1 Hb1;
  next_byte H Hv c2 rest Ho2 Hb2;
  take_rune H r size;
  let X := fresh in
  pose proof (enc3 (code c) (code c1) (code c2) ltac:(lia)
                ltac:(accepted c) Hb2) as X;
  cbv zeta in X;
  set (r := Z.lor _ _) in *;
  let Hrange := fresh in let Hsur := fresh in
  let E0 := fresh in let E1 := fresh in let E2 := fresh in
  destruct X as (Hrange & Hsur & E0 & E1 & E2);
  exists (String c (String c1 (str1 c2))), rest;
  split; [reflexivity|]; split; [reflexivity|]; split; [cbn; lia|];
  split; [|split; [lia|]];
  [ unfold utf8.EncodeRune; cbv zeta; encode_branch;
    rewrite E0, E1, E2, !chr_code; reflexivity
  | intro; decode_again E ].

Ltac four_bytes H Hv Hr E c rest r size :=
  let c1 := fresh "c1" in let c2 := fresh "c2" in let c3 := fresh "c3" in
  let Ho1 := fresh in let Hb1 := fresh in
  let Ho2 := fresh in let Hb2 := fresh in
  let Ho3 := fresh in let Hb3 := fresh in
  next_byte H Hv c1 rest Ho1 Hb1;
  next_byte H Hv c2 rest Ho2 Hb2;
  next_byte H Hv c3 rest Ho3 Hb3;
  take_rune H r size;
  let X := fresh in
  pose proof (enc4 (code c) (code c1) (code c2) (code c3) ltac:(lia)
                ltac:(accepted c) Hb2 Hb3) as X;
  cbv zeta in X;
  set (r := Z.lor _ _) in *;
  let Hrange := fresh in
  let E0 := fresh in let E1 := fresh in let E2 := fresh in let E3 := fresh in
  destruct X as (Hrange & E0 & E1 & E2 & E3);
  exists (String c (String c1 (String c2 (str1 c3)))), rest;
  split; [reflexivity|]; split; [reflexivity|]; split; [cbn; lia|];
  split; [|split; [lia|]];
  [ unfold utf8.EncodeRune; cbv zeta; encode_branch;
    rewrite E0, E1, E2, E3, !chr_code; reflexivity
  | intro; decode_again E ].

Lemma decode_valid c rest r size :
  utf8.DecodeRuneInString (String c rest) = (r, size) ->
  0x80 <= code c ->
  ((r =? utf8.RuneError) && Nat.eqb size 1) = false ->
  exists enc t,
    String c rest = enc ++ t /\ String.length enc = size /\
    (1 < size)%nat /\
    utf8.EncodeRune r = enc /\ 0x80 <= r /\
    (forall t', utf8.DecodeRuneInString (enc ++ t') = (r, size)).
Proof.
  intros H Hc Hv.
  unfold utf8.DecodeRuneInString in H. cbv zeta in H.
  destruct (first_cases (code c) Hc)
    as [E|[(Hr & E)|[(Hr & E)|[(Hr & Hn & E)|[(Hr & E)|[(Hr & E)|[(Hr & E)|(Hr & E)]]]]]]];
    rewrite E in H; tables H.
  all: no_error H Hv.
  all: match type of H with
       | (if ?b then _ else _) = _ => destruct b; [no_error H Hv|]
       end.
  - two_bytes H Hv Hr E c rest r size.
  - three_bytes H Hv Hr E c rest r size.
  - three_bytes H Hv Hr E c rest r size.
  - three_bytes H Hv Hr E c rest r size.
  - four_bytes H Hv Hr E c rest r size.
  - four_bytes H Hv Hr E c rest r size.
  - four_bytes H Hv Hr E c rest r size.
Qed.

Section Utf8RoundTrip.
Import json.

Lemma escape_copy a : forall t,
  escapeFrom (Copy (String.length a)) (a ++ t) = a ++ escapeFrom (Copy 0) t.
Proof.
  induction a as [|c a IH]; intro t; cbn [String.length append]; [reflexivity|].
  cbn [escapeFrom]. now rewrite IH.
Qed.

Lemma escape_drop a : forall t,
  escapeFrom (Drop (String.length a)) (a ++ t) = escapeFrom (Copy 0) t.
Proof.
  induction a as [|c a IH]; intro t; cbn [String.length append].
  - destruct t; reflexivity.
  - cbn [escapeFrom]. apply IH.
Qed.

Lemma unquote_skip a : forall t,
  unquoteFrom (String.length a) (a ++ t) = unquoteFrom 0 t.
Proof.
  induction a as [|c a IH]; intro t; cbn [String.length append]; [reflexivity|].
  cbn [unquoteFrom]. apply IH.
Qed.

Lemma valid_skip a : forall t,
  validFrom (String.length a) (a ++ t) = validFrom 0 t.
Proof.
  induction a as [|c a IH]; intro t; cbn [String.length append]; [reflexivity|].
  cbn [validFrom]. apply IH.
Qed.

Lemma decode_ascii c rest :
  code c < 0x80 -> utf8.DecodeRuneInString (String c rest) = (code c, 1%nat).
Proof.
  intro H. unfold utf8.DecodeRuneInString, utf8.first. cbv zeta.
  destruct (Z.ltb_spec (code c) 128); [reflexivity|lia].
Qed.

Lemma length_append a b :
  String.length (a ++ b) = (String.length a + String.length b)%nat.
Proof. induction a as [|c a IH]; cbn; [reflexivity|now rewrite IH]. Qed.

(** One ASCII byte written and read back. *)
Lemma ascii_step c rest :
  code c < 0x80 ->
  unquoteFrom 0 (escapeFrom (Copy 0) (String c rest))
  = emit (str1 c) (unquoteFrom 0 (escapeFrom (Copy 0) rest)).
Proof.
  intro Hc. cbn [escapeFrom]. cbv zeta. unfold utf8.RuneSelf.
  destruct (Z.ltb_spec (code c) 128) as [_|?]; [|lia].
  destruct (htmlSafeSet (code c)) eqn:Esafe.
  - pose proof (safe_run c Esafe) as Hrun. unfold InStep.strStep in Hrun.
    cbn [unquoteFrom]. cbv zeta.
    destruct (code c =? 34); [discriminate|].
    destruct (code c =? 92); [discriminate|].
    destruct (code c <? 32); [discriminate|].
    cbn [orb]. unfold utf8.RuneSelf.
    destruct (Z.ltb_spec (code c) 128) as [_|?]; [reflexivity|lia].
  - apply unquote_escapeASCII; [lia|exact Esafe].
Qed.

(** One rune of several bytes written and read back. *)
Lemma rune_step c rest r size enc t :
  0x80 <= code c ->
  String c rest = enc ++ t ->
  String.length enc = size -> (1 < size)%nat ->
  utf8.EncodeRune r = enc -> 0x80 <= r ->
  (forall t', utf8.DecodeRuneInString (enc ++ t') = (r, size)) ->
  ((r =? utf8.RuneError) && Nat.eqb size 1) = false ->
  unquoteFrom 0 (escapeFrom (Copy 0) (String c rest))
  = emit enc (unquoteFrom 0 (escapeFrom (Copy 0) t)).
Proof.
  intros Hc Hsplit Hlen Hsize Henc Hr Hdec Hv.
  destruct enc as [|c' enc']; [cbn in Hlen; lia|].
  cbn [append] in Hsplit. injection Hsplit as <- ->.
  cbn [String.length] in Hlen.
  assert (Hpred : Nat.pred size = String.length enc') by lia.
  assert (Hread : forall X,
            unquoteFrom 0 (String c (enc' ++ X))
            = emit (String c enc') (unquoteFrom 0 X)).
  { intro X. cbn [unquoteFrom]. cbv zeta. unfold utf8.RuneSelf.
    destruct (Z.eqb_spec (code c) 92); [lia|].
    destruct (Z.eqb_spec (code c) 34); [lia|].
    destruct (Z.ltb_spec (code c) 32); [lia|].
    destruct (Z.ltb_spec (code c) 128); [lia|]. cbn [orb].
    rewrite (Hdec X : utf8.DecodeRuneInString (String c (enc' ++ X)) = _).
    rewrite Henc, Hpred, unquote_skip. reflexivity. }
  cbn [escapeFrom]. cbv zeta. unfold utf8.RuneSelf.
  destruct (Z.ltb_spec (code c) 128); [lia|].
  rewrite (Hdec t : utf8.DecodeRuneInString (String c (enc' ++ t)) = _).
  rewrite Hv, Hpred.
  destruct (Z.eqb_spec r 0x2028) as [->|N1].
  { cbn [orb]. rewrite escape_drop.
    assert (Hesc : forall X,
              unquoteFrom 0
                ("\u202" ++ str1 (lowerhex (Z.land 8232 15)) ++ X)
              = emit (utf8.EncodeRune 0x2028) (unquoteFrom 0 X))
      by (intro; reflexivity).
    rewrite Hesc, Henc. reflexivity. }
  destruct (Z.eqb_spec r 0x2029) as [->|N2].
  { cbn [orb]. rewrite escape_drop.
    assert (Hesc : forall X,
              unquoteFrom 0
                ("\u202" ++ str1 (lowerhex (Z.land 8233 15)) ++ X)
              = emit (utf8.EncodeRune 0x2029) (unquoteFrom 0 X))
      by (intro; reflexivity).
    rewrite Hesc, Henc. reflexivity. }
  cbn [orb]. rewrite escape_copy. apply Hread.
Qed.

Lemma unquote_escape_valid_upto n : forall v,
  (String.length v <= n)%nat ->
  validUTF8 v = true ->
  unquoteFrom 0 (escapeFrom (Copy 0) v) = Some v.
Proof.
  induction n as [|n IH]; intros v Hn Hv.
  { destruct v; [reflexivity|cbn in Hn; lia]. }
  destruct v as [|c rest]; [reflexivity|].
  unfold validUTF8 in Hv. cbn [validFrom] in Hv.
  destruct (Z.lt_ge_cases (code c) 0x80) as [Hc|Hc].
  - rewrite (decode_ascii c rest Hc) in Hv. cbn [Nat.pred] in Hv.
    apply andb_prop in Hv. destruct Hv as [_ Hv].
    rewrite (ascii_step c rest Hc), IH; [reflexivity| |exact Hv].
    cbn in Hn. lia.
  - destruct (utf8.DecodeRuneInString (String c rest)) as [r size] eqn:Hd.
    apply andb_prop in Hv. destruct Hv as [Herr Hv].
    apply negb_true_iff in Herr.
    destruct (decode_valid c rest r size Hd Hc Herr)
      as (enc & t & Hsplit & Hlen & Hsize & Henc & Hr & Hdec).
    rewrite (rune_step c rest r size enc t Hc Hsplit Hlen Hsize Henc Hr Hdec Herr).
    assert (Ht : validFrom 0 t = true).
    { destruct enc as [|c' enc']; [cbn in Hlen; lia|].
      cbn [append] in Hsplit. injection Hsplit as _ ->.
      cbn [String.length] in Hlen.
      replace (Nat.pred size) with (String.length enc') in Hv by lia.
      now rewrite valid_skip in Hv. }
    rewrite IH; [cbn [emit option_map]; now rewrite Hsplit| |exact Ht].
    apply (f_equal String.length) in Hsplit. rewrite length_append in Hsplit.
    cbn [String.length] in Hsplit, Hn. lia.
Qed.

Lemma unquote_escape_valid v :
  validUTF8 v = true -> unquoteFrom 0 (escapeFrom (Copy 0) v) = Some v.
Proof. apply (unquote_escape_valid_upto (String.length v)). lia. Qed.

(** What [Marshal] writes for a valid UTF-8 value is read back as the
    value. *)
Lemma marshal_reads_valid k v :
  k = "error" \/ k = "ipfs_url" ->
  validUTF8 v = true ->
  parse (Marshal [(k, v)]) = Some (JObject [(k, JString v)]).
Proof.
  intros Hk Hv.
  destruct (marshal_reads k v Hk) as (_ & t & Hu & Hp).
  rewrite (unquote_escape_valid v Hv) in Hu. inversion Hu. subst t.
  exact Hp.
Qed.

Lemma valid_after_ascii a b :
  isASCII a = true -> validUTF8 (a ++ b) = validUTF8 b.
Proof.
  unfold validUTF8.
  induction a as [|c a IH]; cbn [append isASCII]; [reflexivity|].
  intro H. apply andb_prop in H. destruct H as [Hc Ha].
  unfold utf8.RuneSelf in Hc. apply Z.ltb_lt in Hc.
  cbn [validFrom]. rewrite (decode_ascii c (a ++ b) Hc).
  cbn [Nat.pred]. unfold utf8.RuneError.
  destruct (Z.eqb_spec (code c) 65533); [lia|]. cbn [negb andb]. auto.
Qed.

End Utf8RoundTrip.

(** ** The relay *)

Lemma emitted_app {A} (m : IO A) w log evs :
  snd (m w log) = (log ++ evs)%list -> emitted m w log = evs.
Proof.
  intro H. unfold emitted. rewrite H.
  rewrite skipn_app, skipn_all, Nat.sub_diag. reflexivity.
Qed.

Lemma FileHeader_Open_log fh w log :
  snd (FileHeader_Open fh w log) = log.
Proof. unfold FileHeader_Open. destruct (content fh); reflexivity. Qed.

(** With a file that reads without error, [uploadToIPFS] sends one request,
    carrying the file under its name, and returns what it makes of the
    outcome. *)
Lemma uploadToIPFS_sends file fh w log :
  file.(readErr) = None ->
  exists req,
    req.(http.Body).(multipart.parts)
      = [multipart.mkPart "file" fh.(Filename) file.(data)] /\
    req.(http.Method) = "POST" /\
    req.(http.URL) = "https://api.pinata.cloud/pinning/pinFileToIPFS" /\
    uploadToIPFS file fh w log
      = (interpret (w.(client_Do) log req), (log ++ [Sent req])%list).
Proof.
  intro Hread.
  unfold uploadToIPFS, bind, getenv, newWriter, clientDo, ret.
  cbn [multipart.CreateFormFile multipart.Copy http.NewRequest].
  rewrite Hread.
  match goal with
  | |- context [client_Do w log (http.SetHeader ?a ?b ?c)] =>
      exists (http.SetHeader a b c)
  end.
  repeat split.
  destruct (client_Do w log _) as [resp | e]; cbn [interpret]; [|reflexivity].
  destruct (negb (http.StatusCode resp =? 200)); [reflexivity|].
  unfold sprintf1.
  destruct (unmarshal.Unmarshal _ _) as [p [e|]]; reflexivity.
Qed.

Lemma uploadToIPFS_read_error file fh w log e :
  file.(readErr) = Some e -> uploadToIPFS file fh w log = (Err e, log).
Proof.
  intro H. unfold uploadToIPFS, bind, getenv, newWriter, ret.
  cbn [multipart.CreateFormFile multipart.Copy]. rewrite H. reflexivity.
Qed.

Lemma FormFile_no_field c mf :
  c.(fiber.MultipartForm) = Ok mf -> fiber.lookup "file" mf = None ->
  fiber.FormFile c "file" = Err fiber.ErrMissingFile.
Proof. unfold fiber.FormFile. intros -> ->. reflexivity. Qed.

Lemma handler_no_file c w log e :
  fiber.FormFile c "file" = Err e ->
  upload_handler c w log = (json_response 400 "error" "File missing", log).
Proof. intro H. unfold upload_handler. rewrite H. reflexivity. Qed.

Lemma handler_open_error c w log fh e :
  fiber.FormFile c "file" = Ok fh ->
  fst (FileHeader_Open fh w log) = Err e ->
  upload_handler c w log = (json_response 500 "error" "File open failed", log).
Proof.
  intros Hf Ho. unfold upload_handler. rewrite Hf. unfold bind.
  pose proof (FileHeader_Open_log fh w log) as Hl.
  destruct (FileHeader_Open fh w log) as [r log']. cbn in Ho, Hl. subst.
  reflexivity.
Qed.

Lemma handler_valid c w log fh file :
  valid_file_field c w log fh file ->
  exists req,
    req.(http.Body).(multipart.parts)
      = [multipart.mkPart "file" fh.(Filename) file.(data)] /\
    upload_handler c w log
      = (respond (interpret (w.(client_Do) log req)), (log ++ [Sent req])%list).
Proof.
  intros (Hform & Hopen & Hread).
  destruct (uploadToIPFS_sends file fh w log Hread)
    as (req & Hparts & _ & _ & Hup).
  exists req. split; [exact Hparts|].
  unfold upload_handler. rewrite Hform. unfold bind.
  pose proof (FileHeader_Open_log fh w log) as Hlog.
  destruct (FileHeader_Open fh w log) as [f log']. cbn in Hopen, Hlog. subst.
  rewrite Hup.
  destruct (interpret _); reflexivity.
Qed.

(** The shape of every response. *)
Lemma handler_variants c w log :
  exists st k v,
    fst (upload_handler c w log) = fiber.JSON st [(k, v)] /\
    ((k = "ipfs_url" /\ st = 200) \/ (k = "error" /\ (st = 400 \/ st = 500))).
Proof.
  unfold upload_handler.
  destruct (fiber.FormFile c "file") as [fh|e].
  2: { exists 400, "error", "File missing". split; [reflexivity|]. right. auto. }
  unfold bind.
  destruct (FileHeader_Open fh w log) as [[file|e] log'].
  2: { exists 500, "error", "File open failed". split; [reflexivity|].
       right. auto. }
  destruct (uploadToIPFS file fh w log') as [[u|e] log''].
  - exists 200, "ipfs_url", u. split; [reflexivity|]. left. auto.
  - exists 500, "error", e. split; [reflexivity|]. right. auto.
Qed.

(** The requests of the handler: none, or one that carries the received
    file name. *)
Lemma handler_emits c w log :
  emitted (upload_handler c) w log = [] \/
  exists fh req,
    fiber.FormFile c "file" = Ok fh /\
    filenames req = [fh.(Filename)] /\
    emitted (upload_handler c) w log = [Sent req].
Proof.
  destruct (fiber.FormFile c "file") as [fh|e] eqn:Hf.
  2: { left. apply emitted_app. rewrite (handler_no_file c w log e Hf).
       cbn. now rewrite app_nil_r. }
  destruct (fst (FileHeader_Open fh w log)) as [file|e] eqn:Ho.
  2: { left. apply emitted_app.
       rewrite (handler_open_error c w log fh e Hf Ho).
       cbn. now rewrite app_nil_r. }
  destruct (readErr file) as [e|] eqn:Hr.
  - left. apply emitted_app. unfold upload_handler. rewrite Hf. unfold bind.
    pose proof (FileHeader_Open_log fh w log) as Hl.
    destruct (FileHeader_Open fh w log) as [r log']. cbn in Ho, Hl. subst.
    rewrite (uploadToIPFS_read_error file fh w log e Hr). cbn.
    now rewrite app_nil_r.
  - right.
    destruct (handler_valid c w log fh file (conj Hf (conj Ho Hr)))
      as (req & Hparts & Hh).
    exists fh, req. repeat split.
    + unfold filenames. now rewrite Hparts.
    + apply emitted_app. now rewrite Hh.
Qed.

Lemma object_no_identifier ms :
  no_identifier ms ->
  unmarshal.object ms (mkPinataResponse EmptyString) None
  = (mkPinataResponse EmptyString, None).
Proof.
  induction ms as [|[k x] ms IH]; intro H; cbn [unmarshal.object];
    [reflexivity|].
  assert (Hms : no_identifier ms).
  { intros k' v' Hin. apply H. right. exact Hin. }
  destruct (unmarshal.isField k) eqn:Ek; [|auto].
  rewrite (H k x (or_introl eq_refl) Ek). auto.
Qed.

(** *** A request with a valid file field *)

Section ProviderAnswers.

Variables (c : fiber.Ctx) (w : World) (log : list event).
Variables (fh : FileHeader) (file : File) (resp : http.Response).

Hypothesis Hfile : valid_file_field c w log fh file.
Hypothesis Hanswer : provider_responds w log resp.

Lemma handler_answers :
  exists req,
    filenames req = [fh.(Filename)] /\
    upload_handler c w log
      = (respond (interpret (Ok resp)), (log ++ [Sent req])%list).
Proof.
  destruct (handler_valid c w log fh file Hfile) as (req & Hparts & Hh).
  exists req. split.
  - unfold filenames. rewrite Hparts. reflexivity.
  - rewrite Hh, (Hanswer req). reflexivity.
Qed.

(** C1: for a request with a valid file field, when the provider answers
    with status 200 and the body [{"IpfsHash":"Qm123"}], the relay
    answers with status 200 and the body
    [{"ipfs_url":"https://ipfs.io/ipfs/Qm123"}]; and whatever the body,
    when it decodes to a [PinataResponse] the relay answers 200 with the
    JSON object whose [ipfs_url] is the gateway prefix followed by its
    [IpfsHash]; for an ASCII identifier that is also the URL read back
    from the body of the answer. *)
Theorem upload_success :
  resp.(http.StatusCode) = 200 ->
  (resp.(http.respBody)
     = "{" ++ quoted "IpfsHash" ++ ":" ++ quoted "Qm123" ++ "}" ->
   fst (upload_handler c w log)
   = json_response 200 "ipfs_url" "https://ipfs.io/ipfs/Qm123")
  /\
  (forall p,
     unmarshal.Unmarshal resp.(http.respBody) (mkPinataResponse EmptyString)
       = (p, None) ->
     let url := "https://ipfs.io/ipfs/" ++ p.(IpfsHash) in
     fst (upload_handler c w log) = fiber.JSON 200 [("ipfs_url", url)] /\
     (isASCII p.(IpfsHash) = true ->
      json.parse (fiber.Body (fst (upload_handler c w log)))
      = Some (json.JObject [("ipfs_url", json.JString url)]))).
Proof.
  intros Hst.
  destruct handler_answers as (req & _ & Hh).
  rewrite Hh. cbn [fst interpret]. rewrite Hst. cbn [Z.eqb Pos.eqb negb].
  split.
  - intros ->. reflexivity.
  - intros p ->. cbv zeta. split; [reflexivity|].
    intro Hp. cbn [respond fiber.JSON fiber.Body].
    apply marshal_reads_ascii; [right; reflexivity|].
    rewrite isASCII_app, Hp. reflexivity.
Qed.

(** C3, as amended: for a request with a valid file field, when the
    provider answers with a status other than 200 and the body [B], the
    relay answers with status 500 and the JSON encoding of the object
    whose [error] is [pinata error: ] followed by [B], a text that
    contains [B] as it is; it has sent exactly one request.  For a [B]
    that is valid UTF-8 (an ASCII one in particular) that text is also
    the error read back from the body of the answer; the encoder escapes
    some bytes, and replaces those that are not UTF-8.  For [B = boom]
    the body is [{"error":"pinata error: boom"}]. *)
Theorem upload_provider_error :
  resp.(http.StatusCode) <> 200 ->
  let detail := "pinata error: " ++ resp.(http.respBody) in
  (exists req,
     upload_handler c w log
     = (fiber.JSON 500 [("error", detail)], (log ++ [Sent req])%list)) /\
  contains resp.(http.respBody) detail = true /\
  (isASCII resp.(http.respBody) = true ->
   json.parse (fiber.Body (fst (upload_handler c w log)))
   = Some (json.JObject [("error", json.JString detail)])) /\
  (validUTF8 resp.(http.respBody) = true ->
   json.parse (fiber.Body (fst (upload_handler c w log)))
   = Some (json.JObject [("error", json.JString detail)])) /\
  (resp.(http.respBody) = "boom" ->
   fst (upload_handler c w log)
   = json_response 500 "error" "pinata error: boom").
Proof.
  intros Hst detail.
  destruct handler_answers as (req & _ & Hh).
  assert (Hi : interpret (Ok resp) = Err detail).
  { cbn [interpret]. apply Z.eqb_neq in Hst. rewrite Hst. reflexivity. }
  rewrite Hi in Hh. cbn [respond] in Hh.
  split; [exists req; exact Hh|]. split; [apply contains_app|].
  rewrite Hh. cbn [fst fiber.JSON fiber.Body]. split; [|split].
  - intro Hb. apply marshal_reads_ascii; [left; reflexivity|].
    subst detail. rewrite isASCII_app, Hb. reflexivity.
  - intro Hb. apply marshal_reads_valid; [left; reflexivity|].
    subst detail. rewrite valid_after_ascii; [exact Hb|reflexivity].
  - intro Hb. subst detail. rewrite Hb. reflexivity.
Qed.

(** C4: for a request with a valid file field, when the provider answers
    with status 200 and a body that is not valid JSON, the relay answers
    with status 500 and the JSON object whose [error] is the message of
    the decoder's syntax error: a fixed text, or [invalid character]
    with one quoted byte and a fixed context.  It is never of the form
    the relay gives to a provider's body ([pinata error: ...]). *)
Theorem upload_malformed_json :
  resp.(http.StatusCode) = 200 ->
  json.checkValid resp.(http.respBody) <> None ->
  exists e req,
    upload_handler c w log
      = (fiber.JSON 500 [("error", e)], (log ++ [Sent req])%list) /\
    json.checkValid resp.(http.respBody) = Some e /\
    syntax_error e /\
    (forall B, e <> "pinata error: " ++ B).
Proof.
  intros Hst Hbad.
  destruct handler_answers as (req & _ & Hh).
  destruct (json.checkValid (http.respBody resp)) as [e|] eqn:E;
    [|congruence].
  exists e, req.
  assert (Hs : syntax_error e) by (apply (checkValid_syntax_error _ _ E)).
  repeat split; auto.
  - rewrite Hh. cbn [interpret]. rewrite Hst. cbn [Z.eqb Pos.eqb negb].
    unfold unmarshal.Unmarshal. rewrite E. reflexivity.
  - intro B. apply syntax_error_not_upstream. exact Hs.
Qed.

(** C10, as amended: for a request with a valid file field, when the
    provider answers with status 200 and a JSON object in which no member
    gives a content identifier (no member has a name the decoder matches
    with [IpfsHash], exactly or without regard to case, or those that
    have hold the empty string), the relay still answers with status 200
    and the body [{"ipfs_url":"https://ipfs.io/ipfs/"}]. *)
Theorem upload_empty_identifier ms :
  resp.(http.StatusCode) = 200 ->
  json.checkValid resp.(http.respBody) = None ->
  json.parse resp.(http.respBody) = Some (json.JObject ms) ->
  no_identifier ms ->
  fst (upload_handler c w log)
  = json_response 200 "ipfs_url" "https://ipfs.io/ipfs/".
Proof.
  intros Hst Hvalid Hparse Hno.
  destruct handler_answers as (req & _ & Hh).
  rewrite Hh. cbn [fst interpret]. rewrite Hst. cbn [Z.eqb Pos.eqb negb].
  unfold unmarshal.Unmarshal. rewrite Hvalid, Hparse.
  cbn [unmarshal.store]. rewrite (object_no_identifier ms Hno). reflexivity.
Qed.

End ProviderAnswers.

Lemma upload_success_witness :
  fst (upload_handler Stub.request
         (Stub.world (Stub.answer 200 Stub.body_Qm123)) [])
  = json_response 200 "ipfs_url" "https://ipfs.io/ipfs/Qm123".
Proof.
  apply (upload_success Stub.request
           (Stub.world (Stub.answer 200 Stub.body_Qm123)) []
           Stub.header (mkFile "PNG" None)
           (http.mkResponse 200 Stub.body_Qm123 None)).
  - repeat split.
  - intro req. reflexivity.
  - reflexivity.
  - reflexivity.
Defined.

Lemma upload_provider_error_witness :
  fst (upload_handler Stub.request (Stub.world (Stub.answer 500 "boom")) [])
  = json_response 500 "error" "pinata error: boom".
Proof.
  apply (upload_provider_error Stub.request
           (Stub.world (Stub.answer 500 "boom")) []
           Stub.header (mkFile "PNG" None) (http.mkResponse 500 "boom" None)).
  - repeat split.
  - intro req. reflexivity.
  - discriminate.
  - reflexivity.
Defined.

(** C3, as stated, fails: when the provider's body is the single byte
    0xFF, which is not UTF-8, the body of the relay's answer holds the
    escape of U+FFFD in its place; neither that body nor the error read
    back from it contains the byte. *)
Lemma provider_body_verbatim_refuted :
  validUTF8 (str1 (chr 255)) = false /\
  fst (upload_handler Stub.request
         (Stub.world (Stub.answer 500 (str1 (chr 255)))) [])
  = fiber.mkResponse 500 "application/json"
      ("{" ++ quoted "error" ++ ":"
           ++ quoted ("pinata error: " ++ String backslash "ufffd") ++ "}")
  /\
  contains (str1 (chr 255))
    (fiber.Body
       (fst (upload_handler Stub.request
               (Stub.world (Stub.answer 500 (str1 (chr 255)))) [])))
  = false
  /\
  exists detail,
    json.parse
      (fiber.Body
         (fst (upload_handler Stub.request
                 (Stub.world (Stub.answer 500 (str1 (chr 255)))) [])))
    = Some (json.JObject [("error", json.JString detail)]) /\
    contains (str1 (chr 255)) detail = false.
Proof.
  split; [reflexivity|]. split; [reflexivity|]. split; [reflexivity|].
  eexists. split; reflexivity.
Qed.

(** A body that is UTF-8 but not ASCII ([caf] and the two bytes of an
    accented [e]) is read back from the answer as it was received. *)
Example provider_error_utf8 :
  validUTF8 ("caf" ++ String (chr 195) (str1 (chr 169))) = true /\
  json.parse
    (fiber.Body
       (fst (upload_handler Stub.request
               (Stub.world (Stub.answer 502
                  ("caf" ++ String (chr 195) (str1 (chr 169))))) [])))
  = Some (json.JObject
            [("error",
              json.JString ("pinata error: caf"
                            ++ String (chr 195) (str1 (chr 169))))]).
Proof. split; reflexivity. Qed.

Lemma upload_malformed_json_witness :
  exists e req,
    upload_handler Stub.request (Stub.world (Stub.answer 200 "boom")) []
      = (fiber.JSON 500 [("error", e)], [Sent req]) /\
    json.checkValid "boom" = Some e /\
    syntax_error e /\
    (forall B, e <> "pinata error: " ++ B).
Proof.
  apply (upload_malformed_json Stub.request
           (Stub.world (Stub.answer 200 "boom")) []
           Stub.header (mkFile "PNG" None) (http.mkResponse 200 "boom" None)).
  - repeat split.
  - intro req. reflexivity.
  - reflexivity.
  - discriminate.
Defined.

Lemma upload_empty_identifier_witness :
  fst (upload_handler Stub.request
         (Stub.world (Stub.answer 200 Stub.body_no_hash)) [])
  = json_response 200 "ipfs_url" "https://ipfs.io/ipfs/".
Proof.
  apply upload_empty_identifier
    with (fh := Stub.header) (file := mkFile "PNG" None)
         (resp := http.mkResponse 200 Stub.body_no_hash None)
         (ms := [("PinSize", json.JNumber "12")]).
  - repeat split.
  - intro req. reflexivity.
  - reflexivity.
  - reflexivity.
  - reflexivity.
  - intros k v [H|[]]. inversion H. subst. vm_compute. discriminate.
Defined.

(** The same with the field present and empty, and with a key that differs
    from [IpfsHash] by case only: that one does select the field. *)
Example upload_empty_hash_field :
  fst (upload_handler Stub.request
         (Stub.world (Stub.answer 200 Stub.body_empty_hash)) [])
  = json_response 200 "ipfs_url" "https://ipfs.io/ipfs/".
Proof. reflexivity. Qed.

Example upload_folded_key :
  fst (upload_handler Stub.request
         (Stub.world (Stub.answer 200
            ("{" ++ quoted "ipfshash" ++ ":" ++ quoted "Qm123" ++ "}"))) [])
  = json_response 200 "ipfs_url" "https://ipfs.io/ipfs/Qm123".
Proof. reflexivity. Qed.

(** C10, as stated, fails: the object [{"ipfshash":"Qm123"}] has no
    member named [IpfsHash], and in the object whose members are
    [IpfsHash], holding the empty string, and [IPFSHASH], holding [Qm7],
    the member [IpfsHash] is empty; the decoder also matches a name that
    differs by case only, and the relay does not answer with the empty
    identifier. *)
Lemma folded_key_identifier_refuted :
  (json.parse ("{" ++ quoted "ipfshash" ++ ":" ++ quoted "Qm123" ++ "}")
   = Some (json.JObject [("ipfshash", json.JString "Qm123")]) /\
   fst (upload_handler Stub.request
          (Stub.world (Stub.answer 200
             ("{" ++ quoted "ipfshash" ++ ":" ++ quoted "Qm123" ++ "}"))) [])
   <> json_response 200 "ipfs_url" "https://ipfs.io/ipfs/")
  /\
  (json.parse ("{" ++ quoted "IpfsHash" ++ ":" ++ quoted EmptyString ++ ","
                   ++ quoted "IPFSHASH" ++ ":" ++ quoted "Qm7" ++ "}")
   = Some (json.JObject [("IpfsHash", json.JString EmptyString);
                         ("IPFSHASH", json.JString "Qm7")]) /\
   fst (upload_handler Stub.request
          (Stub.world (Stub.answer 200
             ("{" ++ quoted "IpfsHash" ++ ":" ++ quoted EmptyString ++ ","
                  ++ quoted "IPFSHASH" ++ ":" ++ quoted "Qm7" ++ "}"))) [])
   <> json_response 200 "ipfs_url" "https://ipfs.io/ipfs/").
Proof.
  split; (split; [reflexivity|discriminate]).
Qed.

(** *** The file field, and the shape of every answer *)

(** C2: when the request has no file field named [file], or its form
    cannot be read, the relay answers with status 400 and the body
    [{"error":"File missing"}], and sends nothing to the provider: the log
    of events is unchanged. *)
Theorem upload_file_missing c w log e :
  fiber.FormFile c "file" = Err e ->
  upload_handler c w log = (json_response 400 "error" "File missing", log).
Proof. apply handler_no_file. Qed.

Lemma upload_file_missing_witness :
  upload_handler Stub.request_no_file
    (Stub.world (Stub.answer 200 Stub.body_Qm123)) []
  = (json_response 400 "error" "File missing", []).
Proof.
  apply (upload_file_missing Stub.request_no_file _ [] fiber.ErrMissingFile).
  reflexivity.
Defined.

(** C5, as amended: when the received file field cannot be opened, the
    relay answers with status 500 and the body
    [{"error":"File open failed"}], with a capital F, and sends nothing to
    the provider. *)
Theorem upload_file_open_failed c w log fh e :
  fiber.FormFile c "file" = Ok fh ->
  fst (FileHeader_Open fh w log) = Err e ->
  upload_handler c w log
  = (json_response 500 "error" "File open failed", log).
Proof. apply handler_open_error. Qed.

Lemma upload_file_open_failed_witness :
  upload_handler Stub.request_spooled
    (Stub.world (Stub.answer 200 Stub.body_Qm123)) []
  = (json_response 500 "error" "File open failed", []).
Proof.
  apply (upload_file_open_failed Stub.request_spooled _ [] Stub.spooled
           "open /tmp/mp-1: no such file or directory").
  - reflexivity.
  - reflexivity.
Defined.

(** C5, as stated, fails: for a file field whose temporary file cannot be
    opened, the body of the answer is not the object whose [error] is
    [file open failed] in lower case. *)
Lemma lowercase_open_message_refuted :
  fiber.FormFile Stub.request_spooled "file" = Ok Stub.spooled /\
  fst (FileHeader_Open Stub.spooled
         (Stub.world (Stub.answer 200 Stub.body_Qm123)) [])
    = Err "open /tmp/mp-1: no such file or directory" /\
  fst (upload_handler Stub.request_spooled
         (Stub.world (Stub.answer 200 Stub.body_Qm123)) [])
    <> json_response 500 "error" "file open failed".
Proof. repeat split. discriminate. Qed.

(** C6: every answer of the handler is one of two variants.  Its body is
    what [Marshal] writes for a map with one entry; it is valid JSON and is
    read back as an object with exactly one member, holding a string: the
    member is [ipfs_url] and the status 200, or the member is [error] and
    the status 400 or 500.  No answer has both members. *)
Theorem response_two_variants c w log :
  let r := fst (upload_handler c w log) in
  exists k v t,
    r.(fiber.Body) = json.Marshal [(k, v)] /\
    json.checkValid r.(fiber.Body) = None /\
    json.parse r.(fiber.Body) = Some (json.JObject [(k, json.JString t)]) /\
    ((k = "ipfs_url" /\ r.(fiber.Status) = 200) \/
     (k = "error" /\ (r.(fiber.Status) = 400 \/ r.(fiber.Status) = 500))).
Proof.
  cbn zeta.
  destruct (handler_variants c w log) as (st & k & v & Hr & Hk).
  rewrite Hr. cbn [fiber.Body fiber.Status fiber.JSON].
  assert (Hkey : k = "error" \/ k = "ipfs_url") by tauto.
  destruct (marshal_reads k v Hkey) as (Hvalid & t & _ & Hparse).
  exists k, v, t. split; [reflexivity|]. split; [exact Hvalid|].
  split; [exact Hparse | exact Hk].
Qed.

(** The two variants on the stubbed provider. *)
Example response_variants_on_stub :
  fiber.Body (fst (upload_handler Stub.request
                     (Stub.world (Stub.answer 200 Stub.body_Qm123)) []))
  = "{" ++ quoted "ipfs_url" ++ ":" ++ quoted "https://ipfs.io/ipfs/Qm123" ++ "}"
  /\
  fiber.Body (fst (upload_handler Stub.request
                     (Stub.world (Err "dial tcp: connection refused")) []))
  = "{" ++ quoted "error" ++ ":" ++ quoted "dial tcp: connection refused" ++ "}".
Proof. split; reflexivity. Qed.

(** ** Base names *)

Lemma every_app P a b : every P (a ++ b) = every P a && every P b.
Proof.
  induction a as [|c a IH]; cbn [append every]; [reflexivity|].
  rewrite IH. apply andb_assoc.
Qed.

Lemma every_rev P s : every P (rev s) = every P s.
Proof.
  induction s as [|c s IH]; [reflexivity|].
  rewrite rev_cons, every_app, IH. cbn [every str1].
  rewrite andb_true_r. apply andb_comm.
Qed.

Lemma rev_nil_inv s : rev s = EmptyString -> s = EmptyString.
Proof.
  intro H. rewrite <- (rev_involutive s), H. reflexivity.
Qed.

Lemma untilSeparator_free s : every notSlash (filepath.untilSeparator s) = true.
Proof.
  induction s as [|c s IH]; cbn [filepath.untilSeparator]; [reflexivity|].
  unfold filepath.IsPathSeparator.
  destruct (code c =? 47) eqn:E; [reflexivity|].
  cbn [every]. rewrite IH. unfold notSlash. rewrite E. reflexivity.
Qed.

Lemma untilSeparator_app a b :
  every notSlash a = true ->
  filepath.untilSeparator (a ++ String "/" b) = a.
Proof.
  induction a as [|c a IH]; cbn [append every filepath.untilSeparator].
  - reflexivity.
  - unfold notSlash at 1, filepath.IsPathSeparator. intro H.
    apply andb_prop in H. destruct H as [Hc Ha].
    destruct (code c =? 47); [discriminate|]. now rewrite IH.
Qed.

Lemma Base_shape path : base_name (filepath.Base path).
Proof.
  unfold filepath.Base. destruct path as [|c p].
  - split; [discriminate|]. right. reflexivity.
  - set (u := filepath.untilSeparator _).
    destruct (rev u) as [|d r] eqn:E.
    + split; [discriminate|]. left. reflexivity.
    + split; [discriminate|]. right. rewrite <- E, every_rev.
      apply untilSeparator_free.
Qed.

Lemma Base_last dir name :
  name <> EmptyString -> every notSlash name = true ->
  filepath.Base (dir ++ "/" ++ name) = name.
Proof.
  intros Hne Hfree. unfold filepath.Base.
  destruct (dir ++ "/" ++ name) as [|c p] eqn:E.
  { destruct dir; discriminate. }
  rewrite <- E. clear E c p.
  rewrite rev_app, rev_app. change (rev "/") with "/".
  assert (Hd : filepath.dropSeparators (rev name ++ "/" ++ rev dir)
               = rev name ++ "/" ++ rev dir).
  { destruct (rev name) as [|z r] eqn:Er.
    - elim Hne. apply rev_nil_inv. exact Er.
    - cbn [append filepath.dropSeparators].
      assert (Hz : notSlash z = true).
      { pose proof (every_rev notSlash name) as Hr. rewrite Er, Hfree in Hr.
        cbn [every] in Hr. apply andb_prop in Hr. apply Hr. }
      unfold notSlash in Hz. unfold filepath.IsPathSeparator.
      destruct (code z =? 47); [discriminate|]. reflexivity. }
  rewrite append_assoc, Hd.
  change ("/" ++ rev dir) with (String "/" (rev dir)).
  rewrite untilSeparator_app by (now rewrite every_rev).
  rewrite rev_involutive.
  destruct name; [contradiction|reflexivity].
Qed.

Lemma append_nil_inv a b : a ++ b = EmptyString -> a = EmptyString /\ b = EmptyString.
Proof. destruct a; [auto|discriminate]. Qed.

Lemma separator_slash c : filepath.IsPathSeparator c = true -> c = "/"%char.
Proof.
  unfold filepath.IsPathSeparator. intro H. apply Z.eqb_eq, code_eq in H.
  exact H.
Qed.

Lemma dropSeparators_slashes s t :
  every filepath.IsPathSeparator s = true ->
  filepath.dropSeparators (s ++ t) = filepath.dropSeparators t.
Proof.
  induction s as [|c s IH]; cbn [append every filepath.dropSeparators];
    [reflexivity|].
  intro H. apply andb_prop in H. destruct H as [Hc Hs]. rewrite Hc. auto.
Qed.

Lemma dropSeparators_element z t :
  notSlash z = true ->
  filepath.dropSeparators (String z t) = String z t.
Proof.
  unfold notSlash. cbn [filepath.dropSeparators].
  unfold filepath.IsPathSeparator. destruct (code z =? 47); [discriminate|].
  reflexivity.
Qed.

Lemma untilSeparator_element a b :
  every notSlash a = true ->
  b = EmptyString \/ (exists b', b = String "/" b') ->
  filepath.untilSeparator (a ++ b) = a.
Proof.
  intros Ha Hb. induction a as [|c a IH]; cbn [append].
  - destruct Hb as [->|(b' & ->)]; reflexivity.
  - cbn [every] in Ha. apply andb_prop in Ha. destruct Ha as [Hc Ha].
    cbn [filepath.untilSeparator]. unfold filepath.IsPathSeparator.
    unfold notSlash in Hc. destruct (code c =? 47); [discriminate|].
    now rewrite (IH Ha).
Qed.

Lemma rev_directory dir :
  dir = EmptyString \/ (exists d, dir = d ++ "/") ->
  rev dir = EmptyString \/ (exists b', rev dir = String "/" b').
Proof.
  intros [->|(d & ->)]; [left; reflexivity|].
  right. exists (rev d). rewrite rev_app. reflexivity.
Qed.

Lemma Base_of_root slashes :
  slashes <> EmptyString ->
  every filepath.IsPathSeparator slashes = true ->
  filepath.Base slashes = "/".
Proof.
  intros Hne Hs. unfold filepath.Base.
  destruct slashes as [|c s] eqn:E; [contradiction|]. rewrite <- E in *.
  rewrite <- (append_nil_r (rev slashes)).
  rewrite dropSeparators_slashes by (now rewrite every_rev).
  reflexivity.
Qed.

Lemma Base_of_element dir name slashes :
  name <> EmptyString ->
  every notSlash name = true ->
  every filepath.IsPathSeparator slashes = true ->
  dir = EmptyString \/ (exists d, dir = d ++ "/") ->
  filepath.Base (dir ++ name ++ slashes) = name.
Proof.
  intros Hne Hname Hs Hdir. unfold filepath.Base.
  destruct (dir ++ name ++ slashes) as [|c p] eqn:E.
  { apply append_nil_inv in E. destruct E as [_ E].
    apply append_nil_inv in E. destruct E as [E _]. contradiction. }
  rewrite <- E. clear E c p.
  rewrite rev_app, rev_app, append_assoc.
  rewrite dropSeparators_slashes by (now rewrite every_rev).
  destruct (rev name) as [|z r] eqn:Er.
  { elim Hne. apply rev_nil_inv. exact Er. }
  assert (Hzr : every notSlash (String z r) = true).
  { rewrite <- Er, every_rev. exact Hname. }
  cbn [append]. rewrite dropSeparators_element.
  2: { cbn [every] in Hzr. apply andb_prop in Hzr. apply Hzr. }
  change (String z (r ++ rev dir)) with (String z r ++ rev dir).
  rewrite (untilSeparator_element _ _ Hzr (rev_directory dir Hdir)).
  rewrite <- Er, rev_involutive.
  destruct name; [contradiction|reflexivity].
Qed.

(** The base name is what [filepath.Base] returns, and nothing else. *)
Lemma base_name_of_Base path f : base_name_of path f -> f = filepath.Base path.
Proof.
  intros [|s Hne Hs|dir name s Hne Hname Hs Hdir].
  - reflexivity.
  - symmetry. apply Base_of_root; assumption.
  - symmetry. apply Base_of_element; assumption.
Qed.

Lemma dropSeparators_split r :
  exists s,
    every filepath.IsPathSeparator s = true /\
    r = s ++ filepath.dropSeparators r /\
    (filepath.dropSeparators r = EmptyString \/
     exists z t, filepath.dropSeparators r = String z t /\ notSlash z = true).
Proof.
  induction r as [|c r IH].
  - exists EmptyString. cbn. auto.
  - cbn [filepath.dropSeparators].
    destruct (filepath.IsPathSeparator c) eqn:Ec.
    + destruct IH as (s & Hs & Hr & Ht).
      exists (String c s). cbn [every append]. rewrite Ec, Hs.
      split; [reflexivity|]. split; [now rewrite <- Hr|exact Ht].
    + exists EmptyString. split; [reflexivity|]. split; [reflexivity|].
      right. exists c, r. split; [reflexivity|].
      unfold notSlash. unfold filepath.IsPathSeparator in Ec. now rewrite Ec.
Qed.

Lemma untilSeparator_split t :
  exists v,
    t = filepath.untilSeparator t ++ v /\
    (v = EmptyString \/ exists v', v = String "/" v').
Proof.
  induction t as [|c t IH].
  - exists EmptyString. cbn. auto.
  - cbn [filepath.untilSeparator].
    destruct (filepath.IsPathSeparator c) eqn:Ec.
    + exists (String c t). split; [reflexivity|]. right. exists t.
      now rewrite (separator_slash c Ec).
    + destruct IH as (v & Ht & Hv). exists v. cbn [append].
      split; [now rewrite <- Ht|exact Hv].
Qed.

Lemma Base_base_name_of path : base_name_of path (filepath.Base path).
Proof.
  destruct path as [|c p] eqn:E; [constructor|]. rewrite <- E.
  assert (Hne : path <> EmptyString) by (rewrite E; discriminate).
  clear E c p.
  destruct (dropSeparators_split (rev path)) as (s & Hs & Hr & Ht).
  destruct Ht as [Ht|(z & t & Ht & Hz)].
  - rewrite Ht, append_nil_r in Hr.
    assert (Hp : every filepath.IsPathSeparator path = true).
    { rewrite <- every_rev, Hr. exact Hs. }
    rewrite (Base_of_root path Hne Hp). constructor; assumption.
  - destruct (untilSeparator_split (String z t)) as (v & Hu & Hv).
    set (u := filepath.untilSeparator (String z t)) in *.
    assert (Hpath : path = rev v ++ rev u ++ rev s).
    { rewrite <- (rev_involutive path), Hr, Ht, Hu.
      rewrite rev_app, rev_app, append_assoc. reflexivity. }
    assert (Hname : every notSlash (rev u) = true).
    { rewrite every_rev. apply untilSeparator_free. }
    assert (Hu1 : rev u <> EmptyString).
    { intro H. apply rev_nil_inv in H. subst u.
      cbn [filepath.untilSeparator] in H. unfold notSlash in Hz.
      unfold filepath.IsPathSeparator in H.
      destruct (code z =? 47); discriminate. }
    assert (Hdir : rev v = EmptyString \/ (exists d, rev v = d ++ "/")).
    { destruct Hv as [->|(v' & ->)]; [left; reflexivity|].
      right. exists (rev v'). apply rev_cons. }
    assert (Hs' : every filepath.IsPathSeparator (rev s) = true).
    { now rewrite every_rev. }
    rewrite Hpath.
    rewrite (Base_of_element (rev v) (rev u) (rev s) Hu1 Hname Hs' Hdir).
    constructor; assumption.
Qed.

(** ** The uploader *)

Ltac run_cli :=
  unfold cliUpload_iteration, Println2, bind, print, ret, osOpen, newWriter,
    clientDo;
  cbn [multipart.CreateFormFile multipart.Copy http.NewRequest].

(** How an iteration ends, and what it leaves on standard input. *)
Lemma iteration_control stdin w log :
  fst (cliUpload_iteration stdin w log)
  = (if String.eqb (strings.TrimSpace (nth_line 0 stdin)) "exit"
     then Break else Continue,
     snd (bufio.ReadString LF stdin)).
Proof.
  run_cli. cbn [nth_line].
  destruct (bufio.ReadString LF stdin) as [line rest]. cbn [fst snd].
  destruct (String.eqb (strings.TrimSpace line) "exit"); [reflexivity|].
  destruct (os_Open w _ _) as [file|e]; [|reflexivity].
  destruct (readErr file); [reflexivity|].
  destruct (client_Do w _ _) as [resp|e]; [|reflexivity].
  destruct (http.respBodyErr resp); reflexivity.
Qed.

(** What an iteration adds to the log; a request in it carries the base
    name of the path that was read. *)
Lemma iteration_emits stdin w log :
  let path := strings.TrimSpace (nth_line 0 stdin) in
  exists evs,
    snd (cliUpload_iteration stdin w log) = (log ++ evs)%list /\
    forall req, In req (sent evs) -> filenames req = [filepath.Base path].
Proof.
  run_cli. cbn [nth_line].
  destruct (bufio.ReadString LF stdin) as [line rest]. cbn [fst snd].
  destruct (String.eqb (strings.TrimSpace line) "exit").
  { eexists. split; [cbn [snd]; rewrite <- app_assoc; reflexivity|].
    cbn. tauto. }
  destruct (os_Open w _ _) as [file|e].
  2: { eexists. split; [cbn [snd]; rewrite <- app_assoc; reflexivity|].
       cbn. tauto. }
  destruct (readErr file).
  { eexists. split; [cbn [snd]; rewrite <- app_assoc; reflexivity|].
    cbn. tauto. }
  destruct (client_Do w _ _) as [resp|e].
  2: { eexists. split; [cbn [snd]; rewrite <- !app_assoc; reflexivity|].
       cbn. intros req [<-|[]]. reflexivity. }
  destruct (http.respBodyErr resp).
  - eexists. split; [cbn [snd]; rewrite <- !app_assoc; reflexivity|].
    cbn. intros req [<-|[]]. reflexivity.
  - eexists. split; [cbn [snd]; rewrite <- !app_assoc; reflexivity|].
    cbn. intros req [<-|[]]. reflexivity.
Qed.

(** C7: in every request the uploader sends, the multipart body has one
    part, and its file name is the base name of the path that was read
    (the trimmed line): the last element of the path, byte for byte, as
    [base_name_of] describes it without [filepath.Base], and no other
    text is a base name of that path.  In every request the relay sends
    for a form whose field [file] holds a first file, the body has one
    part and its file name is the file name received with that file,
    byte for byte. *)
Theorem filename_round_trip :
  (forall stdin w log,
     let path := strings.TrimSpace (nth_line 0 stdin) in
     Forall (fun req =>
               exists f,
                 filenames req = [f] /\ base_name_of path f /\
                 forall g, base_name_of path g -> g = f)
            (sent (emitted (cliUpload_iteration stdin) w log)))
  /\
  (forall c mf fh others w log,
     c.(fiber.MultipartForm) = Ok mf ->
     fiber.lookup "file" mf = Some (fh :: others) ->
     Forall (fun req => filenames req = [fh.(Filename)])
            (sent (emitted (upload_handler c) w log))).
Proof.
  split.
  - intros stdin w log path. apply Forall_forall. intros req Hin.
    destruct (iteration_emits stdin w log) as (evs & Hlog & Hall).
    rewrite (emitted_app _ _ _ _ Hlog) in Hin.
    exists (filepath.Base path). split; [apply Hall; exact Hin|].
    split; [apply Base_base_name_of|].
    intros g Hg. apply base_name_of_Base. exact Hg.
  - intros c mf fh others w log Hmf Hl. apply Forall_forall. intros req Hin.
    assert (Hf : fiber.FormFile c "file" = Ok fh).
    { unfold fiber.FormFile. rewrite Hmf, Hl. reflexivity. }
    destruct (handler_emits c w log) as [He|(fh' & req' & Hf' & Hn & He)];
      rewrite He in Hin; cbn in Hin; [tauto|].
    destruct Hin as [<-|[]]. congruence.
Qed.

Lemma filename_round_trip_witness :
  (sent (emitted (cliUpload_iteration ("  /home/me/cat.png" ++ str1 LF))
           (Stub.world (Stub.answer 200 "ok")) [])
   = [Stub.cli_request] /\
   Forall (fun req =>
             exists f,
               filenames req = [f] /\ base_name_of "/home/me/cat.png" f /\
               forall g, base_name_of "/home/me/cat.png" g -> g = f)
          (sent (emitted (cliUpload_iteration ("  /home/me/cat.png" ++ str1 LF))
                   (Stub.world (Stub.answer 200 "ok")) [])))
  /\
  (sent (emitted (upload_handler
                    (fiber.mkCtx (Ok [("file", [Stub.header; Stub.spooled])])))
           (Stub.world (Stub.answer 200 Stub.body_Qm123)) [])
   = [Stub.relay_request] /\
   Forall (fun req => filenames req = ["cat.png"])
          (sent (emitted (upload_handler
                            (fiber.mkCtx
                               (Ok [("file", [Stub.header; Stub.spooled])])))
                   (Stub.world (Stub.answer 200 Stub.body_Qm123)) []))).
Proof.
  split; (split; [reflexivity|]).
  - exact (proj1 filename_round_trip ("  /home/me/cat.png" ++ str1 LF)
             (Stub.world (Stub.answer 200 "ok")) []).
  - apply (proj2 filename_round_trip
             (fiber.mkCtx (Ok [("file", [Stub.header; Stub.spooled])]))
             [("file", [Stub.header; Stub.spooled])]
             Stub.header [Stub.spooled]).
    + reflexivity.
    + reflexivity.
Defined.

(** C8: an iteration that reads a line equal to [exit] once the white
    space around it is trimmed ends the loop, having printed the prompt
    and the farewell and sent no request; an iteration that reads anything
    else does not end it; so the loop has ended within [n] iterations
    exactly when one of the first [n] lines is such a line (at the end of
    the input the line read is empty, and the loop goes on). *)
Theorem exit_sentinel :
  (forall stdin w log,
     strings.TrimSpace (nth_line 0 stdin) = "exit" ->
     cliUpload_iteration stdin w log
     = ((Break, snd (bufio.ReadString LF stdin)),
        (log ++ [Printed prompt;
                 Printed ("Exiting CLI uploader." ++ str1 LF)])%list))
  /\
  (forall stdin w log,
     strings.TrimSpace (nth_line 0 stdin) <> "exit" ->
     fst (fst (cliUpload_iteration stdin w log)) = Continue)
  /\
  (forall n stdin w log,
     fst (fst (cliUpload n stdin w log)) = Break <->
     exists k, (k < n)%nat /\ strings.TrimSpace (nth_line k stdin) = "exit").
Proof.
  split; [|split].
  - intros stdin w log H. run_cli. cbn [nth_line] in H.
    destruct (bufio.ReadString LF stdin) as [line rest]. cbn [fst snd] in *.
    rewrite H. cbn [String.eqb Ascii.eqb Bool.eqb]. cbn.
    rewrite <- app_assoc. reflexivity.
  - intros stdin w log H. rewrite iteration_control. cbn [fst].
    apply String.eqb_neq in H. rewrite H. reflexivity.
  - induction n as [|n IH]; intros stdin w log.
    + cbn. split; [discriminate|]. intros (k & Hk & _). lia.
    + cbn [cliUpload]. unfold bind.
      pose proof (iteration_control stdin w log) as Hc.
      destruct (cliUpload_iteration stdin w log) as [[ctl rest] log'].
      cbn [fst] in Hc.
      destruct (String.eqb (strings.TrimSpace (nth_line 0 stdin)) "exit")
        eqn:E; inversion Hc; subst.
      * cbn. split; [|reflexivity]. intros _. exists 0%nat. split; [lia|].
        apply String.eqb_eq. exact E.
      * rewrite IH. split.
        -- intros (k & Hk & He). exists (S k). split; [lia|exact He].
        -- intros ([|k] & Hk & He).
           ++ apply String.eqb_neq in E. contradiction.
           ++ exists k. split; [lia|exact He].
Qed.

Lemma exit_sentinel_witness :
  cliUpload_iteration (" exit  " ++ str1 LF ++ "more")
    (Stub.world (Stub.answer 200 "ok")) []
  = ((Break, "more"),
     [Printed prompt; Printed ("Exiting CLI uploader." ++ str1 LF)]).
Proof.
  apply (proj1 exit_sentinel (" exit  " ++ str1 LF ++ "more")
           (Stub.world (Stub.answer 200 "ok")) []).
  reflexivity.
Defined.

(** At the end of the input the loop keeps prompting: three iterations on
    an input without [exit] leave it running. *)
Example uploader_runs_past_end_of_input :
  fst (fst (cliUpload 3 "a.png" (Stub.world (Stub.answer 200 "ok")) []))
  = Continue.
Proof. reflexivity. Qed.

(** C9: when the line read is not the sentinel, a path that cannot be
    opened makes the iteration print [Error opening file:] with the error
    and nothing else, so no request is sent; a file that cannot be read
    is reported in the same way; once the request is sent, an error of
    the exchange ([Upload failed:]) or of reading the answer
    ([Error reading response:]) is printed after it.  In each case the
    iteration ends with [Continue], and the loop goes on with the next
    iteration on the rest of the input. *)
Theorem uploader_errors_continue stdin w log :
  let path := strings.TrimSpace (nth_line 0 stdin) in
  let rest := snd (bufio.ReadString LF stdin) in
  let log1 := (log ++ [Printed prompt])%list in
  path <> "exit" ->
  (forall e,
     w.(os_Open) log1 path = Err e ->
     cliUpload_iteration stdin w log
     = ((Continue, rest),
        (log1 ++ [Printed ("Error opening file: " ++ e ++ str1 LF)])%list))
  /\
  (forall file e,
     w.(os_Open) log1 path = Ok file -> file.(readErr) = Some e ->
     cliUpload_iteration stdin w log
     = ((Continue, rest),
        (log1 ++ [Printed ("Error copying file: " ++ e ++ str1 LF)])%list))
  /\
  (forall file,
     w.(os_Open) log1 path = Ok file -> file.(readErr) = None ->
     exists req,
       (forall e,
          w.(client_Do) log1 req = Err e ->
          cliUpload_iteration stdin w log
          = ((Continue, rest),
             (log1 ++ [Sent req;
                       Printed ("Upload failed: " ++ e ++ str1 LF)])%list))
       /\
       (forall resp e,
          w.(client_Do) log1 req = Ok resp ->
          resp.(http.respBodyErr) = Some e ->
          cliUpload_iteration stdin w log
          = ((Continue, rest),
             (log1 ++ [Sent req;
                       Printed ("Error reading response: " ++ e
                                ++ str1 LF)])%list)))
  /\
  (forall n,
     cliUpload (S n) stdin w log
     = cliUpload n rest w (snd (cliUpload_iteration stdin w log))).
Proof.
  intros path rest log1 Hne. subst path rest log1. unfold prompt.
  apply String.eqb_neq in Hne.
  split; [|split; [|split]].
  - intros e He. revert He. run_cli. cbn [nth_line] in *.
    destruct (bufio.ReadString LF stdin) as [line tl]. cbn [fst snd] in *.
    rewrite Hne. intros ->. reflexivity.
  - intros file e Ho Hr. revert Ho. run_cli. cbn [nth_line] in *.
    destruct (bufio.ReadString LF stdin) as [line tl]. cbn [fst snd] in *.
    rewrite Hne. intros ->. rewrite Hr. reflexivity.
  - intros file Ho Hr. revert Ho. run_cli. cbn [nth_line] in *.
    destruct (bufio.ReadString LF stdin) as [line tl]. cbn [fst snd] in *.
    rewrite Hne. intros ->. rewrite Hr.
    match goal with
    | |- context [client_Do w _ (http.SetHeader ?a ?b ?c)] =>
        exists (http.SetHeader a b c)
    end.
    split.
    + intros e ->. rewrite <- (app_assoc (log ++ [_]) [Sent _] [_]).
      reflexivity.
    + intros resp e -> ->. rewrite <- (app_assoc (log ++ [_]) [Sent _] [_]).
      reflexivity.
  - intro n. cbn [cliUpload]. unfold bind.
    pose proof (iteration_control stdin w log) as Hc.
    rewrite Hne in Hc.
    destruct (cliUpload_iteration stdin w log) as [[ctl tl] log'].
    cbn [fst snd] in *. inversion Hc. reflexivity.
Qed.

Lemma uploader_errors_continue_witness :
  cliUpload_iteration ("/no/such.png" ++ str1 LF)
    (Stub.world (Stub.answer 200 "ok")) []
  = ((Continue, EmptyString),
     [Printed prompt;
      Printed ("Error opening file: open /no/such.png: no such file or directory"
               ++ str1 LF)]).
Proof.
  apply (proj1 (uploader_errors_continue ("/no/such.png" ++ str1 LF)
                  (Stub.world (Stub.answer 200 "ok")) []
                  ltac:(discriminate))
           "open /no/such.png: no such file or directory").
  reflexivity.
Defined.

(* ================================================================== *)
(** * Further properties *)

(** ** Further properties of the relay *)

Lemma uploadToIPFS_request file fh w log :
  file.(readErr) = None ->
  uploadToIPFS file fh w log
  = (interpret (w.(client_Do) log (provider_request w log fh file)),
     (log ++ [Sent (provider_request w log fh file)])%list).
Proof.
  intro Hread.
  unfold uploadToIPFS, bind, getenv, newWriter, clientDo, ret.
  cbn [multipart.CreateFormFile multipart.Copy http.NewRequest].
  rewrite Hread.
  change (client_Do w log _) with (client_Do w log (provider_request w log fh file)).
  change (log ++ [Sent _])%list
    with (log ++ [Sent (provider_request w log fh file)])%list.
  destruct (client_Do w log _) as [resp | e]; cbn [interpret]; [|reflexivity].
  destruct (negb (http.StatusCode resp =? 200)); [reflexivity|].
  unfold sprintf1.
  destruct (unmarshal.Unmarshal _ _) as [p [e|]]; reflexivity.
Qed.

Lemma handler_request c w log fh file :
  valid_file_field c w log fh file ->
  upload_handler c w log
  = (respond (interpret (w.(client_Do) log (provider_request w log fh file))),
     (log ++ [Sent (provider_request w log fh file)])%list).
Proof.
  intros (Hform & Hopen & Hread).
  unfold upload_handler. rewrite Hform. unfold bind.
  pose proof (FileHeader_Open_log fh w log) as Hlog.
  destruct (FileHeader_Open fh w log) as [f log']. cbn in Hopen, Hlog. subst.
  rewrite (uploadToIPFS_request file fh w log Hread).
  destruct (interpret _); reflexivity.
Qed.

(** X1: for a request with a valid file field the relay sends exactly one
    request, and prints nothing: a [POST] to the provider's pinning
    endpoint, whose closed multipart body has the single part [file] with
    the file name received and the bytes of the file, and on which the
    headers set are the content type of that body and the two credentials
    read from the environment. *)
Theorem relay_forwards_file c w log fh file :
  valid_file_field c w log fh file ->
  emitted (upload_handler c) w log = [Sent (provider_request w log fh file)].
Proof.
  intro Hv. apply emitted_app. now rewrite (handler_request c w log fh file Hv).
Qed.

Lemma relay_forwards_file_witness :
  emitted (upload_handler Stub.request)
    (Stub.world (Stub.answer 200 Stub.body_Qm123)) []
  = [Sent Stub.relay_request].
Proof.
  apply (relay_forwards_file Stub.request
           (Stub.world (Stub.answer 200 Stub.body_Qm123)) []
           Stub.header (mkFile "PNG" None)).
  repeat split.
Defined.

(** X2: when the file of the field opens but cannot be read to its end,
    the relay answers with status 500 and the read error as [error]; the
    provider is not contacted. *)
Theorem relay_read_failure c w log fh file e :
  fiber.FormFile c "file" = Ok fh ->
  fst (FileHeader_Open fh w log) = Ok file ->
  file.(readErr) = Some e ->
  upload_handler c w log = (fiber.JSON 500 [("error", e)], log).
Proof.
  intros Hf Ho Hr. unfold upload_handler. rewrite Hf. unfold bind.
  pose proof (FileHeader_Open_log fh w log) as Hl.
  destruct (FileHeader_Open fh w log) as [r log']. cbn in Ho, Hl. subst.
  rewrite (uploadToIPFS_read_error file fh w log e Hr). reflexivity.
Qed.

(** X3: for a request with a valid file field, when the exchange with the
    provider fails ([client.Do] returns an error), the relay answers with
    status 500 and that error as [error], having sent the one request. *)
Theorem relay_network_failure c w log fh file e :
  valid_file_field c w log fh file ->
  w.(client_Do) log (provider_request w log fh file) = Err e ->
  upload_handler c w log
  = (fiber.JSON 500 [("error", e)],
     (log ++ [Sent (provider_request w log fh file)])%list).
Proof.
  intros Hv He. rewrite (handler_request c w log fh file Hv), He. reflexivity.
Qed.

Lemma relay_network_failure_witness :
  upload_handler Stub.request (Stub.world (Err "dial tcp: i/o timeout")) []
  = (fiber.JSON 500 [("error", "dial tcp: i/o timeout")],
     [Sent Stub.relay_request]).
Proof.
  apply (relay_network_failure Stub.request
           (Stub.world (Err "dial tcp: i/o timeout")) []
           Stub.header (mkFile "PNG" None)).
  - repeat split.
  - reflexivity.
Defined.

Lemma relay_read_failure_witness :
  upload_handler Stub.request_spooled
    (Faulty.unreadable (Stub.answer 200 Stub.body_Qm123)) []
  = (fiber.JSON 500 [("error", Faulty.read_error)], []).
Proof.
  apply (relay_read_failure Stub.request_spooled _ [] Stub.spooled
           (mkFile "PN" (Some Faulty.read_error))).
  - reflexivity.
  - reflexivity.
  - reflexivity.
Defined.

(** *** Valid JSON of another shape *)

Lemma handler_200 c w log fh file resp :
  valid_file_field c w log fh file ->
  provider_responds w log resp ->
  resp.(http.StatusCode) = 200 ->
  fst (upload_handler c w log)
  = match unmarshal.Unmarshal resp.(http.respBody)
            (mkPinataResponse EmptyString) with
    | (_, Some err) => fiber.JSON 500 [("error", err)]
    | (p, None) =>
      fiber.JSON 200 [("ipfs_url", "https://ipfs.io/ipfs/" ++ p.(IpfsHash))]
    end.
Proof.
  intros Hv Hp Hst.
  rewrite (handler_request c w log fh file Hv), (Hp _).
  cbn [fst interpret]. rewrite Hst. cbn [Z.eqb Pos.eqb negb].
  destruct (unmarshal.Unmarshal _ _) as [p [e|]]; reflexivity.
Qed.

(** X4: for a request with a valid file field, when the provider answers
    with status 200 and a body that is valid JSON but not an object:
    [null] is taken as an empty [PinataResponse], and the relay answers
    200 with the gateway prefix alone; a boolean, a number, a string or
    an array makes it answer 500 with the decoder's type error,
    [json: cannot unmarshal <kind> into Go value of type
    main.PinataResponse]. *)
Theorem relay_json_not_an_object c w log fh file resp x :
  valid_file_field c w log fh file ->
  provider_responds w log resp ->
  resp.(http.StatusCode) = 200 ->
  json.checkValid resp.(http.respBody) = None ->
  json.parse resp.(http.respBody) = Some x ->
  (x = json.JNull ->
   fst (upload_handler c w log)
   = json_response 200 "ipfs_url" "https://ipfs.io/ipfs/")
  /\
  (x <> json.JNull -> (forall ms, x <> json.JObject ms) ->
   fst (upload_handler c w log)
   = fiber.JSON 500
       [("error", "json: cannot unmarshal " ++ unmarshal.kindName x
                  ++ " into Go value of type main.PinataResponse")]).
Proof.
  intros Hv Hp Hst Hvalid Hparse.
  rewrite (handler_200 c w log fh file resp Hv Hp Hst).
  unfold unmarshal.Unmarshal. rewrite Hvalid, Hparse.
  split.
  - intros ->. reflexivity.
  - intros Hn Ho. destruct x; try reflexivity.
    + contradiction.
    + elim (Ho members). reflexivity.
Qed.

Lemma relay_json_not_an_object_witness :
  fst (upload_handler Stub.request (Stub.world (Stub.answer 200 "[1, 2]")) [])
  = fiber.JSON 500
      [("error", "json: cannot unmarshal array into Go value of type main.PinataResponse")].
Proof.
  apply (relay_json_not_an_object Stub.request
           (Stub.world (Stub.answer 200 "[1, 2]")) []
           Stub.header (mkFile "PNG" None)
           (http.mkResponse 200 "[1, 2]" None)
           (json.JArray [json.JNumber "1"; json.JNumber "2"])).
  - repeat split.
  - intro req. reflexivity.
  - reflexivity.
  - reflexivity.
  - reflexivity.
  - discriminate.
  - discriminate.
Defined.

(** *** The members of an object *)

Lemma object_saved ms : forall v e,
  snd (unmarshal.object ms v (Some e)) = Some e.
Proof.
  induction ms as [|[k x] ms IH]; intros v e; cbn [unmarshal.object];
    [reflexivity|].
  destruct (unmarshal.isField k); [|apply IH].
  destruct x; cbn [unmarshal.saveError]; apply IH.
Qed.

Lemma object_app a : forall b v s,
  unmarshal.object (a ++ b) v s
  = unmarshal.object b (fst (unmarshal.object a v s))
      (snd (unmarshal.object a v s)).
Proof.
  induction a as [|[k x] a IH]; intros b v s; cbn [app unmarshal.object];
    [reflexivity|].
  destruct (unmarshal.isField k); [|apply IH].
  destruct x; apply IH.
Qed.

Lemma object_well_typed ms : forall v,
  well_typed ms -> snd (unmarshal.object ms v None) = None.
Proof.
  induction ms as [|[k x] ms IH]; intros v H; cbn [unmarshal.object];
    [reflexivity|].
  assert (Hms : well_typed ms).
  { intros k' x' Hin. apply H. right. exact Hin. }
  destruct (unmarshal.isField k) eqn:Ek; [|apply IH; exact Hms].
  pose proof (H k x (or_introl eq_refl) Ek) as Hx.
  destruct x; try discriminate; apply IH; exact Hms.
Qed.

(** X5: for a request with a valid file field, when the provider answers
    with status 200 and an object in which a member that selects the
    field [IpfsHash] holds neither a string nor [null], the relay answers
    500 with the type error of the first such member, whatever the
    members after it hold (a well-formed identifier included). *)
Theorem relay_field_type_error c w log fh file resp before k x after :
  valid_file_field c w log fh file ->
  provider_responds w log resp ->
  resp.(http.StatusCode) = 200 ->
  json.checkValid resp.(http.respBody) = None ->
  json.parse resp.(http.respBody)
    = Some (json.JObject (before ++ (k, x) :: after)) ->
  well_typed before ->
  unmarshal.isField k = true -> storable x = false ->
  fst (upload_handler c w log)
  = fiber.JSON 500
      [("error", "json: cannot unmarshal " ++ unmarshal.kindName x
                 ++ " into Go struct field PinataResponse.IpfsHash of type string")].
Proof.
  intros Hv Hp Hst Hvalid Hparse Hbefore Hk Hx.
  rewrite (handler_200 c w log fh file resp Hv Hp Hst).
  unfold unmarshal.Unmarshal. rewrite Hvalid, Hparse.
  cbn [unmarshal.store]. rewrite object_app.
  rewrite (object_well_typed before _ Hbefore).
  cbn [unmarshal.object]. rewrite Hk.
  set (v := fst (unmarshal.object before _ None)).
  assert (He : snd (unmarshal.object ((k, x) :: after) v None)
               = Some (unmarshal.typeErrorField x)).
  { cbn [unmarshal.object]. rewrite Hk.
    destruct x; try discriminate; cbn [unmarshal.saveError];
      apply object_saved. }
  cbn [unmarshal.object] in He. rewrite Hk in He.
  destruct x; try discriminate;
    match goal with
    | |- context [unmarshal.object after ?a ?b] =>
        destruct (unmarshal.object after a b) as [p o]
    end; cbn [snd] in He; subst o; reflexivity.
Qed.

(** X6: for a request with a valid file field, when the provider answers
    with status 200 and an object whose last member selects the field
    [IpfsHash] (by its name, in any case of letters) and holds a string,
    and no member before it is of a wrong type, the URL of the answer is
    made of that string: a later member overrides the earlier ones. *)
Theorem relay_last_member_wins c w log fh file resp before k h :
  valid_file_field c w log fh file ->
  provider_responds w log resp ->
  resp.(http.StatusCode) = 200 ->
  json.checkValid resp.(http.respBody) = None ->
  json.parse resp.(http.respBody)
    = Some (json.JObject (before ++ [(k, json.JString h)])) ->
  well_typed before ->
  unmarshal.isField k = true ->
  fst (upload_handler c w log)
  = fiber.JSON 200 [("ipfs_url", "https://ipfs.io/ipfs/" ++ h)].
Proof.
  intros Hv Hp Hst Hvalid Hparse Hbefore Hk.
  rewrite (handler_200 c w log fh file resp Hv Hp Hst).
  unfold unmarshal.Unmarshal. rewrite Hvalid, Hparse.
  cbn [unmarshal.store]. rewrite object_app.
  rewrite (object_well_typed before _ Hbefore).
  cbn [unmarshal.object]. rewrite Hk. reflexivity.
Qed.

Lemma relay_field_type_error_witness :
  fst (upload_handler Stub.request
         (Stub.world (Stub.answer 200
            ("{" ++ quoted "IpfsHash" ++ ":1," ++ quoted "IpfsHash" ++ ":"
                 ++ quoted "Qm123" ++ "}"))) [])
  = fiber.JSON 500
      [("error", "json: cannot unmarshal number into Go struct field PinataResponse.IpfsHash of type string")].
Proof.
  apply relay_field_type_error
    with (fh := Stub.header) (file := mkFile "PNG" None)
         (resp := http.mkResponse 200
                    ("{" ++ quoted "IpfsHash" ++ ":1," ++ quoted "IpfsHash"
                         ++ ":" ++ quoted "Qm123" ++ "}") None)
         (before := []) (k := "IpfsHash") (x := json.JNumber "1")
         (after := [("IpfsHash", json.JString "Qm123")]).
  - repeat split.
  - intro req. reflexivity.
  - reflexivity.
  - reflexivity.
  - reflexivity.
  - intros k x [].
  - reflexivity.
  - reflexivity.
Defined.

Lemma relay_last_member_wins_witness :
  fst (upload_handler Stub.request
         (Stub.world (Stub.answer 200
            ("{" ++ quoted "IpfsHash" ++ ":" ++ quoted "Qm1" ++ ","
                 ++ quoted "ipfshash" ++ ":" ++ quoted "Qm2" ++ "}"))) [])
  = fiber.JSON 200 [("ipfs_url", "https://ipfs.io/ipfs/Qm2")].
Proof.
  apply relay_last_member_wins
    with (fh := Stub.header) (file := mkFile "PNG" None)
         (resp := http.mkResponse 200
                    ("{" ++ quoted "IpfsHash" ++ ":" ++ quoted "Qm1" ++ ","
                         ++ quoted "ipfshash" ++ ":" ++ quoted "Qm2" ++ "}")
                    None)
         (before := [("IpfsHash", json.JString "Qm1")]) (k := "ipfshash").
  - repeat split.
  - intro req. reflexivity.
  - reflexivity.
  - reflexivity.
  - reflexivity.
  - intros k x [H|[]] _. inversion H. reflexivity.
  - reflexivity.
Defined.

Lemma uploadToIPFS_body_error file fh w log status body e :
  uploadToIPFS file fh
    (with_answer w (Ok (http.mkResponse status body (Some e)))) log
  = uploadToIPFS file fh
      (with_answer w (Ok (http.mkResponse status body None))) log.
Proof.
  unfold uploadToIPFS, bind, getenv, newWriter, clientDo, ret.
  cbv [multipart.CreateFormFile multipart.Copy http.NewRequest with_answer
       client_Do Getenv randomBoundary http.StatusCode http.respBody].
  destruct (readErr file); [reflexivity|].
  destruct (negb (status =? 200)); [reflexivity|].
  destruct (unmarshal.Unmarshal body _) as [p [e'|]]; reflexivity.
Qed.

(** X7: the relay ignores an error of reading the provider's response
    body: with the same status and the same bytes read, it answers and
    emits the same whether or not the reading ended in an error. *)
Theorem relay_ignores_body_read_error c w log status body e :
  upload_handler c
    (with_answer w (Ok (http.mkResponse status body (Some e)))) log
  = upload_handler c
      (with_answer w (Ok (http.mkResponse status body None))) log.
Proof.
  unfold upload_handler.
  destruct (fiber.FormFile c "file") as [fh|e1]; [|reflexivity].
  unfold bind.
  assert (Ho : forall r, FileHeader_Open fh (with_answer w r) log
                         = FileHeader_Open fh w log).
  { intro r. unfold FileHeader_Open. destruct (content fh); reflexivity. }
  rewrite !Ho.
  destruct (FileHeader_Open fh w log) as [[file|e2] log']; [|reflexivity].
  rewrite uploadToIPFS_body_error.
  destruct (uploadToIPFS file fh _ log') as [[u|e3] l]; reflexivity.
Qed.

(** X8: for a request with a valid file field, when the provider answers
    with status 200 and valid JSON, the decoder gives a value (it does not
    get out of step with the scanner, where Go would panic), and the
    answer of the relay is the one that value determines: 500 with the
    error of storing it, or 200 with the URL of the identifier stored. *)
Theorem relay_decodes_valid_json c w log fh file resp :
  valid_file_field c w log fh file ->
  provider_responds w log resp ->
  resp.(http.StatusCode) = 200 ->
  json.checkValid resp.(http.respBody) = None ->
  exists x,
    json.parse resp.(http.respBody) = Some x /\
    fst (upload_handler c w log)
    = match unmarshal.store x (mkPinataResponse EmptyString) with
      | (_, Some err) => fiber.JSON 500 [("error", err)]
      | (p, None) =>
        fiber.JSON 200 [("ipfs_url", "https://ipfs.io/ipfs/" ++ p.(IpfsHash))]
      end.
Proof.
  intros Hv Hp Hst Hvalid.
  destruct (checkValid_parse _ Hvalid) as (x & Hx).
  exists x. split; [exact Hx|].
  rewrite (handler_200 c w log fh file resp Hv Hp Hst).
  unfold unmarshal.Unmarshal. rewrite Hvalid, Hx. reflexivity.
Qed.

Lemma relay_decodes_valid_json_witness :
  exists x,
    json.parse "true" = Some x /\
    fst (upload_handler Stub.request (Stub.world (Stub.answer 200 "true")) [])
    = match unmarshal.store x (mkPinataResponse EmptyString) with
      | (_, Some err) => fiber.JSON 500 [("error", err)]
      | (p, None) =>
        fiber.JSON 200 [("ipfs_url", "https://ipfs.io/ipfs/" ++ p.(IpfsHash))]
      end.
Proof.
  apply (relay_decodes_valid_json Stub.request
           (Stub.world (Stub.answer 200 "true")) []
           Stub.header (mkFile "PNG" None)
           (http.mkResponse 200 "true" None)).
  - repeat split.
  - intro req. reflexivity.
  - reflexivity.
  - reflexivity.
Defined.

(** X9: for every ASCII identifier [h], when the provider answers a request
    with a valid file field with status 200 and the JSON text Go's encoder
    writes for the object with the single member [IpfsHash] holding [h]
    (escapes included), the relay answers 200 with the URL made of the
    gateway prefix and [h] itself. *)
Theorem relay_reads_written_hash c w log fh file resp h :
  valid_file_field c w log fh file ->
  provider_responds w log resp ->
  resp.(http.StatusCode) = 200 ->
  resp.(http.respBody) = json.Marshal [("IpfsHash", h)] ->
  isASCII h = true ->
  fst (upload_handler c w log)
  = fiber.JSON 200 [("ipfs_url", "https://ipfs.io/ipfs/" ++ h)].
Proof.
  intros Hv Hp Hst Hbody Hh.
  rewrite (handler_200 c w log fh file resp Hv Hp Hst), Hbody.
  destruct (marshal_reads_from "IpfsHash" h _ _ eq_refl eq_refl
              (fun _ => eq_refl) (fun _ => eq_refl))
    as (Hvalid & t & Ht & Hparse).
  rewrite (unquote_escape_ascii h Hh) in Ht. inversion Ht. subst t.
  unfold unmarshal.Unmarshal. rewrite Hvalid, Hparse. reflexivity.
Qed.

Lemma relay_reads_written_hash_witness :
  fst (upload_handler Stub.request
         (Stub.world (Stub.answer 200 (json.Marshal [("IpfsHash", "Qm<1>")])))
         [])
  = fiber.JSON 200 [("ipfs_url", "https://ipfs.io/ipfs/Qm<1>")].
Proof.
  apply (relay_reads_written_hash Stub.request
           (Stub.world (Stub.answer 200 (json.Marshal [("IpfsHash", "Qm<1>")])))
           [] Stub.header (mkFile "PNG" None)
           (http.mkResponse 200 (json.Marshal [("IpfsHash", "Qm<1>")]) None)).
  - repeat split.
  - intro req. reflexivity.
  - reflexivity.
  - reflexivity.
  - reflexivity.
Defined.

(** X10: when the request has no valid file field (the field is missing, or
    its file cannot be opened, or cannot be read), the relay emits
    nothing: the provider is not contacted. *)
Theorem relay_silent_without_file c w log :
  (forall fh file, ~ valid_file_field c w log fh file) ->
  emitted (upload_handler c) w log = [].
Proof.
  intro Hno. apply emitted_app. rewrite app_nil_r.
  destruct (fiber.FormFile c "file") as [fh|e] eqn:Hf.
  2: { now rewrite (handler_no_file c w log e Hf). }
  destruct (fst (FileHeader_Open fh w log)) as [file|e] eqn:Ho.
  2: { now rewrite (handler_open_error c w log fh e Hf Ho). }
  destruct (readErr file) as [e|] eqn:Hr.
  - unfold upload_handler. rewrite Hf. unfold bind.
    pose proof (FileHeader_Open_log fh w log) as Hl.
    destruct (FileHeader_Open fh w log) as [r log']. cbn in Ho, Hl. subst.
    rewrite (uploadToIPFS_read_error file fh w log e Hr). reflexivity.
  - elim (Hno fh file). repeat split; assumption.
Qed.

Lemma relay_silent_without_file_witness :
  emitted (upload_handler Stub.request_no_file)
    (Stub.world (Stub.answer 200 Stub.body_Qm123)) []
  = [].
Proof.
  apply relay_silent_without_file.
  intros fh file (Hf & _). vm_compute in Hf. discriminate.
Defined.

(** ** Further properties of the uploader *)

Lemma sent_app a b : sent (a ++ b) = (sent a ++ sent b)%list.
Proof.
  induction a as [|[req|text] a IH]; cbn [app sent]; [reflexivity| |exact IH].
  now rewrite IH.
Qed.

(** An iteration in full, case by case. *)
Lemma iteration_run stdin w log :
  let path := strings.TrimSpace (nth_line 0 stdin) in
  let rest := snd (bufio.ReadString LF stdin) in
  let log1 := (log ++ [Printed prompt])%list in
  let req file := uploader_request w log1 path file in
  cliUpload_iteration stdin w log
  = if String.eqb path "exit"
    then ((Break, rest),
          (log1 ++ [Printed ("Exiting CLI uploader." ++ str1 LF)])%list)
    else
      match w.(os_Open) log1 path with
      | Err e =>
        ((Continue, rest),
         (log1 ++ [Printed ("Error opening file: " ++ e ++ str1 LF)])%list)
      | Ok file =>
        match file.(readErr) with
        | Some e =>
          ((Continue, rest),
           (log1 ++ [Printed ("Error copying file: " ++ e ++ str1 LF)])%list)
        | None =>
          match w.(client_Do) log1 (req file) with
          | Err e =>
            ((Continue, rest),
             (log1 ++ [Sent (req file);
                       Printed ("Upload failed: " ++ e ++ str1 LF)])%list)
          | Ok resp =>
            match resp.(http.respBodyErr) with
            | Some e =>
              ((Continue, rest),
               (log1 ++ [Sent (req file);
                         Printed ("Error reading response: " ++ e
                                  ++ str1 LF)])%list)
            | None =>
              ((Continue, rest),
               (log1 ++ [Sent (req file);
                         Printed ("Response from server: "
                                  ++ resp.(http.respBody) ++ str1 LF)])%list)
            end
          end
        end
      end.
Proof.
  intros path rest log1 req. subst path rest log1 req. unfold prompt.
  run_cli. cbn [nth_line].
  destruct (bufio.ReadString LF stdin) as [line tl]. cbn [fst snd].
  destruct (String.eqb (strings.TrimSpace line) "exit"); [reflexivity|].
  destruct (os_Open w _ _) as [file|e]; [|reflexivity].
  destruct (readErr file); [reflexivity|].
  change (http.SetHeader _ "Content-Type" _)
    with (uploader_request w (log ++ [Printed prompt])%list
            (strings.TrimSpace line) file).
  unfold prompt.
  destruct (client_Do w _ _) as [resp|e].
  - destruct (http.respBodyErr resp);
      rewrite <- (app_assoc (log ++ [_]) [Sent _] [_]); reflexivity.
  - rewrite <- (app_assoc (log ++ [_]) [Sent _] [_]); reflexivity.
Qed.

(** X11: when the line read is not the sentinel, the file opens and reads,
    the request is answered and the answer is read, the iteration sends
    the one request (a [POST] to the local endpoint with the file under
    the base name of the path), prints [Response from server: ] followed
    by the body as it was received and a new line, whatever the status of
    the answer, and the loop goes on. *)
Theorem uploader_prints_answer stdin w log file resp :
  let path := strings.TrimSpace (nth_line 0 stdin) in
  let rest := snd (bufio.ReadString LF stdin) in
  let log1 := (log ++ [Printed prompt])%list in
  path <> "exit" ->
  w.(os_Open) log1 path = Ok file ->
  file.(readErr) = None ->
  w.(client_Do) log1 (uploader_request w log1 path file) = Ok resp ->
  resp.(http.respBodyErr) = None ->
  cliUpload_iteration stdin w log
  = ((Continue, rest),
     (log1 ++ [Sent (uploader_request w log1 path file);
               Printed ("Response from server: " ++ resp.(http.respBody)
                        ++ str1 LF)])%list).
Proof.
  intros path rest log1 Hne Ho Hr Hd Hb.
  pose proof (iteration_run stdin w log) as H. cbv zeta in H.
  fold path rest log1 in H.
  apply String.eqb_neq in Hne.
  rewrite Hne, Ho, Hr, Hd, Hb in H. exact H.
Qed.

Lemma uploader_prints_answer_witness :
  cliUpload_iteration ("/home/me/cat.png" ++ str1 LF)
    (Stub.world (Stub.answer 404 "Cannot POST /upload")) []
  = ((Continue, EmptyString),
     [Printed prompt; Sent Stub.cli_request;
      Printed ("Response from server: Cannot POST /upload" ++ str1 LF)]).
Proof.
  apply (uploader_prints_answer ("/home/me/cat.png" ++ str1 LF)
           (Stub.world (Stub.answer 404 "Cannot POST /upload")) []
           (mkFile "PNG" None)
           (http.mkResponse 404 "Cannot POST /upload" None)).
  - discriminate.
  - reflexivity.
  - reflexivity.
  - reflexivity.
  - reflexivity.
Defined.

(** *** The file name sent *)

(** What an iteration adds to the log. *)
Lemma iteration_transcript stdin w log :
  exists mid report,
    snd (cliUpload_iteration stdin w log)
    = (log ++ Printed prompt :: mid ++ [Printed report])%list /\
    (mid = [] \/
     exists file,
       mid = [Sent (uploader_request w (log ++ [Printed prompt])%list
                      (strings.TrimSpace (nth_line 0 stdin)) file)]).
Proof.
  pose proof (iteration_run stdin w log) as H. cbv zeta in H. rewrite H.
  destruct (String.eqb _ "exit").
  { exists [], ("Exiting CLI uploader." ++ str1 LF). cbn [snd app].
    rewrite <- app_assoc. auto. }
  destruct (os_Open w _ _) as [file|e].
  2: { exists [], ("Error opening file: " ++ e ++ str1 LF). cbn [snd app].
       rewrite <- app_assoc. auto. }
  destruct (readErr file) as [e|].
  { exists [], ("Error copying file: " ++ e ++ str1 LF). cbn [snd app].
    rewrite <- app_assoc. auto. }
  destruct (client_Do w _ _) as [resp|e].
  2: { eexists [Sent _], _. cbn [snd app]. rewrite <- app_assoc.
       split; [reflexivity|]. right. exists file. reflexivity. }
  destruct (http.respBodyErr resp) as [e|];
    (eexists [Sent _], _; cbn [snd app]; rewrite <- app_assoc;
     split; [reflexivity|]; right; exists file; reflexivity).
Qed.

(** X12: every iteration of the uploader emits the prompt first and a line
    of report last, with at most one request in between; the request is
    a [POST] to [http://localhost:3000/upload] on which the content type
    is the only header set (no credentials), with a closed body of one
    part named [file]. *)
Theorem uploader_iteration_transcript stdin w log :
  exists mid report,
    emitted (cliUpload_iteration stdin) w log
    = Printed prompt :: mid ++ [Printed report] /\
    (mid = [] \/ exists req, mid = [Sent req] /\ to_relay req).
Proof.
  destruct (iteration_transcript stdin w log) as (mid & report & Hlog & Hmid).
  exists mid, report. split; [apply emitted_app; exact Hlog|].
  destruct Hmid as [->|(file & ->)]; [left; reflexivity|].
  right. eexists. split; [reflexivity|]. repeat split.
Qed.

(** X13: the file name in a request the uploader sends is never empty, and
    holds no slash unless it is [/] itself. *)
Theorem uploader_file_name_shape stdin w log :
  Forall (fun req => exists f, filenames req = [f] /\ base_name f)
         (sent (emitted (cliUpload_iteration stdin) w log)).
Proof.
  destruct (iteration_transcript stdin w log) as (mid & report & Hlog & Hmid).
  rewrite (emitted_app _ _ _ _ Hlog).
  destruct Hmid as [->|(file & ->)]; cbn [app sent]; constructor; [|constructor].
  eexists. split; [reflexivity|]. apply Base_shape.
Qed.

(** X14: when the path read is a directory, a slash and a last element
    (not empty, without a slash), the file name in the request sent is
    that last element. *)
Theorem uploader_sends_last_element stdin w log dir name :
  name <> EmptyString ->
  every notSlash name = true ->
  strings.TrimSpace (nth_line 0 stdin) = dir ++ "/" ++ name ->
  Forall (fun req => filenames req = [name])
         (sent (emitted (cliUpload_iteration stdin) w log)).
Proof.
  intros Hne Hfree Hpath.
  destruct (iteration_transcript stdin w log) as (mid & report & Hlog & Hmid).
  rewrite (emitted_app _ _ _ _ Hlog).
  destruct Hmid as [->|(file & ->)]; cbn [app sent]; constructor; [|constructor].
  unfold filenames, uploader_request.
  cbn [http.Body multipart.parts map multipart.FileName]. rewrite Hpath.
  now rewrite (Base_last dir name Hne Hfree).
Qed.

Lemma uploader_sends_last_element_witness :
  Forall (fun req => filenames req = ["cat.png"])
    (sent (emitted (cliUpload_iteration ("/home/me/cat.png" ++ str1 LF))
             (Stub.world (Stub.answer 200 "ok")) [])).
Proof.
  apply (uploader_sends_last_element ("/home/me/cat.png" ++ str1 LF)
           (Stub.world (Stub.answer 200 "ok")) [] "/home/me" "cat.png").
  - discriminate.
  - reflexivity.
  - reflexivity.
Defined.

(** *** The loop *)

Lemma ReadString_split d s :
  fst (bufio.ReadString d s) ++ snd (bufio.ReadString d s) = s.
Proof.
  induction s as [|c s IH]; cbn [bufio.ReadString]; [reflexivity|].
  destruct (Ascii.eqb c d); [reflexivity|].
  destruct (bufio.ReadString d s) as [l r]. cbn [fst snd append] in *.
  now rewrite IH.
Qed.

(** One more iteration of the loop. *)
Lemma cliUpload_S n stdin w log :
  cliUpload (S n) stdin w log
  = if String.eqb (strings.TrimSpace (nth_line 0 stdin)) "exit"
    then ((Break, snd (bufio.ReadString LF stdin)),
          snd (cliUpload_iteration stdin w log))
    else cliUpload n (snd (bufio.ReadString LF stdin)) w
           (snd (cliUpload_iteration stdin w log)).
Proof.
  cbn [cliUpload]. unfold bind.
  pose proof (iteration_control stdin w log) as Hc.
  destruct (cliUpload_iteration stdin w log) as [[ctl tl] log'].
  cbn [fst snd] in *.
  destruct (String.eqb _ "exit"); inversion Hc; reflexivity.
Qed.

Lemma rounds_S n stdin :
  rounds (S n) stdin
  = if String.eqb (strings.TrimSpace (nth_line 0 stdin)) "exit"
    then 1%nat else S (rounds n (snd (bufio.ReadString LF stdin))).
Proof.
  cbn [rounds nth_line].
  destruct (bufio.ReadString LF stdin) as [line rest]. reflexivity.
Qed.

Lemma rounds_le n : forall stdin, (rounds n stdin <= n)%nat.
Proof.
  induction n as [|n IH]; intro stdin; [cbn; lia|].
  rewrite rounds_S. destruct (String.eqb _ "exit"); [lia|].
  specialize (IH (snd (bufio.ReadString LF stdin))). lia.
Qed.

Lemma iteration_requests stdin w log :
  exists evs,
    snd (cliUpload_iteration stdin w log) = (log ++ evs)%list /\
    (List.length (sent evs) <= 1)%nat /\ Forall to_relay (sent evs).
Proof.
  destruct (iteration_transcript stdin w log) as (mid & report & Hlog & Hmid).
  eexists. split; [exact Hlog|].
  destruct Hmid as [->|(file & ->)]; cbn [app sent List.length].
  - split; [lia|constructor].
  - split; [lia|]. constructor; [|constructor]. repeat split.
Qed.

Lemma loop_requests n : forall stdin w log,
  exists evs,
    snd (cliUpload n stdin w log) = (log ++ evs)%list /\
    (List.length (sent evs) <= rounds n stdin)%nat /\
    Forall to_relay (sent evs).
Proof.
  induction n as [|n IH]; intros stdin w log.
  - exists []. cbn. rewrite app_nil_r. repeat split; [lia|constructor].
  - rewrite cliUpload_S, rounds_S.
    destruct (iteration_requests stdin w log) as (evs & Hlog & Hlen & Hall).
    destruct (String.eqb _ "exit").
    + exists evs. cbn [snd]. auto.
    + rewrite Hlog.
      destruct (IH (snd (bufio.ReadString LF stdin)) w (log ++ evs)%list)
        as (evs' & Hlog' & Hlen' & Hall').
      exists (evs ++ evs')%list. rewrite Hlog', <- app_assoc.
      split; [reflexivity|]. rewrite sent_app, length_app.
      split; [lia|]. apply Forall_app. auto.
Qed.

(** X15: over [n] iterations at most, the uploader sends no more requests
    than the iterations it runs (those up to and including the one that
    reads the sentinel), which are [n] at most; and each request is
    addressed to the relay as in X12. *)
Theorem uploader_requests n stdin w log :
  (List.length (sent (emitted (cliUpload n stdin) w log)) <= rounds n stdin)%nat
  /\ (rounds n stdin <= n)%nat
  /\ Forall to_relay (sent (emitted (cliUpload n stdin) w log)).
Proof.
  destruct (loop_requests n stdin w log) as (evs & Hlog & Hlen & Hall).
  rewrite (emitted_app _ _ _ _ Hlog).
  split; [exact Hlen|]. split; [apply rounds_le|exact Hall].
Qed.

(** X16: the uploader consumes its input line by line and loses nothing:
    the lines read by the iterations it has run, followed by the input
    that remains, are the input. *)
Theorem uploader_reads_line_by_line n : forall stdin w log,
  lines_read (rounds n stdin) stdin ++ snd (fst (cliUpload n stdin w log))
  = stdin.
Proof.
  induction n as [|n IH]; intros stdin w log; [reflexivity|].
  rewrite cliUpload_S, rounds_S.
  pose proof (ReadString_split LF stdin) as Hs.
  destruct (String.eqb _ "exit").
  - cbn [lines_read fst snd]. rewrite append_nil_r. exact Hs.
  - cbn [lines_read]. rewrite append_assoc, IH. exact Hs.
Qed.

(** X17: once the sentinel has ended the loop, nothing more is read or
    done: allowing more iterations changes neither the result, nor the
    input left, nor the events. *)
Theorem uploader_stops_at_sentinel n : forall m stdin w log,
  fst (fst (cliUpload n stdin w log)) = Break ->
  (n <= m)%nat ->
  cliUpload m stdin w log = cliUpload n stdin w log.
Proof.
  induction n as [|n IH]; intros m stdin w log Hb Hle; [discriminate|].
  destruct m as [|m]; [lia|].
  rewrite !cliUpload_S in *.
  destruct (String.eqb _ "exit"); [reflexivity|].
  apply IH; [exact Hb|lia].
Qed.

Lemma uploader_stops_at_sentinel_witness :
  cliUpload 5 ("/no/such.png" ++ str1 LF ++ "exit" ++ str1 LF ++ "/home/me/cat.png")
    (Stub.world (Stub.answer 200 "ok")) []
  = cliUpload 2 ("/no/such.png" ++ str1 LF ++ "exit" ++ str1 LF ++ "/home/me/cat.png")
      (Stub.world (Stub.answer 200 "ok")) [].
Proof.
  apply uploader_stops_at_sentinel.
  - reflexivity.
  - lia.
Defined.

(** *** Blanks around the path *)

Lemma ReadString_line l rest :
  every notLF l = true ->
  bufio.ReadString LF (l ++ String LF rest) = (l ++ str1 LF, rest).
Proof.
  induction l as [|c l IH]; cbn [append every bufio.ReadString].
  - reflexivity.
  - intro H. apply andb_prop in H. destruct H as [Hc Hl].
    destruct (Ascii.eqb_spec c LF) as [->|_]; [discriminate|].
    now rewrite (IH Hl).
Qed.

Lemma trimLeft_spaces ws s :
  every (fun c => strings.IsSpace (code c) && (code c <? 128)) ws = true ->
  strings.trimLeftFrom 0 (ws ++ s) = strings.trimLeftFrom 0 s.
Proof.
  induction ws as [|c ws IH]; cbn [append every]; [reflexivity|].
  intro H. apply andb_prop in H. destruct H as [Hc Hws].
  apply andb_prop in Hc. destruct Hc as [Hsp Hlt].
  cbn [strings.trimLeftFrom utf8.DecodeRuneInString]. cbv zeta.
  unfold utf8.first. rewrite Hlt. cbn [Z.leb Z.compare Pos.compare Z.eqb Pos.eqb
    Pos.compare_cont].
  rewrite Hsp. cbn [Nat.pred]. apply IH. exact Hws.
Qed.

Lemma trimRight_spaces ws s :
  every (fun c => strings.IsSpace (code c) && (code c <? 128)) ws = true ->
  strings.trimRightRevFrom 0 (ws ++ s) = strings.trimRightRevFrom 0 s.
Proof.
  induction ws as [|c ws IH]; cbn [append every]; [reflexivity|].
  intro H. apply andb_prop in H. destruct H as [Hc Hws].
  apply andb_prop in Hc. destruct Hc as [Hsp Hlt].
  cbn [strings.trimRightRevFrom strings.DecodeLastRuneRev]. cbv zeta.
  unfold utf8.RuneSelf. rewrite Hlt, Hsp. cbn [Nat.pred]. apply IH. exact Hws.
Qed.

Lemma visible_not_space a :
  visible a = true ->
  strings.IsSpace (code a) = false /\ (code a <? 128) = true.
Proof.
  unfold visible, strings.IsSpace. intro H. apply andb_prop in H.
  destruct H as [H1 H2]. apply Z.leb_le in H1, H2.
  replace (code a <=? 13) with false by (symmetry; apply Z.leb_gt; lia).
  replace (0x2000 <=? code a) with false by (symmetry; apply Z.leb_gt; lia).
  repeat match goal with
  | |- context [code a =? ?n] =>
      replace (code a =? n) with false by (symmetry; apply Z.eqb_neq; lia)
  end.
  rewrite andb_false_r. split; [reflexivity|]. apply Z.ltb_lt. lia.
Qed.

Lemma trimLeft_visible a r :
  visible a = true -> strings.trimLeftFrom 0 (String a r) = String a r.
Proof.
  intro H. destruct (visible_not_space a H) as [Hsp Hlt].
  cbn [strings.trimLeftFrom utf8.DecodeRuneInString]. cbv zeta.
  unfold utf8.first. rewrite Hlt. cbn [Z.leb Z.compare Pos.compare Z.eqb Pos.eqb
    Pos.compare_cont].
  rewrite Hsp. reflexivity.
Qed.

Lemma trimRight_visible a r :
  visible a = true -> strings.trimRightRevFrom 0 (String a r) = String a r.
Proof.
  intro H. destruct (visible_not_space a H) as [Hsp Hlt].
  cbn [strings.trimRightRevFrom strings.DecodeLastRuneRev]. cbv zeta.
  unfold utf8.RuneSelf. rewrite Hlt, Hsp. reflexivity.
Qed.

Lemma blank_space ws :
  every blank ws = true ->
  every (fun c => strings.IsSpace (code c) && (code c <? 128)) ws = true.
Proof.
  induction ws as [|c ws IH]; cbn [every]; [reflexivity|].
  intro H. apply andb_prop in H. destruct H as [Hc Hws].
  rewrite (IH Hws), andb_true_r. clear IH Hws.
  unfold blank in Hc. cbv zeta in Hc.
  repeat (apply orb_prop in Hc; destruct Hc as [Hc|Hc]);
    apply Z.eqb_eq in Hc; rewrite Hc; reflexivity.
Qed.

Lemma TrimSpace_framed ws1 p ws2 :
  every blank ws1 = true -> every blank ws2 = true -> framed p = true ->
  strings.TrimSpace (ws1 ++ p ++ ws2 ++ str1 LF) = p.
Proof.
  intros H1 H2 Hp. unfold framed in Hp. apply andb_prop in Hp.
  destruct Hp as [_ Hp].
  destruct p as [|a r]; [discriminate|].
  destruct (rev (String a r)) as [|z q] eqn:Er; [discriminate|].
  apply andb_prop in Hp. destruct Hp as [Ha Hz].
  unfold strings.TrimSpace, strings.TrimLeftSpace, strings.TrimRightSpace.
  rewrite (trimLeft_spaces ws1 _ (blank_space ws1 H1)).
  cbn [append]. rewrite (trimLeft_visible a _ Ha).
  change (String a (r ++ ws2 ++ str1 LF)) with (String a r ++ ws2 ++ str1 LF).
  rewrite rev_app.
  rewrite trimRight_spaces.
  - rewrite Er, (trimRight_visible z q Hz), <- Er. apply rev_involutive.
  - rewrite every_rev, every_app, (blank_space ws2 H2). reflexivity.
Qed.

Lemma iteration_reads s1 s2 w log :
  strings.TrimSpace (nth_line 0 s1) = strings.TrimSpace (nth_line 0 s2) ->
  snd (bufio.ReadString LF s1) = snd (bufio.ReadString LF s2) ->
  cliUpload_iteration s1 w log = cliUpload_iteration s2 w log.
Proof.
  intros Hp Hr.
  pose proof (iteration_run s1 w log) as E1.
  pose proof (iteration_run s2 w log) as E2. cbv zeta in E1, E2.
  rewrite E1, E2, Hp, Hr. reflexivity.
Qed.

(** X18: blanks (spaces, tabs, vertical tabs, form feeds, carriage
    returns) before and after a path on its line are not part of the path
    the uploader works on: for a path on one line that begins and ends
    with a visible character, the iteration is the one of the path alone
    on its line. *)
Theorem uploader_ignores_blanks ws1 p ws2 rest w log :
  every blank ws1 = true -> every blank ws2 = true -> framed p = true ->
  strings.TrimSpace (nth_line 0 (ws1 ++ p ++ ws2 ++ String LF rest)) = p /\
  cliUpload_iteration (ws1 ++ p ++ ws2 ++ String LF rest) w log
  = cliUpload_iteration (p ++ String LF rest) w log.
Proof.
  intros H1 H2 Hp.
  assert (Hn : every notLF p = true).
  { unfold framed in Hp. apply andb_prop in Hp. apply Hp. }
  assert (Hb : forall ws, every blank ws = true -> every notLF ws = true).
  { induction ws as [|c ws IH]; cbn [every]; [reflexivity|].
    intro H. apply andb_prop in H. destruct H as [Hc Hws].
    rewrite (IH Hws), andb_true_r. unfold blank in Hc. cbv zeta in Hc.
    unfold notLF.
    repeat (apply orb_prop in Hc; destruct Hc as [Hc|Hc]);
      apply Z.eqb_eq in Hc; rewrite Hc; reflexivity. }
  assert (Hline : bufio.ReadString LF (ws1 ++ p ++ ws2 ++ String LF rest)
                  = (ws1 ++ p ++ ws2 ++ str1 LF, rest)).
  { rewrite <- (append_assoc p ws2), <- (append_assoc ws1).
    rewrite ReadString_line.
    - now rewrite !append_assoc.
    - rewrite !every_app, (Hb ws1 H1), (Hb ws2 H2), Hn. reflexivity. }
  assert (Hpath : strings.TrimSpace
                    (nth_line 0 (ws1 ++ p ++ ws2 ++ String LF rest)) = p).
  { cbn [nth_line]. rewrite Hline. cbn [fst].
    apply TrimSpace_framed; assumption. }
  split; [exact Hpath|].
  apply iteration_reads.
  - rewrite Hpath. cbn [nth_line]. rewrite (ReadString_line p rest Hn).
    cbn [fst]. symmetry.
    apply (TrimSpace_framed EmptyString p EmptyString); auto.
  - rewrite Hline, (ReadString_line p rest Hn). reflexivity.
Qed.

Lemma uploader_ignores_blanks_witness :
  strings.TrimSpace
    (nth_line 0 ("  " ++ "/home/me/my cat.png" ++ str1 (chr 13)
                      ++ String LF "exit")) = "/home/me/my cat.png" /\
  cliUpload_iteration
    ("  " ++ "/home/me/my cat.png" ++ str1 (chr 13) ++ String LF "exit")
    (Stub.world (Stub.answer 200 "ok")) []
  = cliUpload_iteration ("/home/me/my cat.png" ++ String LF "exit")
      (Stub.world (Stub.answer 200 "ok")) [].
Proof.
  apply (uploader_ignores_blanks "  " "/home/me/my cat.png" (str1 (chr 13))
           "exit" (Stub.world (Stub.answer 200 "ok")) []).
  - reflexivity.
  - reflexivity.
  - reflexivity.
Defined.

(** X19: the relay uses the first file of the field [file] only: further
    files of the field, and other fields of the form, change nothing. *)
Theorem relay_uses_first_file c mf fh others w log :
  c.(fiber.MultipartForm) = Ok mf ->
  fiber.lookup "file" mf = Some (fh :: others) ->
  upload_handler c w log
  = upload_handler (fiber.mkCtx (Ok [("file", [fh])])) w log.
Proof.
  intros Hmf Hl. unfold upload_handler, fiber.FormFile.
  rewrite Hmf, Hl. reflexivity.
Qed.

Lemma relay_uses_first_file_witness :
  upload_handler
    (fiber.mkCtx (Ok [("note", [Stub.spooled]);
                      ("file", [Stub.header; Stub.spooled])]))
    (Stub.world (Stub.answer 200 Stub.body_Qm123)) []
  = upload_handler Stub.request
      (Stub.world (Stub.answer 200 Stub.body_Qm123)) [].
Proof.
  apply (relay_uses_first_file _
           [("note", [Stub.spooled]); ("file", [Stub.header; Stub.spooled])]
           Stub.header [Stub.spooled]).
  - reflexivity.
  - reflexivity.
Defined.
